(** * online-netdisk: the store of [001_initial_schema.sql] and the request
    cache of [client/src/services/api.ts]

    The migration is embedded as a relational store.  Each of the tables
    [users], [folders], [files], [shares] and [expiry_tasks] is a list of
    rows keyed by its primary key; a statement is a function from a database
    to either the database it commits or the SQLSTATE it raises; the row
    trigger on [files] is run by the statements that fire it.  A statement
    touches one row, addressed by its primary key, and is atomic: the states
    of the model are the states between statements.

    Nullable columns are options, and [NULL] behaves as in SQL: it fails a
    [WHERE] comparison, passes a [CHECK], and is distinct from everything in
    a [UNIQUE] constraint.  Columns that no constraint, trigger or function
    of the migration reads (names of files, paths, hashes, creation stamps)
    are left out of the rows, and the length limits of [VARCHAR] columns are
    not modelled.  The column [users.updated_at], which the [BEFORE UPDATE]
    trigger of [users] rewrites whenever the row trigger of [files] updates
    a user, is kept beside the rows, with the statements that stamp it
    ([execute_at]).  The deletion of a folder and of a user, with their
    referential actions, are functions of their own; there are no
    statements for the session, log and version tables.

    The expiration engine the specification describes (task registry,
    sweeper, entity-store operations) and the download handler of share
    links have no source file.  Where a property needs one of their
    operations, the operation is modelled from the specification's text,
    marked as such, on top of the tables and the trigger of the migration.

    The request cache of [api.ts] is a transition system: the module state
    ([requestCache]), the pending [setTimeout] callbacks, the fetches issued
    so far and a clock, with one transition per turn of the event loop.
    [apiRequest] is an [async] function: its body is [Api.apiRequest], and
    the promise a call returns, which adopts the promise of the body, is
    that of [async_apiRequest]. *)

From Stdlib Require Import ZArith NArith Lia List.
From stdpp Require Import base decidable option list strings gmap sorting.

Local Open Scope Z_scope.

(** ** Values and statement results *)

(** [UUID] columns: only equality and the total order on identities are used. *)
Definition uuid := N.

(** [TIMESTAMP WITH TIME ZONE]: an instant on a linear time line. *)
Definition timestamptz := Z.

(** The conditions a statement of the migration can raise. *)
Inductive sqlstate : Set :=
  | unique_violation
  | check_violation
  | foreign_key_violation
  | numeric_value_out_of_range.

(** What a statement returns: the value it commits, or the condition it
    raises (the statement is then rolled back). *)
Inductive result (A : Type) : Type :=
  | Ok (a : A)
  | Err (e : sqlstate).
Arguments Ok {A} a.
Arguments Err {A} e.

#[global] Instance result_ret : MRet result := fun _ a => Ok a.
#[global] Instance result_bind : MBind result := fun _ _ f m =>
  match m with Ok a => f a | Err e => Err e end.

(** A failed check raises [e]. *)
Definition require (e : sqlstate) (b : bool) : result unit :=
  if b then Ok tt else Err e.

(** The range of [BIGINT]. *)
Definition bigint_min : Z := - 2 ^ 63.
Definition bigint_max : Z := 2 ^ 63 - 1.
Definition in_bigint (z : Z) : bool := (bigint_min <=? z) && (z <=? bigint_max).

(** The range of [INTEGER]. *)
Definition integer_min : Z := - 2 ^ 31.
Definition integer_max : Z := 2 ^ 31 - 1.
Definition in_integer (z : Z) : bool := (integer_min <=? z) && (z <=? integer_max).

(** ** Tables *)

Definition table (R : Type) : Type := list (uuid * R).

(** [SELECT * FROM t WHERE id = k]. *)
Fixpoint select {R} (k : uuid) (t : table R) : option R :=
  match t with
  | [] => None
  | (k', r) :: t' => if N.eqb k' k then Some r else select k t'
  end.

(** [EXISTS (SELECT 1 FROM t WHERE id = k)]. *)
Definition has_key {R} (k : uuid) (t : table R) : bool :=
  match select k t with Some _ => true | None => false end.

(** The row written by [UPDATE t SET ... WHERE id = k]. *)
Fixpoint replace_row {R} (k : uuid) (new : R) (t : table R) : table R :=
  match t with
  | [] => []
  | (k', r) :: t' =>
      if N.eqb k' k then (k', new) :: replace_row k new t'
      else (k', r) :: replace_row k new t'
  end.

(** [DELETE FROM t WHERE id = k]. *)
Fixpoint remove_row {R} (k : uuid) (t : table R) : table R :=
  match t with
  | [] => []
  | (k', r) :: t' =>
      if N.eqb k' k then remove_row k t' else (k', r) :: remove_row k t'
  end.

(** A foreign key that may be [NULL]. *)
Definition references {R} (fk : option uuid) (t : table R) : bool :=
  match fk with None => true | Some k => has_key k t end.

(** SQL equality of two nullable values inside a [UNIQUE] constraint:
    [NULL] is distinct from everything, itself included. *)
Definition not_distinct {A} `{EqDecision A} (x y : option A) : bool :=
  match x, y with
  | Some a, Some b => bool_decide (a = b)
  | _, _ => false
  end.

(** ** Rows *)

(** The two columns of [users] the storage accounting reads and writes.
    The column [updated_at], which the [BEFORE UPDATE] trigger of [users]
    rewrites at each recompute, is kept beside the rows, in
    [users_updated_at] below. *)
Module Users.
Record row : Set := {
  storage_used : option Z;      (* BIGINT DEFAULT 0 *)
  storage_limit : option Z      (* BIGINT DEFAULT 5368709120 *)
}.
End Users.

Module Folders.
Record row : Set := {
  user_id : uuid;               (* REFERENCES users(id) NOT NULL *)
  parent_id : option uuid;      (* REFERENCES folders(id) *)
  name : string;                (* VARCHAR(255) NOT NULL *)
  is_deleted : option bool      (* BOOLEAN DEFAULT false *)
}.
End Folders.

Module Files.
Record row : Set := {
  user_id : uuid;               (* REFERENCES users(id) NOT NULL *)
  folder_id : option uuid;      (* REFERENCES folders(id) ON DELETE SET NULL *)
  size : Z;                     (* BIGINT NOT NULL, CHECK (size > 0) *)
  is_deleted : option bool;     (* BOOLEAN DEFAULT false *)
  expires_at : option timestamptz
}.
End Files.

Module Shares.
Record row : Set := {
  file_id : uuid;               (* REFERENCES files(id) ON DELETE CASCADE NOT NULL *)
  user_id : uuid;               (* REFERENCES users(id) ON DELETE CASCADE NOT NULL *)
  token : string;               (* VARCHAR(32) UNIQUE NOT NULL *)
  expires_at : option timestamptz;
  download_count : option Z;    (* INTEGER DEFAULT 0 *)
  download_limit : option Z;    (* INTEGER *)
  is_active : option bool       (* BOOLEAN DEFAULT true *)
}.
End Shares.

Module ExpiryTasks.
Record row : Set := {
  task_type : string;           (* VARCHAR(20) NOT NULL, CHECK IN ('file','share') *)
  target_id : uuid;             (* UUID NOT NULL, no foreign key *)
  expires_at : timestamptz;     (* NOT NULL *)
  is_processed : option bool;   (* BOOLEAN DEFAULT false *)
  processed_at : option timestamptz
}.
End ExpiryTasks.

(** The five tables. *)
Record database : Type := {
  users : table Users.row;
  folders : table Folders.row;
  files : table Files.row;
  shares : table Shares.row;
  expiry_tasks : table ExpiryTasks.row
}.

(** The database with one table replaced. *)
Definition with_users (d : database) (t : table Users.row) : database :=
  {| users := t; folders := folders d; files := files d;
     shares := shares d; expiry_tasks := expiry_tasks d |}.

Definition with_folders (d : database) (t : table Folders.row) : database :=
  {| users := users d; folders := t; files := files d;
     shares := shares d; expiry_tasks := expiry_tasks d |}.

Definition with_files (d : database) (t : table Files.row) : database :=
  {| users := users d; folders := folders d; files := t;
     shares := shares d; expiry_tasks := expiry_tasks d |}.

Definition with_shares (d : database) (t : table Shares.row) : database :=
  {| users := users d; folders := folders d; files := files d;
     shares := t; expiry_tasks := expiry_tasks d |}.

Definition with_expiry_tasks (d : database) (t : table ExpiryTasks.row) : database :=
  {| users := users d; folders := folders d; files := files d;
     shares := shares d; expiry_tasks := t |}.

(** ** Storage accounting: the function and the row trigger on [files] *)

(** The aggregate [SUM]: [NULL] over no rows. *)
Definition SUM (l : list Z) : option Z :=
  match l with
  | [] => None
  | _ => Some (foldr Z.add 0 l)
  end.

(** [COALESCE(o, d)]. *)
Definition COALESCE (o : option Z) (d : Z) : Z :=
  match o with Some z => z | None => d end.

(** [WHERE user_id = user_uuid AND is_deleted = false]; a [NULL] flag does
    not satisfy the comparison. *)
Definition live_file_of (user_uuid : uuid) (p : uuid * Files.row) : bool :=
  N.eqb (Files.user_id (snd p)) user_uuid
  && bool_decide (Files.is_deleted (snd p) = Some false).

(** The [size] column of the rows the query selects. *)
Definition live_sizes (user_uuid : uuid) (d : database) : list Z :=
  map (fun p => Files.size (snd p)) (List.filter (live_file_of user_uuid) (files d)).

(** [calculate_user_storage_usage(user_uuid)]: the sum is selected into a
    [BIGINT] variable, so a total outside that type raises. *)
Definition calculate_user_storage_usage (user_uuid : uuid) (d : database)
  : result Z :=
  let total_size := COALESCE (SUM (live_sizes user_uuid d)) 0 in
  _ ← require numeric_value_out_of_range (in_bigint total_size);
  Ok total_size.

(** [UPDATE users SET storage_used = v WHERE id = k]. *)
Fixpoint set_storage_used (k : uuid) (v : Z) (t : table Users.row)
  : table Users.row :=
  match t with
  | [] => []
  | (k', r) :: t' =>
      (if N.eqb k' k
       then (k', {| Users.storage_used := Some v;
                    Users.storage_limit := Users.storage_limit r |})
       else (k', r)) :: set_storage_used k v t'
  end.

(** What fires [trigger_update_user_storage_usage]: [TG_OP] with the [OLD]
    and [NEW] rows it comes with. *)
Inductive tg_event : Set :=
  | TG_INSERT (NEW : Files.row)
  | TG_UPDATE (OLD NEW : Files.row)
  | TG_DELETE (OLD : Files.row).

(** [update_user_storage_usage()], run [AFTER INSERT OR UPDATE OR DELETE ON
    files FOR EACH ROW]: [d] already holds the statement's change. *)
Definition update_user_storage_usage (ev : tg_event) (d : database)
  : result database :=
  match ev with
  | TG_INSERT NEW | TG_UPDATE _ NEW =>
      v ← calculate_user_storage_usage (Files.user_id NEW) d;
      Ok (with_users d (set_storage_used (Files.user_id NEW) v (users d)))
  | TG_DELETE OLD =>
      v ← calculate_user_storage_usage (Files.user_id OLD) d;
      Ok (with_users d (set_storage_used (Files.user_id OLD) v (users d)))
  end.

(** ** Statements on [files] *)

(** [CONSTRAINT positive_file_size CHECK (size > 0)]. *)
Definition positive_file_size (r : Files.row) : bool := 0 <? Files.size r.

(** The column type, the check and the foreign keys of a [files] row. *)
Definition check_files_row (r : Files.row) (d : database) : result unit :=
  _ ← require numeric_value_out_of_range (in_bigint (Files.size r));
  _ ← require check_violation (positive_file_size r);
  _ ← require foreign_key_violation (has_key (Files.user_id r) (users d));
  require foreign_key_violation (references (Files.folder_id r) (folders d)).

(** [INSERT INTO files] of one row with primary key [id]. *)
Definition insert_into_files (id : uuid) (r : Files.row) (d : database)
  : result database :=
  _ ← require unique_violation (negb (has_key id (files d)));
  _ ← check_files_row r d;
  update_user_storage_usage (TG_INSERT r) (with_files d (files d ++ [(id, r)])).

(** [UPDATE files SET ... WHERE id = id]: [set] is the [SET] list applied to
    the old row; the primary key is not assigned.  The constraints are
    checked on the whole new row (those of a column the [SET] list leaves
    alone hold already in a store that satisfies its constraints).  No row,
    no trigger. *)
Definition update_files (id : uuid) (set : Files.row -> Files.row) (d : database)
  : result database :=
  match select id (files d) with
  | None => Ok d
  | Some OLD =>
      let NEW := set OLD in
      _ ← check_files_row NEW d;
      update_user_storage_usage (TG_UPDATE OLD NEW)
        (with_files d (replace_row id NEW (files d)))
  end.

(** The shares that [ON DELETE CASCADE] removes with file [id]. *)
Definition cascade_shares (id : uuid) (t : table Shares.row) : table Shares.row :=
  List.filter (fun p => negb (N.eqb (Shares.file_id (snd p)) id)) t.

(** [DELETE FROM files WHERE id = id]. *)
Definition delete_from_files (id : uuid) (d : database) : result database :=
  match select id (files d) with
  | None => Ok d
  | Some OLD =>
      update_user_storage_usage (TG_DELETE OLD)
        (with_shares (with_files d (remove_row id (files d)))
                     (cascade_shares id (shares d)))
  end.

(** ** Statements on [folders] *)

(** Two rows collide under
    [UNIQUE (user_id, parent_id, name, is_deleted)] when all four columns are
    equal and none of them is [NULL]. *)
Definition unique_folder_name_per_parent (r r' : Folders.row) : bool :=
  N.eqb (Folders.user_id r) (Folders.user_id r')
  && not_distinct (Folders.parent_id r) (Folders.parent_id r')
  && bool_decide (Folders.name r = Folders.name r')
  && not_distinct (Folders.is_deleted r) (Folders.is_deleted r').

(** No row of [t] other than the one keyed [id] collides with [r]. *)
Definition no_collision {R} (collide : R -> R -> bool) (id : uuid) (r : R)
    (t : table R) : bool :=
  forallb (fun p => N.eqb (fst p) id || negb (collide r (snd p))) t.

(** The foreign keys and the unique constraint of a [folders] row. *)
Definition check_folders_row (id : uuid) (r : Folders.row) (d : database)
  : result unit :=
  _ ← require foreign_key_violation (has_key (Folders.user_id r) (users d));
  _ ← require foreign_key_violation (references (Folders.parent_id r) (folders d));
  require unique_violation
    (no_collision unique_folder_name_per_parent id r (folders d)).

(** [INSERT INTO folders] of one row with primary key [id]. *)
Definition insert_into_folders (id : uuid) (r : Folders.row) (d : database)
  : result database :=
  _ ← require unique_violation (negb (has_key id (folders d)));
  _ ← check_folders_row id r d;
  Ok (with_folders d (folders d ++ [(id, r)])).

(** ** Statements on [shares] *)

(** [CHECK (download_count >= 0)]; a [CHECK] passes when its expression is
    true or [NULL]. *)
Definition non_negative_download_count (r : Shares.row) : bool :=
  match Shares.download_count r with
  | Some c => 0 <=? c
  | None => true
  end.

(** [CHECK (download_limit IS NULL OR download_limit > 0)]. *)
Definition positive_download_limit (r : Shares.row) : bool :=
  match Shares.download_limit r with
  | None => true
  | Some l => 0 <? l
  end.

(** A nullable [INTEGER] value is [NULL] or in range. *)
Definition in_integer_opt (o : option Z) : bool :=
  match o with Some z => in_integer z | None => true end.

(** Two rows collide under [token ... UNIQUE NOT NULL]. *)
Definition unique_token (r r' : Shares.row) : bool :=
  bool_decide (Shares.token r = Shares.token r').

(** The column types, checks, foreign keys and unique token of a [shares]
    row. *)
Definition check_shares_row (id : uuid) (r : Shares.row) (d : database)
  : result unit :=
  _ ← require numeric_value_out_of_range
        (in_integer_opt (Shares.download_count r)
         && in_integer_opt (Shares.download_limit r));
  _ ← require check_violation (non_negative_download_count r);
  _ ← require check_violation (positive_download_limit r);
  _ ← require foreign_key_violation (has_key (Shares.file_id r) (files d));
  _ ← require foreign_key_violation (has_key (Shares.user_id r) (users d));
  require unique_violation (no_collision unique_token id r (shares d)).

(** [INSERT INTO shares] of one row with primary key [id]. *)
Definition insert_into_shares (id : uuid) (r : Shares.row) (d : database)
  : result database :=
  _ ← require unique_violation (negb (has_key id (shares d)));
  _ ← check_shares_row id r d;
  Ok (with_shares d (shares d ++ [(id, r)])).

(** [UPDATE shares SET ... WHERE id = id]. *)
Definition update_shares (id : uuid) (set : Shares.row -> Shares.row)
    (d : database) : result database :=
  match select id (shares d) with
  | None => Ok d
  | Some OLD =>
      let NEW := set OLD in
      _ ← check_shares_row id NEW d;
      Ok (with_shares d (replace_row id NEW (shares d)))
  end.

(** [DELETE FROM shares WHERE id = id]. *)
Definition delete_from_shares (id : uuid) (d : database) : result database :=
  Ok (with_shares d (remove_row id (shares d))).

(** ** Statements on [expiry_tasks] *)

(** [CHECK (task_type IN ('file', 'share'))]. *)
Definition task_type_ok (r : ExpiryTasks.row) : bool :=
  bool_decide (ExpiryTasks.task_type r = "file")
  || bool_decide (ExpiryTasks.task_type r = "share").

(** Two rows collide under
    [UNIQUE (task_type, target_id, is_processed)] when the three columns are
    equal and the flag is not [NULL]. *)
Definition unique_unprocessed_task (r r' : ExpiryTasks.row) : bool :=
  bool_decide (ExpiryTasks.task_type r = ExpiryTasks.task_type r')
  && N.eqb (ExpiryTasks.target_id r) (ExpiryTasks.target_id r')
  && not_distinct (ExpiryTasks.is_processed r) (ExpiryTasks.is_processed r').

(** The check and the unique constraint of an [expiry_tasks] row. *)
Definition check_expiry_tasks_row (id : uuid) (r : ExpiryTasks.row)
    (d : database) : result unit :=
  _ ← require check_violation (task_type_ok r);
  require unique_violation
    (no_collision unique_unprocessed_task id r (expiry_tasks d)).

(** [INSERT INTO expiry_tasks] of one row with primary key [id]. *)
Definition insert_into_expiry_tasks (id : uuid) (r : ExpiryTasks.row)
    (d : database) : result database :=
  _ ← require unique_violation (negb (has_key id (expiry_tasks d)));
  _ ← check_expiry_tasks_row id r d;
  Ok (with_expiry_tasks d (expiry_tasks d ++ [(id, r)])).

(** [UPDATE expiry_tasks SET ... WHERE id = id]. *)
Definition update_expiry_tasks (id : uuid)
    (set : ExpiryTasks.row -> ExpiryTasks.row) (d : database)
  : result database :=
  match select id (expiry_tasks d) with
  | None => Ok d
  | Some OLD =>
      let NEW := set OLD in
      _ ← check_expiry_tasks_row id NEW d;
      Ok (with_expiry_tasks d (replace_row id NEW (expiry_tasks d)))
  end.

(** [DELETE FROM expiry_tasks WHERE id = id]. *)
Definition delete_from_expiry_tasks (id : uuid) (d : database)
  : result database :=
  Ok (with_expiry_tasks d (remove_row id (expiry_tasks d))).

(** ** Single-row statements and the states they reach *)

(** The single-row statements of the model. *)
Inductive statement : Type :=
  | INSERT_INTO_files (id : uuid) (r : Files.row)
  | UPDATE_files (id : uuid) (set : Files.row -> Files.row)
  | DELETE_FROM_files (id : uuid)
  | INSERT_INTO_folders (id : uuid) (r : Folders.row)
  | INSERT_INTO_shares (id : uuid) (r : Shares.row)
  | UPDATE_shares (id : uuid) (set : Shares.row -> Shares.row)
  | DELETE_FROM_shares (id : uuid)
  | INSERT_INTO_expiry_tasks (id : uuid) (r : ExpiryTasks.row)
  | UPDATE_expiry_tasks (id : uuid) (set : ExpiryTasks.row -> ExpiryTasks.row)
  | DELETE_FROM_expiry_tasks (id : uuid).

(** Running one statement. *)
Definition execute (st : statement) (d : database) : result database :=
  match st with
  | INSERT_INTO_files id r => insert_into_files id r d
  | UPDATE_files id set => update_files id set d
  | DELETE_FROM_files id => delete_from_files id d
  | INSERT_INTO_folders id r => insert_into_folders id r d
  | INSERT_INTO_shares id r => insert_into_shares id r d
  | UPDATE_shares id set => update_shares id set d
  | DELETE_FROM_shares id => delete_from_shares id d
  | INSERT_INTO_expiry_tasks id r => insert_into_expiry_tasks id r d
  | UPDATE_expiry_tasks id set => update_expiry_tasks id set d
  | DELETE_FROM_expiry_tasks id => delete_from_expiry_tasks id d
  end.

(** A script runs its statements in order and stops at the first error. *)
Fixpoint run (script : list statement) (d : database) : result database :=
  match script with
  | [] => Ok d
  | st :: script' => d' ← execute st d; run script' d'
  end.

(** The states committed statements lead to from [d0]. *)
Inductive reachable (d0 : database) : database -> Prop :=
  | reachable_start : reachable d0 d0
  | reachable_commit d st d' :
      reachable d0 d -> execute st d = Ok d' -> reachable d0 d'.

(** The exact figure the aggregate is meant to hold: the sizes of the
    user's files whose flag is [false], added up. *)
Definition live_total (user_uuid : uuid) (d : database) : Z :=
  foldr Z.add 0 (live_sizes user_uuid d).

(** The persisted aggregate of user [u]: [None] when [u] has no row. *)
Definition storage_used_of (u : uuid) (d : database) : option (option Z) :=
  Users.storage_used <$> select u (users d).

(** The aggregate of [u] is persisted and equals the exact total. *)
Definition storage_exact (u : uuid) (d : database) : Prop :=
  storage_used_of u d = Some (Some (live_total u d)).

(** ** Expiration Task Registry *)

Module Registry.

(** Modelled from the spec: an unprocessed task, read off the migration's
    column as [is_processed = false]; a [NULL] flag is not an unprocessed
    task. *)
Definition unprocessed (r : ExpiryTasks.row) : bool :=
  bool_decide (ExpiryTasks.is_processed r = Some false).

(** Modelled from the spec: a due task, unprocessed with [dueAt <= asOf];
    [dueAt] is the table's [expires_at]. *)
Definition due (asOf : timestamptz) (p : uuid * ExpiryTasks.row) : bool :=
  unprocessed (snd p) && (ExpiryTasks.expires_at (snd p) <=? asOf).

(** Modelled from the spec: the order of section 4.3 and its tie-break rule,
    oldest due instant first and equal instants by task identity. *)
Definition due_order (p q : uuid * ExpiryTasks.row) : Prop :=
  ExpiryTasks.expires_at (snd p) < ExpiryTasks.expires_at (snd q)
  \/ (ExpiryTasks.expires_at (snd p) = ExpiryTasks.expires_at (snd q)
      /\ (fst p <= fst q)%N).

#[global] Instance due_order_dec : RelDecision due_order.
Proof. intros p q. unfold due_order. apply _. Defined.

(** Modelled from the spec: the Registry operation [dueTasks(asOf, limit)]
    has no source file; section 4.3 gives it as the unprocessed tasks with
    [dueAt <= asOf], ordered by [dueAt] ascending with ties broken by task
    identity, capped at [limit].  It reads the [expiry_tasks] table of the
    migration; the finite sequence it produces is a list. *)
Definition dueTasks (asOf : timestamptz) (limit : nat) (d : database)
  : list (uuid * ExpiryTasks.row) :=
  take limit (merge_sort due_order (List.filter (due asOf) (expiry_tasks d))).

End Registry.

(** ** Expiration Sweeper *)

Module Sweeper.

(** Modelled from the spec: the error kinds of section 7 a sequential run
    can meet ([StoreUnavailable] is a transient fault of the store and has no
    place in a run without faults); a constraint violation carries the
    SQLSTATE of the migration's table. *)
Inductive store_error : Set :=
  | NotFound
  | Conflict
  | ConstraintViolation (e : sqlstate).

(** Modelled from the spec: what an Entity Store operation returns. *)
Inductive outcome : Type :=
  | Applied (d : database)
  | Failed (e : store_error).

(** Modelled from the spec: the Entity Store's
    [conditionalUpdate(predicate, mutation)] of section 4.1 has no source
    file.  On a task row it is the [UPDATE] statement of the migration's
    table, run only when the stored row still satisfies the predicate. *)
Definition conditionalUpdate (id : uuid) (predicate : ExpiryTasks.row -> bool)
    (mutation : ExpiryTasks.row -> ExpiryTasks.row) (d : database) : outcome :=
  match select id (expiry_tasks d) with
  | None => Failed NotFound
  | Some r =>
      if predicate r then
        match update_expiry_tasks id mutation d with
        | Ok d' => Applied d'
        | Err e => Failed (ConstraintViolation e)
        end
      else Failed Conflict
  end.

(** Modelled from the spec: the mutation of the claim, [processed=true] with
    the processing stamp. *)
Definition mark_processed (now : timestamptz) (r : ExpiryTasks.row)
  : ExpiryTasks.row :=
  {| ExpiryTasks.task_type := ExpiryTasks.task_type r;
     ExpiryTasks.target_id := ExpiryTasks.target_id r;
     ExpiryTasks.expires_at := ExpiryTasks.expires_at r;
     ExpiryTasks.is_processed := Some true;
     ExpiryTasks.processed_at := Some now |}.

(** Modelled from the spec: step 2 of the sweep cycle, the claim
    [processed=false -> processed=true]. *)
Definition claim (now : timestamptz) (id : uuid) (d : database) : outcome :=
  conditionalUpdate id Registry.unprocessed (mark_processed now) d.

(** Modelled from the spec: the effect on a file, [is_deleted=true]. *)
Definition soft_delete (r : Files.row) : Files.row :=
  {| Files.user_id := Files.user_id r;
     Files.folder_id := Files.folder_id r;
     Files.size := Files.size r;
     Files.is_deleted := Some true;
     Files.expires_at := Files.expires_at r |}.

(** Modelled from the spec: the effect on a share, [is_active=false]. *)
Definition deactivate (r : Shares.row) : Shares.row :=
  {| Shares.file_id := Shares.file_id r;
     Shares.user_id := Shares.user_id r;
     Shares.token := Shares.token r;
     Shares.expires_at := Shares.expires_at r;
     Shares.download_count := Shares.download_count r;
     Shares.download_limit := Shares.download_limit r;
     Shares.is_active := Some false |}.

(** Modelled from the spec: steps 2 to 5 of the sweep cycle for one task;
    the Sweeper has no source file.  A failed claim skips the task; after a
    successful claim the effect is a statement on the migration's tables
    (for a file, the [UPDATE] that sets [is_deleted], whose row trigger is
    the Storage Accountant's recompute for the owner), and an error of the
    effect leaves the task claimed. *)
Definition sweep_task (now : timestamptz) (t : uuid * ExpiryTasks.row)
    (d : database) : database :=
  match claim now (fst t) d with
  | Failed _ => d
  | Applied d1 =>
      if bool_decide (ExpiryTasks.task_type (snd t) = "file") then
        match update_files (ExpiryTasks.target_id (snd t)) soft_delete d1 with
        | Ok d2 => d2
        | Err _ => d1
        end
      else if bool_decide (ExpiryTasks.task_type (snd t) = "share") then
        match update_shares (ExpiryTasks.target_id (snd t)) deactivate d1 with
        | Ok d2 => d2
        | Err _ => d1
        end
      else d1
  end.

(** Modelled from the spec: one sweep cycle of section 4.4, steps 1 to 5:
    fetch [dueTasks(now, limit)], then sweep the fetched tasks in order. *)
Definition sweep_cycle (now : timestamptz) (limit : nat) (d : database)
  : database :=
  foldl (fun d' t => sweep_task now t d') d (Registry.dueTasks now limit d).

End Sweeper.

(** ** Downloads through a share link *)

Module Downloads.

(** Modelled from the spec: what a download attempt through a link comes
    to.  The handler has no source file ([index.ts] imports
    [./routes/shares], which the repository does not hold). *)
Inductive attempt : Type :=
  | Served
  | Rejected.

(** Modelled from the spec: the counter of the link has reached its limit
    (section 3, [download_count <= download_limit] whenever a limit is set).
    The comparison is SQL's: with a [NULL] operand it is not true. *)
Definition limit_reached (r : Shares.row) : bool :=
  match Shares.download_count r, Shares.download_limit r with
  | Some c, Some l => l <=? c
  | _, _ => false
  end.

(** Modelled from the spec: a download is counted,
    [SET download_count = download_count + 1]. *)
Definition count_download (r : Shares.row) : Shares.row :=
  {| Shares.file_id := Shares.file_id r;
     Shares.user_id := Shares.user_id r;
     Shares.token := Shares.token r;
     Shares.expires_at := Shares.expires_at r;
     Shares.download_count := Z.succ <$> Shares.download_count r;
     Shares.download_limit := Shares.download_limit r;
     Shares.is_active := Shares.is_active r |}.

(** Modelled from the spec: a download is recorded by counting it; the
    download that reaches the limit deactivates the link in the same
    [UPDATE] (section 3, once the limit is reached the link is deactivated,
    not merely flagged). *)
Definition record_download (r : Shares.row) : Shares.row :=
  if limit_reached (count_download r)
  then Sweeper.deactivate (count_download r)
  else count_download r.

(** Modelled from the spec: one download attempt through link [id]
    (section 8: on a link at its limit the attempt must be rejected and
    [is_active] set false, without exceeding the counter).  A link that is
    missing or not active is refused; an active link found at its limit is
    refused and deactivated; otherwise the download is served and recorded.
    The writes are [UPDATE] statements on the migration's table, and an
    attempt whose [UPDATE] the store refuses is rejected. *)
Definition download (id : uuid) (d : database) : attempt * database :=
  match select id (shares d) with
  | None => (Rejected, d)
  | Some r =>
      if bool_decide (Shares.is_active r = Some true) then
        if limit_reached r then
          match update_shares id Sweeper.deactivate d with
          | Ok d' => (Rejected, d')
          | Err _ => (Rejected, d)
          end
        else
          match update_shares id record_download d with
          | Ok d' => (Served, d')
          | Err _ => (Rejected, d)
          end
      else (Rejected, d)
  end.

(** Modelled from the spec: an [UPDATE] of a link other than a download
    leaves the counter and the limit alone, and the active flag as it is or
    false (the Sweeper's [deactivate], an edit of the expiration). *)
Definition keeps_counter (set : Shares.row -> Shares.row) : Prop :=
  forall r,
    Shares.download_count (set r) = Shares.download_count r
    /\ Shares.download_limit (set r) = Shares.download_limit r
    /\ (Shares.is_active (set r) = Shares.is_active r
        \/ Shares.is_active (set r) = Some false).

(** Modelled from the spec: the statements the service issues besides the
    download handler.  A link is created with the counter at the column's
    [DEFAULT 0]; statements on the other tables are not restricted. *)
Definition service_statement (st : statement) : Prop :=
  match st with
  | INSERT_INTO_shares _ r => Shares.download_count r = Some 0
  | UPDATE_shares _ set => keeps_counter set
  | _ => True
  end.

(** Modelled from the spec: the states the service reaches from [d0], by
    its statements and by download attempts. *)
Inductive reaches (d0 : database) : database -> Prop :=
  | reaches_start : reaches d0 d0
  | reaches_statement d st d' :
      reaches d0 d -> service_statement st -> execute st d = Ok d' ->
      reaches d0 d'
  | reaches_download d id :
      reaches d0 d -> reaches d0 (snd (download id d)).



End Downloads.

(** ** The request cache of [services/api.ts] *)

Module Api.

(** The values a request body can hold ([body?: any]) with the two
    JavaScript operations [getCacheKey] applies to them. *)
Class JSON : Type := {
  any : Type;
  JSON_stringify : any -> string;
  falsy : any -> bool;
  empty_object : any
}.

(** [method?: 'GET' | 'POST' | 'PUT' | 'DELETE']. *)
Inductive Method : Set := GET | POST | PUT | DELETE.

(** The method as the string the key is built from. *)
Definition Method_string (m : Method) : string :=
  match m with
  | GET => "GET" | POST => "POST" | PUT => "PUT" | DELETE => "DELETE"
  end.

(** [interface RequestConfig]. *)
Record RequestConfig `{JSON} : Type := {
  method : option Method;
  headers : list (string * string);
  body : option any
}.

(** [const CACHE_DURATION = 5000], in milliseconds. *)
Definition CACHE_DURATION : Z := 5000.

(** [x || y] on an optional value. *)
Definition or_else {A} (is_falsy : A -> bool) (x : option A) (y : A) : A :=
  match x with
  | Some a => if is_falsy a then y else a
  | None => y
  end.

(** [getCacheKey]: method, endpoint and printed body, joined by colons. *)
Definition getCacheKey `{JSON} (endpoint : string) (config : RequestConfig)
  : string :=
  String.append (Method_string (or_else (fun _ => false) (method config) GET))
    (String.append ":"
      (String.append endpoint
        (String.append ":"
          (JSON_stringify (or_else falsy (body config) empty_object))))).

(** Promises are told apart by the order of their creation. *)
Definition promise := nat.

(** How a promise settles. *)
Inductive settlement `{JSON} : Type :=
  | Fulfilled (data : any)
  | Rejected (message : string).

(** One [fetch] issued by [executeRequest]. *)
Record request `{JSON} : Type := {
  req_promise : promise;
  req_time : Z;
  req_endpoint : string;
  req_config : RequestConfig
}.

(** The module state together with the event loop's view of it. *)
Record client `{JSON} : Type := {
  clock : Z;                                (* milliseconds *)
  requestCache : gmap string promise;       (* Map<string, Promise<any>> *)
  timers : list (Z * string);               (* pending setTimeout callbacks *)
  network : list request;                   (* fetches issued, oldest first *)
  next_promise : promise;
  settled : gmap promise settlement
}.

(** [executeRequest]: the fetch is issued during the call and the promise
    of its outcome is returned. *)
Definition executeRequest `{JSON} (endpoint : string) (config : RequestConfig)
    (c : client) : client * promise :=
  let p := next_promise c in
  ({| clock := clock c;
      requestCache := requestCache c;
      timers := timers c;
      network := network c ++ [{| req_promise := p; req_time := clock c;
                                  req_endpoint := endpoint;
                                  req_config := config |}];
      next_promise := S p;
      settled := settled c |}, p).

(** [method === 'GET'], with the default of the destructuring. *)
Definition is_GET (m : option Method) : bool :=
  match or_else (fun _ => false) m GET with GET => true | _ => false end.

(** The body of [apiRequest]: the module state it leaves and the promise
    its [return] statement gives.  [apiRequest] is declared [async], so what
    a caller holds is a promise of the call's own that adopts this one; that
    promise is [async_apiRequest] below. *)
Definition apiRequest `{JSON} (endpoint : string) (config : RequestConfig)
    (c : client) : client * promise :=
  if is_GET (method config) then
    let cacheKey := getCacheKey endpoint config in
    match requestCache c !! cacheKey with
    | Some cached => (c, cached)
    | None =>
        let '(c1, requestPromise) := executeRequest endpoint config c in
        ({| clock := clock c1;
            requestCache := <[cacheKey := requestPromise]> (requestCache c1);
            timers := timers c1 ++ [(clock c1 + CACHE_DURATION, cacheKey)];
            network := network c1;
            next_promise := next_promise c1;
            settled := settled c1 |}, requestPromise)
    end
  else executeRequest endpoint config c.

(** The callback of [setTimeout]: [requestCache.delete(cacheKey)], run for
    the [i]-th pending timer. *)
Definition fire `{JSON} (i : nat) (cacheKey : string) (c : client) : client :=
  {| clock := clock c;
     requestCache := delete cacheKey (requestCache c);
     timers := delete i (timers c);
     network := network c;
     next_promise := next_promise c;
     settled := settled c |}.

(** Time passes. *)
Definition elapse `{JSON} (dt : Z) (c : client) : client :=
  {| clock := clock c + dt;
     requestCache := requestCache c;
     timers := timers c;
     network := network c;
     next_promise := next_promise c;
     settled := settled c |}.

(** The fetch behind promise [p] completes with [o]. *)
Definition settle `{JSON} (p : promise) (o : settlement) (c : client) : client :=
  {| clock := clock c;
     requestCache := requestCache c;
     timers := timers c;
     network := network c;
     next_promise := next_promise c;
     settled := <[p := o]> (settled c) |}.

(** One turn of the event loop: a call of [apiRequest], time passing, a
    timer callback that is due, or a fetch settling its promise. *)
Inductive step `{JSON} : client -> client -> Prop :=
  | step_call endpoint config c :
      step c (fst (apiRequest endpoint config c))
  | step_elapse dt c :
      0 <= dt -> step c (elapse dt c)
  | step_timeout i due cacheKey c :
      timers c !! i = Some (due, cacheKey) -> due <= clock c ->
      step c (fire i cacheKey c)
  | step_settle p o c :
      (p < next_promise c)%nat -> settled c !! p = None ->
      step c (settle p o c).

(** Any number of turns. *)
Inductive steps `{JSON} : client -> client -> Prop :=
  | steps_refl c : steps c c
  | steps_cons c1 c2 c3 : step c1 c2 -> steps c2 c3 -> steps c1 c3.

(** The module as loaded at time [t0]: nothing cached, nothing pending. *)
Definition loaded `{JSON} (t0 : Z) : client :=
  {| clock := t0; requestCache := ∅; timers := []; network := [];
     next_promise := O; settled := ∅ |}.

(** The fetches issued for cache key [k]. *)
Definition fetches_for `{JSON} (k : string) (c : client) : list request :=
  List.filter
    (fun r => is_GET (method (req_config r))
              && bool_decide (getCacheKey (req_endpoint r) (req_config r) = k))
    (network c).

(** What a caller awaiting [p] observes. *)
Definition observed `{JSON} (p : promise) (c : client) : option settlement :=
  settled c !! p.

(** Every pending timer belongs to a cached key, and no key has two. *)
Definition cache_timers_agree `{JSON} (c : client) : Prop :=
  NoDup (timers c).*2
  /\ forall due k, (due, k) ∈ timers c -> is_Some (requestCache c !! k).

(** Key [k] is cached with promise [p] and none of its timers is due before
    [D]. *)
Definition window_open `{JSON} (k : string) (p : promise) (D : Z) (c : client)
  : Prop :=
  requestCache c !! k = Some p
  /\ forall due, (due, k) ∈ timers c -> D <= due.

(** Requests without a body, or with the empty object as body, which
    [JSON.stringify] prints as [{}]. *)
#[global] Instance empty_bodies : JSON :=
  {| any := unit;
     JSON_stringify := fun _ => "{}";
     falsy := fun _ => false;
     empty_object := tt |}.

(** [apiRequest('/users/storage')], as [userApi.getStorageStats] calls it. *)
Definition storage_stats_config : RequestConfig (H := empty_bodies) :=
  {| method := None; headers := []; body := None |}.

End Api.

(** ** Calls of the [async] function *)

Section AsyncCalls.
Context `{J : Api.JSON}.
Import Api.

(** The promise an [async] call returns; told apart by the order of the
    calls. *)
Definition call_promise := nat.

(** The module state together with the calls made so far: for each call,
    oldest first, the promise the body returned, which the call's own promise
    adopts. *)
Record script : Type := {
  module_state : client;
  returned : list promise
}.

(** [apiRequest(endpoint, config)] as its callers see it
    ([const apiRequest = async ...]): the body runs, and the call returns a
    fresh promise that adopts the promise the body returned. *)
Definition async_apiRequest (endpoint : string) (config : RequestConfig)
    (s : script) : script * call_promise :=
  let '(c, p) := apiRequest endpoint config (module_state s) in
  ({| module_state := c; returned := returned s ++ [p] |},
   length (returned s)).

(** The promise the call promise [a] adopts. *)
Definition adopted (a : call_promise) (s : script) : option promise :=
  returned s !! a.

(** What a caller awaiting the call promise [a] observes: the settlement of
    the promise it adopts. *)
Definition awaited (a : call_promise) (s : script) : option settlement :=
  adopted a s ≫= fun p => observed p (module_state s).

(** A turn of the event loop that is not a call. *)
Definition turn (f : client -> client) (s : script) : script :=
  {| module_state := f (module_state s); returned := returned s |}.

(** One turn of the event loop, with the calls recorded. *)
Inductive script_step : script -> script -> Prop :=
  | script_call endpoint config s :
      script_step s (fst (async_apiRequest endpoint config s))
  | script_elapse dt s :
      0 <= dt -> script_step s (turn (elapse dt) s)
  | script_timeout i due cacheKey s :
      timers (module_state s) !! i = Some (due, cacheKey) ->
      due <= clock (module_state s) ->
      script_step s (turn (fire i cacheKey) s)
  | script_settle p o s :
      (p < next_promise (module_state s))%nat ->
      settled (module_state s) !! p = None ->
      script_step s (turn (settle p o) s).

(** Any number of turns. *)
Inductive script_steps : script -> script -> Prop :=
  | script_steps_refl s : script_steps s s
  | script_steps_cons s1 s2 s3 :
      script_step s1 s2 -> script_steps s2 s3 -> script_steps s1 s3.

(** The script as loaded at time [t0]: no call made yet. *)
Definition script_loaded (t0 : Z) : script :=
  {| module_state := loaded t0; returned := [] |}.

(** What two calls of [apiRequest] for one [GET] key come to, the first made
    in state [s0] and the second in state [s2]: the two call promises differ
    and adopt the same promise, the one cached for the key; the second call
    leaves the module state as it is; between the two calls one fetch was
    issued for the key, the one of the first call; and whatever one caller
    observes of its promise, at any later time, the other observes too. *)
Definition answered_by_one_fetch (endpoint : string)
    (cfg1 cfg2 : RequestConfig) (s0 s2 : script) : Prop :=
  let k := getCacheKey endpoint cfg1 in
  let a1 := snd (async_apiRequest endpoint cfg1 s0) in
  let a2 := snd (async_apiRequest endpoint cfg2 s2) in
  let s3 := fst (async_apiRequest endpoint cfg2 s2) in
  a1 <> a2
  /\ (exists p, adopted a1 s3 = Some p /\ adopted a2 s3 = Some p
               /\ requestCache (module_state s3) !! k = Some p
               /\ fetches_for k (module_state s3)
                  = fetches_for k (module_state s0)
                    ++ [{| req_promise := p;
                           req_time := clock (module_state s0);
                           req_endpoint := endpoint; req_config := cfg1 |}])
  /\ module_state s3 = module_state s2
  /\ forall s4, script_steps s3 s4 -> awaited a1 s4 = awaited a2 s4.

End AsyncCalls.

(** The storage statistics read on a fresh page, and read again 4999 ms
    later. *)
Definition first_storage_stats : script (J := Api.empty_bodies) :=
  fst (async_apiRequest "/users/storage" Api.storage_stats_config
         (script_loaded 0)).

Definition before_second_storage_stats : script (J := Api.empty_bodies) :=
  turn (Api.elapse 4999) first_storage_stats.

(** ** Notions the statements of the theorems use *)

(** The user whose aggregate the trigger function recomputes. *)
Definition tg_user (ev : tg_event) : uuid :=
  match ev with
  | TG_INSERT NEW | TG_UPDATE _ NEW => Files.user_id NEW
  | TG_DELETE OLD => Files.user_id OLD
  end.

(** The primary key of a table: no identity occurs twice. *)
Definition primary_key {R} (t : table R) : Prop := NoDup (map fst t).

(** ** The column [users.updated_at] *)

(** What fires [trigger_update_user_storage_usage] when statement [st] runs
    on [d]: the event of the row the statement inserts, updates or deletes,
    if there is one. *)
Definition fired (st : statement) (d : database) : option tg_event :=
  match st with
  | INSERT_INTO_files _ r => Some (TG_INSERT r)
  | UPDATE_files id set =>
      (fun OLD => TG_UPDATE OLD (set OLD)) <$> select id (files d)
  | DELETE_FROM_files id => TG_DELETE <$> select id (files d)
  | _ => None
  end.

(** [update_updated_at_column()], run [BEFORE UPDATE ON users FOR EACH ROW]:
    [NEW.updated_at = NOW()], for the row of user [u]. *)
Definition update_updated_at_column (now : timestamptz) (u : uuid)
    (updated_at : table timestamptz) : table timestamptz :=
  replace_row u now updated_at.

(** The tables together with the column [updated_at] of [users], by user. *)
Record stamped : Type := {
  rows : database;
  users_updated_at : table timestamptz
}.

(** Statement [st] committed at instant [now].  The [UPDATE users] of
    [update_user_storage_usage] fires [update_users_updated_at] for the row
    it updates, the row of the event's user. *)
Definition execute_at (now : timestamptz) (st : statement) (s : stamped)
  : result stamped :=
  d' ← execute st (rows s);
  Ok {| rows := d';
        users_updated_at :=
          match fired st (rows s) with
          | Some ev =>
              update_updated_at_column now (tg_user ev) (users_updated_at s)
          | None => users_updated_at s
          end |}.

(** What a statement committed at [now] leaves of [updated_at] of user [u]:
    [now] if the trigger's [UPDATE users] hit the row of [u], the old value
    otherwise. *)
Definition updated_at_after (now : timestamptz) (st : statement) (u : uuid)
    (s : stamped) : option timestamptz :=
  match fired st (rows s) with
  | Some ev =>
      if N.eqb (tg_user ev) u
      then (fun _ => now) <$> select u (users_updated_at s)
      else select u (users_updated_at s)
  | None => select u (users_updated_at s)
  end.


(** [SET user_id = u]. *)
Definition set_owner (u : uuid) (r : Files.row) : Files.row :=
  {| Files.user_id := u;
     Files.folder_id := Files.folder_id r;
     Files.size := Files.size r;
     Files.is_deleted := Files.is_deleted r;
     Files.expires_at := Files.expires_at r |}.

(** What file [r] adds to the exact total of user [u]. *)
Definition contribution (u : uuid) (r : Files.row) : Z :=
  if N.eqb (Files.user_id r) u && bool_decide (Files.is_deleted r = Some false)
  then Files.size r else 0.

(** A row of [users] as [INSERT] leaves it when only the identifying columns
    are given: [storage_used] 0 and the 5 GB limit. *)
Definition new_user : Users.row :=
  {| Users.storage_used := Some 0; Users.storage_limit := Some 5368709120 |}.

(** A [files] row with the defaults of the optional columns. *)
Definition new_file (owner : uuid) (bytes : Z) (expiry : option timestamptz)
  : Files.row :=
  {| Files.user_id := owner; Files.folder_id := None; Files.size := bytes;
     Files.is_deleted := Some false; Files.expires_at := expiry |}.

(** Two users (identities 1 and 2) and nothing else: the store after the
    migration's seed of the two default accounts. *)
Definition two_users : database :=
  {| users := [(1%N, new_user); (2%N, new_user)];
     folders := []; files := []; shares := []; expiry_tasks := [] |}.

(** The exact total of user [u] over a [files] table. *)
Definition table_total (u : uuid) (t : table Files.row) : Z :=
  foldr Z.add 0 (map (fun p => Files.size (snd p)) (List.filter (live_file_of u) t)).

(** A file of 1000 bytes uploaded by user 1, then handed to user 2. *)
Definition upload_then_transfer : list statement :=
  [INSERT_INTO_files 10%N (new_file 1%N 1000 None);
   UPDATE_files 10%N (set_owner 2%N)].

(** The store right after the upload of [upload_then_transfer], and after
    the transfer. *)
Definition after_upload : database :=
  {| users := [(1%N, {| Users.storage_used := Some 1000;
                        Users.storage_limit := Some 5368709120 |});
               (2%N, new_user)];
     folders := []; files := [(10%N, new_file 1%N 1000 None)];
     shares := []; expiry_tasks := [] |}.

Definition after_transfer : database :=
  {| users := [(1%N, {| Users.storage_used := Some 1000;
                        Users.storage_limit := Some 5368709120 |});
               (2%N, {| Users.storage_used := Some 1000;
                        Users.storage_limit := Some 5368709120 |})];
     folders := []; files := [(10%N, new_file 2%N 1000 None)];
     shares := []; expiry_tasks := [] |}.

(** [two_users] and [after_upload], the rows of both users last updated at
    instant 5. *)
Definition two_users_stamped : stamped :=
  {| rows := two_users; users_updated_at := [(1%N, 5); (2%N, 5)] |}.

Definition after_upload_stamped : stamped :=
  {| rows := after_upload; users_updated_at := [(1%N, 5); (2%N, 5)] |}.

(** The tasks of one (kind, target) pair whose flag is [flag]. *)
Definition tasks_with_flag (flag : bool) (kind : string) (target : uuid)
    (d : database) : list (uuid * ExpiryTasks.row) :=
  List.filter
    (fun p => bool_decide (ExpiryTasks.task_type (snd p) = kind)
              && N.eqb (ExpiryTasks.target_id (snd p)) target
              && bool_decide (ExpiryTasks.is_processed (snd p) = Some flag))
    (expiry_tasks d).

(** The unprocessed, and the processed, tasks of a (kind, target) pair. *)
Definition unprocessed_tasks := tasks_with_flag false.
Definition processed_tasks := tasks_with_flag true.

(** What the constraints of [expiry_tasks] make of the table. *)
Definition tasks_consistent (t : table ExpiryTasks.row) : Prop :=
  primary_key t
  /\ (forall i r, In (i, r) t -> task_type_ok r = true)
  /\ (forall i j r r', In (i, r) t -> In (j, r') t ->
        unique_unprocessed_task r r' = true -> i = j).

(** A task row with the defaults of the optional columns. *)
Definition new_task (kind : string) (target : uuid) (dueAt : timestamptz)
  : ExpiryTasks.row :=
  {| ExpiryTasks.task_type := kind; ExpiryTasks.target_id := target;
     ExpiryTasks.expires_at := dueAt; ExpiryTasks.is_processed := Some false;
     ExpiryTasks.processed_at := None |}.

(** A task row inserted as already processed at [at_]. *)
Definition processed_task (kind : string) (target : uuid)
    (dueAt at_ : timestamptz) : ExpiryTasks.row :=
  {| ExpiryTasks.task_type := kind; ExpiryTasks.target_id := target;
     ExpiryTasks.expires_at := dueAt; ExpiryTasks.is_processed := Some true;
     ExpiryTasks.processed_at := Some at_ |}.

(** [two_users] with one pending expiration of file 10, due at instant 500,
    and the same store once that task has been processed at instant 600. *)
Definition one_pending_task : database :=
  with_expiry_tasks two_users [(100%N, new_task "file" 10%N 500)].

Definition one_processed_task : database :=
  with_expiry_tasks two_users [(100%N, processed_task "file" 10%N 500 600)].

(** Two history rows for the same file, inserted as processed. *)
Definition two_processed_inserts : list statement :=
  [INSERT_INTO_expiry_tasks 100%N (processed_task "file" 10%N 500 600);
   INSERT_INTO_expiry_tasks 101%N (processed_task "file" 10%N 700 800)].

(** A folder at the root ([parent_id] is [NULL]) with the default flag. *)
Definition root_folder (owner : uuid) (nm : string) : Folders.row :=
  {| Folders.user_id := owner; Folders.parent_id := None;
     Folders.name := nm; Folders.is_deleted := Some false |}.

(** A folder inside folder [parent] with the default flag. *)
Definition sub_folder (owner parent : uuid) (nm : string) : Folders.row :=
  {| Folders.user_id := owner; Folders.parent_id := Some parent;
     Folders.name := nm; Folders.is_deleted := Some false |}.

(** A share link as [INSERT] leaves it when a download limit is given. *)
Definition new_share (file owner : uuid) (tok : string) (limit : option Z)
  : Shares.row :=
  {| Shares.file_id := file; Shares.user_id := owner; Shares.token := tok;
     Shares.expires_at := None; Shares.download_count := Some 0;
     Shares.download_limit := limit; Shares.is_active := Some true |}.

(** [after_upload] with a link to file 10 limited to three downloads. *)
Definition limited_link : database :=
  with_shares after_upload [(50%N, new_share 10%N 1%N "tok" (Some 3))].

(** The link of [limited_link] after [n] downloads were recorded, as the
    download that reaches the limit leaves it. *)
Definition link_after (n : Z) (active : bool) : Shares.row :=
  {| Shares.file_id := 10%N; Shares.user_id := 1%N; Shares.token := "tok";
     Shares.expires_at := None; Shares.download_count := Some n;
     Shares.download_limit := Some 3; Shares.is_active := Some active |}.

(** [limited_link] after three download attempts. *)
Definition three_downloads : database :=
  snd (Downloads.download 50%N
         (snd (Downloads.download 50%N
                 (snd (Downloads.download 50%N limited_link))))).

(** Three pending tasks, stored out of order: two due at 500 (identities 102
    and 100), one due at 400 (identity 101), and one task due at 900. *)
Definition four_tasks : database :=
  with_expiry_tasks two_users
    [(102%N, new_task "file" 12%N 500);
     (101%N, new_task "share" 11%N 400);
     (103%N, new_task "file" 13%N 900);
     (100%N, new_task "file" 10%N 500)].

(** ** Notions for the sweep *)

(** The constraints the sweep relies on: the primary key and the row
    constraints of [files], the constraints of [expiry_tasks], and the type
    of the [storage_used] column. *)
Definition store_consistent (d : database) : Prop :=
  primary_key (files d)
  /\ (forall id r, In (id, r) (files d) -> check_files_row r d = Ok tt)
  /\ tasks_consistent (expiry_tasks d)
  /\ (forall u r v, select u (users d) = Some r ->
        Users.storage_used r = Some v -> in_bigint v = true).

(** File [f] is soft-deleted and task [t] is processed. *)
Definition expired (f t : uuid) (d : database) : Prop :=
  (exists r, select f (files d) = Some r /\ Files.is_deleted r = Some true)
  /\ (exists r, select t (expiry_tasks d) = Some r
                /\ ExpiryTasks.is_processed r = Some true).

(** Sweep cycles run one after the other, each with its own clock reading
    and batch limit. *)
Definition sweep_cycles (cycles : list (timestamptz * nat)) (d : database)
  : database :=
  foldl (fun d' c => Sweeper.sweep_cycle (fst c) (snd c) d') d cycles.

(** No file task fetched at [now] other than the one of file [f] targets a
    file of user [owner]. *)
Definition swept_alone (now : timestamptz) (limit : nat) (f owner : uuid)
    (d : database) : Prop :=
  forall i T' F', In (i, T') (Registry.dueTasks now limit d) ->
    ExpiryTasks.task_type T' = "file" ->
    ExpiryTasks.target_id T' <> f ->
    select (ExpiryTasks.target_id T') (files d) = Some F' ->
    Files.user_id F' <> owner.

(** What every state inside a sweep cycle started on [d] keeps, seen from
    one owner: the keys and constraints, the owner's row, and the owner of
    every file. *)
Definition sweep_frame (owner : uuid) (d dk : database) : Prop :=
  primary_key (files dk)
  /\ tasks_consistent (expiry_tasks dk)
  /\ (forall id r, In (id, r) (files dk) -> 0 < Files.size r)
  /\ has_key owner (users dk) = true
  /\ folders dk = folders d
  /\ (forall g r, select g (files dk) = Some r ->
        exists r0, select g (files d) = Some r0
                   /\ Files.user_id r = Files.user_id r0).

(** The stage of file [f] and task [t] inside a sweep cycle: their rows, and
    how much the owner's exact total has gone down since the cycle began. *)
Definition sweep_stage (now : timestamptz) (limit : nat) (f t owner : uuid)
    (Frow : Files.row) (Trow : ExpiryTasks.row) (delta : Z)
    (d dk : database) : Prop :=
  sweep_frame owner d dk
  /\ select f (files dk) = Some Frow
  /\ select t (expiry_tasks dk) = Some Trow
  /\ live_total owner dk <= live_total owner d - delta
  /\ (swept_alone now limit f owner d ->
      live_total owner dk = live_total owner d - delta).

(** A decision procedure for [store_consistent], for concrete stores. *)
Definition tasks_consistentb (t : table ExpiryTasks.row) : bool :=
  bool_decide (NoDup (map fst t))
  && forallb (fun p => task_type_ok (snd p)) t
  && forallb (fun p => no_collision unique_unprocessed_task (fst p) (snd p) t) t.

(** The same for the whole store. *)
Definition store_consistentb (d : database) : bool :=
  bool_decide (NoDup (map fst (files d)))
  && forallb (fun p => match check_files_row (snd p) d with
                       | Ok _ => true
                       | Err _ => false
                       end) (files d)
  && tasks_consistentb (expiry_tasks d)
  && forallb (fun p => match Users.storage_used (snd p) with
                       | Some v => in_bigint v
                       | None => true
                       end) (users d).

(** The scenario of the spec: file 10 of user 1, 1000 bytes, expiring at
    instant 500, with its pending task. *)
Definition file_A_expiring : database :=
  {| users := [(1%N, {| Users.storage_used := Some 1000;
                        Users.storage_limit := Some 5368709120 |});
               (2%N, new_user)];
     folders := [];
     files := [(10%N, new_file 1%N 1000 (Some 500))];
     shares := [];
     expiry_tasks := [(100%N, new_task "file" 10%N 500)] |}.

(** Two files of two users, due at 400 and 500, each with its pending task. *)
Definition two_files_due : database :=
  {| users := [(1%N, {| Users.storage_used := Some 1000;
                        Users.storage_limit := Some 5368709120 |});
               (2%N, {| Users.storage_used := Some 2000;
                        Users.storage_limit := Some 5368709120 |})];
     folders := [];
     files := [(10%N, new_file 1%N 1000 (Some 400));
               (11%N, new_file 2%N 2000 (Some 500))];
     shares := [];
     expiry_tasks := [(100%N, new_task "file" 10%N 400);
                      (101%N, new_task "file" 11%N 500)] |}.

(** Two files of user 1, both due, each with its pending task. *)
Definition two_files_one_owner : database :=
  {| users := [(1%N, {| Users.storage_used := Some 1500;
                        Users.storage_limit := Some 5368709120 |});
               (2%N, new_user)];
     folders := [];
     files := [(10%N, new_file 1%N 1000 (Some 400));
               (12%N, new_file 1%N 500 (Some 500))];
     shares := [];
     expiry_tasks := [(100%N, new_task "file" 10%N 400);
                      (102%N, new_task "file" 12%N 500)] |}.

(** File 10 with a pending task and a processed task of an earlier
    expiration of the same file. *)
Definition file_with_history : database :=
  {| users := [(1%N, {| Users.storage_used := Some 1000;
                        Users.storage_limit := Some 5368709120 |});
               (2%N, new_user)];
     folders := [];
     files := [(10%N, new_file 1%N 1000 (Some 400))];
     shares := [];
     expiry_tasks := [(99%N, processed_task "file" 10%N 100 150);
                      (100%N, new_task "file" 10%N 400)] |}.

(** ** Notions for the accounting invariant *)

(** Every user with a row has an exact aggregate. *)
Definition all_exact (d : database) : Prop :=
  forall u, has_key u (users d) = true -> storage_exact u d.

(** The statement does not hand a file to another user. *)
Definition keeps_owner (st : statement) (d : database) : Prop :=
  match st with
  | UPDATE_files id set =>
      forall OLD, select id (files d) = Some OLD ->
                  Files.user_id (set OLD) = Files.user_id OLD
  | _ => True
  end.

(** * Further notions: the rest of the migration and of the client *)

(** ** More about the store *)

(** A statement that never assigns [user_id]. *)
Definition owner_preserving (st : statement) : Prop :=
  match st with
  | UPDATE_files _ set => forall r, Files.user_id (set r) = Files.user_id r
  | _ => True
  end.

(** [SET is_deleted = b]. *)
Definition set_is_deleted (b : option bool) (r : Files.row) : Files.row :=
  {| Files.user_id := Files.user_id r;
     Files.folder_id := Files.folder_id r;
     Files.size := Files.size r;
     Files.is_deleted := b;
     Files.expires_at := Files.expires_at r |}.

(** The statements that fill [two_users] up to the stores of the sweep
    scenarios. *)
Definition file_A_expiring_script : list statement :=
  [INSERT_INTO_files 10%N (new_file 1%N 1000 (Some 500));
   INSERT_INTO_expiry_tasks 100%N (new_task "file" 10%N 500)].

Definition two_files_due_script : list statement :=
  [INSERT_INTO_files 10%N (new_file 1%N 1000 (Some 400));
   INSERT_INTO_files 11%N (new_file 2%N 2000 (Some 500));
   INSERT_INTO_expiry_tasks 100%N (new_task "file" 10%N 400);
   INSERT_INTO_expiry_tasks 101%N (new_task "file" 11%N 500)].

Definition two_files_one_owner_script : list statement :=
  [INSERT_INTO_files 10%N (new_file 1%N 1000 (Some 400));
   INSERT_INTO_files 12%N (new_file 1%N 500 (Some 500));
   INSERT_INTO_expiry_tasks 100%N (new_task "file" 10%N 400);
   INSERT_INTO_expiry_tasks 102%N (new_task "file" 12%N 500)].

Definition file_with_history_script : list statement :=
  [INSERT_INTO_files 10%N (new_file 1%N 1000 (Some 400));
   INSERT_INTO_expiry_tasks 99%N (processed_task "file" 10%N 100 150);
   INSERT_INTO_expiry_tasks 100%N (new_task "file" 10%N 400)].

(** File 10 is due at 400, but its owner has soft-deleted it already. *)
Definition already_deleted_script : list statement :=
  [INSERT_INTO_files 10%N (new_file 1%N 1000 (Some 400));
   UPDATE_files 10%N (set_is_deleted (Some true));
   INSERT_INTO_expiry_tasks 100%N (new_task "file" 10%N 400)].

Definition already_deleted : database :=
  {| users := [(1%N, new_user); (2%N, new_user)];
     folders := [];
     files := [(10%N, set_is_deleted (Some true)
                        (new_file 1%N 1000 (Some 400)))];
     shares := [];
     expiry_tasks := [(100%N, new_task "file" 10%N 400)] |}.

(** File 12 of user 1 is due at 400; user 1 has handed file 10 to user 2,
    which left the aggregate of user 1 at 1500 over an exact sum of 500. *)
Definition stale_owner_script : list statement :=
  [INSERT_INTO_files 12%N (new_file 1%N 500 (Some 400));
   INSERT_INTO_files 10%N (new_file 1%N 1000 None);
   UPDATE_files 10%N (set_owner 2%N);
   INSERT_INTO_expiry_tasks 102%N (new_task "file" 12%N 400)].

Definition stale_owner : database :=
  {| users := [(1%N, {| Users.storage_used := Some 1500;
                        Users.storage_limit := Some 5368709120 |});
               (2%N, {| Users.storage_used := Some 1000;
                        Users.storage_limit := Some 5368709120 |})];
     folders := [];
     files := [(12%N, new_file 1%N 500 (Some 400));
               (10%N, new_file 2%N 1000 None)];
     shares := [];
     expiry_tasks := [(102%N, new_task "file" 12%N 400)] |}.

(** [SET size = z]. *)
Definition set_size (z : Z) (r : Files.row) : Files.row :=
  {| Files.user_id := Files.user_id r;
     Files.folder_id := Files.folder_id r;
     Files.size := z;
     Files.is_deleted := Files.is_deleted r;
     Files.expires_at := Files.expires_at r |}.

(** A file uploaded, soft-deleted, restored, resized and removed. *)
Definition life_of_a_file : list statement :=
  [INSERT_INTO_files 10%N (new_file 1%N 1000 None);
   UPDATE_files 10%N (set_is_deleted (Some true));
   UPDATE_files 10%N (set_is_deleted (Some false));
   UPDATE_files 10%N (set_size 2500);
   DELETE_FROM_files 10%N].

(** The foreign key [shares.file_id REFERENCES files(id)] holds. *)
Definition shares_reference_files (d : database) : Prop :=
  forall i s, In (i, s) (shares d) -> has_key (Shares.file_id s) (files d) = true.

(** The storage limit of user [u], as stored. *)
Definition storage_limit_of (u : uuid) (d : database) : option (option Z) :=
  Users.storage_limit <$> select u (users d).

(** What [token VARCHAR(32) UNIQUE NOT NULL] and the primary key make of
    [shares]. *)
Definition shares_consistent (t : table Shares.row) : Prop :=
  primary_key t
  /\ forall i j s s', In (i, s) t -> In (j, s') t ->
       Shares.token s = Shares.token s' -> i = j.

(** What [unique_folder_name_per_parent] and the primary key make of
    [folders]. *)
Definition folders_consistent (t : table Folders.row) : Prop :=
  primary_key t
  /\ forall i j r r', In (i, r) t -> In (j, r') t ->
       unique_folder_name_per_parent r r' = true -> i = j.

(** A store with one live file of user 1 that fills the [BIGINT] range. *)
Definition full_store : database :=
  {| users := [(1%N, {| Users.storage_used := Some bigint_max;
                        Users.storage_limit := Some 5368709120 |})];
     folders := [];
     files := [(10%N, new_file 1%N bigint_max None)];
     shares := []; expiry_tasks := [] |}.

(** [after_upload] with a share link on file 10. *)
Definition shared_upload : database :=
  with_shares after_upload [(50%N, new_share 10%N 1%N "tok" None)].

(** [SET is_processed = b, processed_at = at_]. *)
Definition set_is_processed (b : option bool) (at_ : option timestamptz)
    (r : ExpiryTasks.row) : ExpiryTasks.row :=
  {| ExpiryTasks.task_type := ExpiryTasks.task_type r;
     ExpiryTasks.target_id := ExpiryTasks.target_id r;
     ExpiryTasks.expires_at := ExpiryTasks.expires_at r;
     ExpiryTasks.is_processed := b;
     ExpiryTasks.processed_at := at_ |}.

(** [two_users] with two folders of user 1: "docs" at the root and "a"
    inside it. *)
Definition nested_folders : database :=
  with_folders two_users
    [(20%N, root_folder 1%N "docs"); (21%N, sub_folder 1%N 20%N "a")].

(** Folder rows that agree on owner, non-[NULL] parent, name and non-[NULL]
    flag are one row. *)
Definition folder_names_unique_below_root (d : database) : Prop :=
  forall i j r r' p b,
    In (i, r) (folders d) -> In (j, r') (folders d) ->
    Folders.user_id r = Folders.user_id r' ->
    Folders.name r = Folders.name r' ->
    Folders.parent_id r = Some p -> Folders.parent_id r' = Some p ->
    Folders.is_deleted r = Some b -> Folders.is_deleted r' = Some b ->
    i = j.

(** Every persisted aggregate lies between zero and the largest [BIGINT]. *)
Definition storage_used_in_range (d : database) : Prop :=
  forall u v, storage_used_of u d = Some (Some v) -> 0 <= v <= bigint_max.

(** ** The history of the request cache *)

Section RequestHistory.
Context `{J : Api.JSON}.
Import Api.

(** The second fetch was issued at least a cache duration after the first. *)
Definition apart (r1 r2 : request) : Prop :=
  req_time r1 + CACHE_DURATION <= req_time r2.

(** Any two fetches issued for key [k] lie at least a cache duration apart. *)
Definition fetches_spaced (k : string) (c : client) : Prop :=
  forall i j r1 r2, (i < j)%nat ->
    fetches_for k c !! i = Some r1 -> fetches_for k c !! j = Some r2 ->
    apart r1 r2.

(** What stands behind the entry of key [k]: a cached promise is the one of
    the latest fetch issued for [k], and the timer that will delete the entry
    is pending, due a cache duration after that fetch; a key that is not
    cached has no timer pending. *)
Definition cache_entry_backed (k : string) (c : client) : Prop :=
  match requestCache c !! k with
  | Some p =>
      exists r, last (fetches_for k c) = Some r
                /\ req_promise r = p
                /\ req_time r <= clock c
                /\ (req_time r + CACHE_DURATION, k) ∈ timers c
  | None => forall due, (due, k) ∉ timers c
  end.

(** The invariant of the cache over the fetches issued so far. *)
Definition cache_history (c : client) : Prop :=
  cache_timers_agree c
  /\ (forall k p, requestCache c !! k = Some p ->
        exists l r, fetches_for k c = l ++ [r]
                    /\ req_promise r = p
                    /\ (req_time r + CACHE_DURATION, k) ∈ timers c)
  /\ (forall k, requestCache c !! k = None ->
        forall r, r ∈ fetches_for k c -> req_time r + CACHE_DURATION <= clock c)
  /\ (forall r, r ∈ network c -> req_time r <= clock c)
  /\ (forall k, StronglySorted apart (fetches_for k c)).

End RequestHistory.

(** The storage statistics read on a fresh page, then again once its cache
    entry has been deleted by the timer, five seconds later. *)
Definition storage_stats_twice : Api.client (H := Api.empty_bodies) :=
  fst (Api.apiRequest "/users/storage" Api.storage_stats_config
    (Api.fire 0 (Api.getCacheKey "/users/storage" Api.storage_stats_config)
      (Api.elapse 5000
        (fst (Api.apiRequest "/users/storage" Api.storage_stats_config
                (Api.loaded 0)))))).

(** * The client's route table ([App.tsx]) *)

Module App.

(** The page components the routes render. *)
Inductive page : Set := LoginPage | RegisterPage | DashboardPage.

(** What a route's [element] is: a page, or [<Navigate to=... replace />]. *)
Inductive element : Set :=
  | Page (p : page)
  | Navigate (to : string).

(** The [<Route>]s of [<Routes>], in the order of the source. *)
Inductive route : Set :=
  | login | register
  | dashboard | files | upload | shares | settings
  | root | not_found.

(** The [path] attribute of a route. *)
Definition path (r : route) : string :=
  match r with
  | login => "/login"
  | register => "/register"
  | dashboard => "/dashboard"
  | files => "/files"
  | upload => "/upload"
  | shares => "/shares"
  | settings => "/settings"
  | root => "/"
  | not_found => "*"
  end.

Definition routes : list route :=
  [login; register; dashboard; files; upload; shares; settings; root; not_found].

(** The [element] attribute of a route, for the [isAuthenticated] of the
    store. *)
Definition element_of (isAuthenticated : bool) (r : route) : element :=
  match r with
  | login =>
      if negb isAuthenticated then Page LoginPage else Navigate "/dashboard"
  | register =>
      if negb isAuthenticated then Page RegisterPage else Navigate "/dashboard"
  | dashboard | files | upload | shares | settings =>
      if isAuthenticated then Page DashboardPage else Navigate "/login"
  | root | not_found =>
      Navigate (if isAuthenticated then "/dashboard" else "/login")
  end.

(** The route a location matches when it is spelled as a route's [path]:
    that route, and the catch-all otherwise.  Every [Navigate] of the table
    names its target in this way. *)
Definition route_of (location : string) : route :=
  match List.find (fun r => String.eqb (path r) location) routes with
  | Some r => r
  | None => not_found
  end.

(** What the user ends up seeing on route [r], following at most [redirects]
    navigations; [None] when yet another navigation is pending. *)
Fixpoint shown (redirects : nat) (isAuthenticated : bool) (r : route)
  : option page :=
  match element_of isAuthenticated r with
  | Page p => Some p
  | Navigate to =>
      match redirects with
      | O => None
      | S n => shown n isAuthenticated (route_of to)
      end
  end.

(** What [App] renders: the spinner while the store is loading, the routes
    otherwise. *)
Inductive view : Set :=
  | Spinner
  | Routes (e : element).

Definition App (isLoading isAuthenticated : bool) (r : route) : view :=
  if isLoading then Spinner else Routes (element_of isAuthenticated r).

End App.

(** * The statistics views *)

Module Views.

(** The value of [ROUND((used::DECIMAL / limit::DECIMAL) * 100, 2)], kept as
    the operands of its division. *)
Record percentage : Set := { dividend : Z; divisor : Z }.

(** A query returns, or the division of a row raises [division_by_zero] and
    the query with it. *)
Inductive outcome (A : Type) : Type :=
  | Rows (a : A)
  | division_by_zero.
Arguments Rows {A} a.
Arguments division_by_zero {A}.

(** All the rows, unless the evaluation of one raised. *)
Fixpoint all_rows {A} (l : list (outcome A)) : outcome (list A) :=
  match l with
  | [] => Rows []
  | division_by_zero :: _ => division_by_zero
  | Rows a :: l =>
      match all_rows l with
      | Rows rows => Rows (a :: rows)
      | division_by_zero => division_by_zero
      end
  end.

(** [GROUP BY key]: one group per value of the key among the rows. *)
Definition group_by {A K} `{EqDecision K} (key : A -> K) (rows : list A)
  : list (K * list A) :=
  map (fun k => (k, List.filter (fun r => bool_decide (key r = k)) rows))
      (remove_dups (map key rows)).

(** [COUNT(x)]: the rows in which [x] is not [NULL]. *)
Definition COUNT {A} (l : list (option A)) : Z :=
  Z.of_nat (length (omap id l)).

#[global] Instance users_row_eq_dec : EqDecision Users.row.
Proof. solve_decision. Defined.

(** A row of [users u LEFT JOIN files f]: the user, and the file or the
    [NULL]s that stand for it. *)
Definition joined_row : Type := (uuid * Users.row) * option (uuid * Files.row).

(** [FROM users u LEFT JOIN files f
     ON u.id = f.user_id AND f.is_deleted = false]: a user no file matches is
    kept, once, with [NULL] in the columns of [f]. *)
Definition left_join (d : database) : list joined_row :=
  flat_map
    (fun u =>
       match List.filter (live_file_of (fst u)) (files d) with
       | [] => [(u, None)]
       | fs => map (fun f => (u, Some f)) fs
       end)
    (users d).

(** The quotient column: [NULL] when an operand is [NULL], an error when the
    limit is zero. *)
Definition usage_percentage_of (u : Users.row) : outcome (option percentage) :=
  match Users.storage_used u, Users.storage_limit u with
  | Some used, Some limit =>
      if limit =? 0 then division_by_zero
      else Rows (Some {| dividend := used; divisor := limit |})
  | _, _ => Rows None
  end.

Module UserFileStats.
Record row : Set := {
  user_id : uuid;
  total_files : Z;                         (* COUNT(f.id) *)
  total_size : Z;                          (* COALESCE(SUM(f.size), 0) *)
  storage_used : option Z;
  storage_limit : option Z;
  usage_percentage : option percentage
}.
End UserFileStats.

(** The row of one group of [user_file_stats]. *)
Definition user_file_stats_row (g : (uuid * Users.row) * list joined_row)
  : outcome UserFileStats.row :=
  match usage_percentage_of (snd (fst g)) with
  | Rows pct =>
      Rows {| UserFileStats.user_id := fst (fst g);
              UserFileStats.total_files :=
                COUNT (map (fun j => fst <$> snd j) (snd g));
              UserFileStats.total_size :=
                COALESCE
                  (SUM (omap (fun j => (fun f => Files.size (snd f)) <$> snd j)
                          (snd g))) 0;
              UserFileStats.storage_used := Users.storage_used (snd (fst g));
              UserFileStats.storage_limit := Users.storage_limit (snd (fst g));
              UserFileStats.usage_percentage := pct |}
  | division_by_zero => division_by_zero
  end.

(** The view [user_file_stats], over the columns of [users] the store keeps:
    grouped by the user's row. *)
Definition user_file_stats (d : database) : outcome (list UserFileStats.row) :=
  all_rows (map user_file_stats_row (group_by fst (left_join d))).

(** The [CASE] of [file_type_stats]: [LIKE 'x/%'] holds of the strings that
    start with [x/]; no [WHEN] holds of [NULL]. *)
Definition file_type (mime_type : option string) : string :=
  match mime_type with
  | None => "other"
  | Some m =>
      if String.prefix "image/" m then "image"
      else if String.prefix "video/" m then "video"
      else if String.prefix "audio/" m then "audio"
      else if bool_decide
                (m ∈ ["application/pdf"; "application/msword";
                      "application/vnd.openxmlformats-officedocument.wordprocessingml.document"])
           then "document"
      else if String.prefix "text/" m then "text"
      else "other"
  end.

Module FileTypeStats.
Record row : Set := {
  user_id : uuid;
  file_type : string;
  file_count : Z;                          (* COUNT( * ) *)
  total_size : option Z                    (* SUM(size) *)
}.
End FileTypeStats.

(** The view [file_type_stats].  The column [mime_type VARCHAR(100)] of
    [files] is given beside the rows, by file. *)
Definition file_type_stats (mime_type : uuid -> option string) (d : database)
  : list FileTypeStats.row :=
  map (fun g =>
         {| FileTypeStats.user_id := fst (fst g);
            FileTypeStats.file_type := snd (fst g);
            FileTypeStats.file_count := Z.of_nat (length (snd g));
            FileTypeStats.total_size :=
              SUM (map (fun f => Files.size (snd f)) (snd g)) |})
      (group_by
         (fun f => (Files.user_id (snd f), file_type (mime_type (fst f))))
         (List.filter
            (fun f => bool_decide (Files.is_deleted (snd f) = Some false))
            (files d))).

(** The rows of [file_type_stats] of one user. *)
Definition of_user (u : uuid) (rows : list FileTypeStats.row)
  : list FileTypeStats.row :=
  List.filter (fun r => N.eqb (FileTypeStats.user_id r) u) rows.

(** The six values of the [file_type] column. *)
Definition file_types : list string :=
  ["image"; "video"; "audio"; "document"; "text"; "other"].

(** What the two views say of the user of one row of [user_file_stats]:
    the file types of the user add up to the user's totals. *)
Definition views_agree (mime_type : uuid -> option string) (d : database)
    (row : UserFileStats.row) : Prop :=
  let types := of_user (UserFileStats.user_id row) (file_type_stats mime_type d) in
  UserFileStats.total_files row
  = foldr Z.add 0 (map FileTypeStats.file_count types)
  /\ UserFileStats.total_size row
     = foldr Z.add 0 (map (fun r => COALESCE (FileTypeStats.total_size r) 0) types).

(** What [user_file_stats] reports of user [id] with row [u]. *)
Definition reported (d : database) (id : uuid) (u : Users.row)
    (row : UserFileStats.row) : Prop :=
  UserFileStats.user_id row = id
  /\ UserFileStats.total_files row = Z.of_nat (length (live_sizes id d))
  /\ UserFileStats.total_size row = live_total id d
  /\ UserFileStats.storage_used row = Users.storage_used u
  /\ UserFileStats.storage_limit row = Users.storage_limit u.

(** No [WHEN] of the [CASE] holds of [mime_type]: it is [NULL], or it starts
    with none of [image/], [video/], [audio/] and [text/] and is none of the
    three document types. *)
Definition unmatched (mime_type : option string) : Prop :=
  match mime_type with
  | None => True
  | Some m =>
      (forall pre rest, In pre ["image/"; "video/"; "audio/"; "text/"] ->
                        m <> String.append pre rest)
      /\ ~ In m ["application/pdf"; "application/msword";
                 "application/vnd.openxmlformats-officedocument.wordprocessingml.document"]
  end.

(** A file that is not deleted and whose [mime_type] no [WHEN] matches is
    counted in the row of type [other] of its owner. *)
Definition counted_under_other (mime_type : uuid -> option string)
    (d : database) : Prop :=
  forall f r, In (f, r) (files d) ->
    Files.is_deleted r = Some false ->
    unmatched (mime_type f) ->
    exists row, In row (file_type_stats mime_type d)
                /\ FileTypeStats.user_id row = Files.user_id r
                /\ FileTypeStats.file_type row = "other"
                /\ 1 <= FileTypeStats.file_count row.

(** The quotient column of the row of a user: [NULL] when [storage_used] or
    [storage_limit] is [NULL], their quotient otherwise. *)
Definition percentage_of (u : Users.row) : option percentage :=
  match Users.storage_used u, Users.storage_limit u with
  | Some used, Some limit => Some {| dividend := used; divisor := limit |}
  | _, _ => None
  end.

End Views.

(** User 1 with a picture, a document without a type and a deleted video;
    user 2 without files. *)
Definition typed_files : database :=
  {| users := [(1%N, {| Users.storage_used := Some 1500;
                        Users.storage_limit := Some 5368709120 |});
               (2%N, new_user)];
     folders := [];
     files := [(10%N, new_file 1%N 1000 None);
               (11%N, new_file 1%N 500 None);
               (12%N, set_is_deleted (Some true) (new_file 1%N 7000 None))];
     shares := []; expiry_tasks := [] |}.

Definition typed_files_mime_type (f : uuid) : option string :=
  if N.eqb f 10 then Some "image/png"
  else if N.eqb f 12 then Some "video/mp4"
  else None.

(** A user whose limit was set to zero. *)
Definition zero_limit : database :=
  with_users two_users
    [(1%N, new_user);
     (2%N, {| Users.storage_used := Some 0; Users.storage_limit := Some 0 |})].

(** A user without a limit. *)
Definition null_limit : database :=
  with_users two_users
    [(1%N, new_user);
     (2%N, {| Users.storage_used := Some 700; Users.storage_limit := None |})].

(** What [user_file_stats] returns on [typed_files]. *)
Definition typed_files_stats : list Views.UserFileStats.row :=
  [{| Views.UserFileStats.user_id := 1%N;
      Views.UserFileStats.total_files := 2;
      Views.UserFileStats.total_size := 1500;
      Views.UserFileStats.storage_used := Some 1500;
      Views.UserFileStats.storage_limit := Some 5368709120;
      Views.UserFileStats.usage_percentage :=
        Some {| Views.dividend := 1500; Views.divisor := 5368709120 |} |};
   {| Views.UserFileStats.user_id := 2%N;
      Views.UserFileStats.total_files := 0;
      Views.UserFileStats.total_size := 0;
      Views.UserFileStats.storage_used := Some 0;
      Views.UserFileStats.storage_limit := Some 5368709120;
      Views.UserFileStats.usage_percentage :=
        Some {| Views.dividend := 0; Views.divisor := 5368709120 |} |}].

(** * Deleting a folder: the referential actions on [folders] and [files] *)

(** [SET folder_id = f]. *)
Definition set_folder_id (f : option uuid) (r : Files.row) : Files.row :=
  {| Files.user_id := Files.user_id r;
     Files.folder_id := f;
     Files.size := Files.size r;
     Files.is_deleted := Files.is_deleted r;
     Files.expires_at := Files.expires_at r |}.

Section ForEach.
Context {A : Type} (statement_of : A -> database -> result database).

(** One statement for each element, in order; the first error aborts. *)
Fixpoint for_each (l : list A) (d : database) : result database :=
  match l with
  | [] => Ok d
  | x :: l => d' ← statement_of x d; for_each l d'
  end.

End ForEach.

(** The rows [folder_id UUID REFERENCES folders(id) ON DELETE SET NULL] acts
    on when folder [id] goes: the files in the folder. *)
Definition files_of_folder (id : uuid) (d : database) : list uuid :=
  map fst
    (List.filter (fun p => bool_decide (Files.folder_id (snd p) = Some id))
       (files d)).

(** The rows [parent_id UUID REFERENCES folders(id) ON DELETE CASCADE] acts
    on when folder [id] goes: its sub-folders. *)
Definition sub_folders (id : uuid) (d : database) : list uuid :=
  map fst
    (List.filter (fun p => bool_decide (Folders.parent_id (snd p) = Some id))
       (folders d)).

(** The referential action [ON DELETE SET NULL] on file [f]:
    [UPDATE files SET folder_id = NULL], which fires the row trigger of
    [files].  The other columns are not assigned, so their foreign keys are
    not checked again. *)
Definition set_null_folder_id (f : uuid) (d : database) : result database :=
  match select f (files d) with
  | None => Ok d
  | Some OLD =>
      let NEW := set_folder_id None OLD in
      update_user_storage_usage (TG_UPDATE OLD NEW)
        (with_files d (replace_row f NEW (files d)))
  end.

(** The deletion of the row of folder [id] with its referential actions:
    the files of the folder are updated to [folder_id = NULL], each update
    firing the row trigger of [files], and the sub-folders are deleted in
    the same way.  [depth] bounds the nesting of the cascade; a table of [n]
    folders nests it at most [n] deep. *)
Fixpoint delete_folder (depth : nat) (id : uuid) (d : database)
  : result database :=
  match depth with
  | O => Ok d
  | S n =>
      if has_key id (folders d) then
        let d1 := with_folders d (remove_row id (folders d)) in
        d2 ← for_each set_null_folder_id (files_of_folder id d1) d1;
        for_each (delete_folder n) (sub_folders id d2) d2
      else Ok d
  end.

(** [DELETE FROM folders WHERE id = id]. *)
Definition delete_from_folders (id : uuid) (d : database) : result database :=
  delete_folder (length (folders d)) id d.

(** What the deletion of a folder leaves alone, from [d] to [d']: folders
    only go; every file stays, as it was or with [folder_id] set to [NULL];
    shares and tasks are as they were; the exact total and the limit of every
    user are as they were, and the aggregate of a user is as it was or has
    been recomputed. *)
Definition folder_delete_frame (d d' : database) : Prop :=
  (forall c, select c (folders d') = select c (folders d)
             \/ select c (folders d') = None)
  /\ (length (folders d') <= length (folders d))%nat
  /\ map fst (files d') = map fst (files d)
  /\ (forall f, select f (files d') = select f (files d)
                \/ select f (files d')
                   = set_folder_id None <$> select f (files d))
  /\ shares d' = shares d
  /\ expiry_tasks d' = expiry_tasks d
  /\ (forall u, live_total u d' = live_total u d
                /\ storage_limit_of u d' = storage_limit_of u d
                /\ (storage_used_of u d' = storage_used_of u d
                    \/ storage_exact u d')).

(** Every folder a file or a folder refers to exists, or is one of [P]. *)
Definition references_within (P : uuid -> Prop) (d : database) : Prop :=
  (forall f r x, select f (files d) = Some r -> Files.folder_id r = Some x ->
                 has_key x (folders d) = true \/ P x)
  /\ (forall c r x, select c (folders d) = Some r ->
                    Folders.parent_id r = Some x ->
                    has_key x (folders d) = true \/ P x).

(** The foreign keys into [folders] hold: every [folder_id] of a file and
    every [parent_id] of a folder that is not [NULL] names a folder. *)
Definition folder_references_hold (d : database) : Prop :=
  (forall f r x, In (f, r) (files d) -> Files.folder_id r = Some x ->
                 has_key x (folders d) = true)
  /\ (forall c r x, In (c, r) (folders d) -> Folders.parent_id r = Some x ->
                    has_key x (folders d) = true).

(** Folder 20 with sub-folder 21 and its sub-folder 22, beside folder 23;
    a file of user 1 in folder 21, a file of user 2 in folder 22, and a file
    of user 1 in folder 23.  The aggregate of user 2 is stale. *)
Definition folder_tree : database :=
  {| users := [(1%N, {| Users.storage_used := Some 1500;
                        Users.storage_limit := Some 5368709120 |});
               (2%N, {| Users.storage_used := Some 0;
                        Users.storage_limit := Some 5368709120 |})];
     folders := [(20%N, root_folder 1%N "docs");
                 (21%N, sub_folder 1%N 20%N "a");
                 (22%N, sub_folder 1%N 21%N "b");
                 (23%N, root_folder 1%N "music")];
     files := [(10%N, set_folder_id (Some 21%N) (new_file 1%N 1000 None));
               (11%N, set_folder_id (Some 22%N) (new_file 2%N 700 None));
               (12%N, set_folder_id (Some 23%N) (new_file 1%N 500 None))];
     shares := []; expiry_tasks := [] |}.

(** [folder_tree] after the deletion of folder 20. *)
Definition folder_tree_deleted : database :=
  {| users := [(1%N, {| Users.storage_used := Some 1500;
                        Users.storage_limit := Some 5368709120 |});
               (2%N, {| Users.storage_used := Some 700;
                        Users.storage_limit := Some 5368709120 |})];
     folders := [(23%N, root_folder 1%N "music")];
     files := [(10%N, new_file 1%N 1000 None);
               (11%N, new_file 2%N 700 None);
               (12%N, set_folder_id (Some 23%N) (new_file 1%N 500 None))];
     shares := []; expiry_tasks := [] |}.

(** * Deleting a user: the referential actions on [folders], [files] and
    [shares] *)

(** The folders [user_id UUID REFERENCES users(id) ON DELETE CASCADE] of
    [folders] acts on. *)
Definition folders_of_user (u : uuid) (d : database) : list uuid :=
  map fst (List.filter (fun p => N.eqb (Folders.user_id (snd p)) u) (folders d)).

(** The rows [user_id UUID REFERENCES users(id) ON DELETE CASCADE] of
    [files] acts on. *)
Definition files_of_user (u : uuid) (d : database) : table Files.row :=
  List.filter (fun p => N.eqb (Files.user_id (snd p)) u) (files d).

(** [DELETE FROM files WHERE user_id = u], the referential action on the
    files of user [u]: the rows go together, the shares of each go with it,
    and then the row trigger of [files] runs for each deleted row. *)
Definition delete_files_of_user (u : uuid) (d : database) : result database :=
  let OLDs := files_of_user u d in
  for_each (fun OLD => update_user_storage_usage (TG_DELETE (snd OLD))) OLDs
    (with_shares
       (with_files d
          (List.filter (fun p => negb (N.eqb (Files.user_id (snd p)) u)) (files d)))
       (List.filter
          (fun p => negb (has_key (Shares.file_id (snd p)) OLDs)) (shares d))).

(** [DELETE FROM users WHERE id = u]: the row goes, and the referential
    actions run on the tables that reference [users], in the order of their
    creation: the folders of the user are deleted, each with its own
    actions, then the files of the user, then the shares the user made. *)
Definition delete_from_users (u : uuid) (d : database) : result database :=
  if has_key u (users d) then
    let d1 := with_users d (remove_row u (users d)) in
    d2 ← for_each delete_from_folders (folders_of_user u d1) d1;
    d3 ← delete_files_of_user u d2;
    Ok (with_shares d3
          (List.filter (fun p => negb (N.eqb (Shares.user_id (snd p)) u))
             (shares d3)))
  else Ok d.

(** The foreign keys of the store hold: every file, folder and share names
    an existing user, every share an existing file, and the references to
    folders hold. *)
Definition store_references_hold (d : database) : Prop :=
  (forall f r, In (f, r) (files d) ->
               has_key (Files.user_id r) (users d) = true)
  /\ (forall c r, In (c, r) (folders d) ->
                  has_key (Folders.user_id r) (users d) = true)
  /\ (forall s r, In (s, r) (shares d) ->
                  has_key (Shares.user_id r) (users d) = true
                  /\ has_key (Shares.file_id r) (files d) = true)
  /\ folder_references_hold d.

(** Nothing of user [u] is in the store. *)
Definition user_gone (u : uuid) (d : database) : Prop :=
  has_key u (users d) = false
  /\ (forall f r, In (f, r) (files d) -> Files.user_id r <> u)
  /\ (forall c r, In (c, r) (folders d) -> Folders.user_id r <> u)
  /\ (forall s r, In (s, r) (shares d) -> Shares.user_id r <> u).

(** Folder [c] is folder [a] or lies under it: the chain of [parent_id]
    from [c] reaches [a]. *)
Inductive descends (d : database) : uuid -> uuid -> Prop :=
  | descends_self a : descends d a a
  | descends_step c r p a :
      select c (folders d) = Some r -> Folders.parent_id r = Some p ->
      descends d p a -> descends d c a.

(** What the deletion of user [u] leaves to the others, and what it takes
    from them, from [d] to [d']: every other user is there with the same
    limit and the same exact total, the aggregate as it was or recomputed;
    a folder is there as it was, or is gone, and then it is a folder of [u]
    or lies under one, whoever owns it; every file of another user is there,
    as it was or with [folder_id] set to [NULL]; a share another user made
    of a file of another user is there; the tasks are as they were. *)
Definition user_delete_frame (u : uuid) (d d' : database) : Prop :=
  (forall w, w <> u ->
             live_total w d' = live_total w d
             /\ storage_limit_of w d' = storage_limit_of w d
             /\ (storage_used_of w d' = storage_used_of w d
                 \/ storage_exact w d'))
  /\ (forall c r, select c (folders d) = Some r ->
                  select c (folders d') = Some r
                  \/ (select c (folders d') = None
                      /\ exists a ra, select a (folders d) = Some ra
                                      /\ Folders.user_id ra = u
                                      /\ descends d c a))
  /\ (forall f r, select f (files d) = Some r -> Files.user_id r <> u ->
                  select f (files d') = Some r
                  \/ select f (files d') = Some (set_folder_id None r))
  /\ (forall s r OLD, In (s, r) (shares d) -> Shares.user_id r <> u ->
                      select (Shares.file_id r) (files d) = Some OLD ->
                      Files.user_id OLD <> u ->
                      In (s, r) (shares d'))
  /\ expiry_tasks d' = expiry_tasks d.

(** User 1 with the folders 20 and 21, a file in folder 21 and a share of a
    file of user 2; user 2 with a file in folder 21 of user 1, a file in no
    folder, a share of the file of user 1 and a share of the own file.  The
    aggregate of user 2 is stale, and a task waits for the file of user 1. *)
Definition shared_folders : database :=
  {| users := [(1%N, {| Users.storage_used := Some 1000;
                        Users.storage_limit := Some 5368709120 |});
               (2%N, {| Users.storage_used := Some 0;
                        Users.storage_limit := Some 5368709120 |})];
     folders := [(20%N, root_folder 1%N "docs");
                 (21%N, sub_folder 1%N 20%N "a")];
     files := [(10%N, set_folder_id (Some 21%N) (new_file 1%N 1000 None));
               (11%N, set_folder_id (Some 21%N) (new_file 2%N 700 None));
               (12%N, new_file 2%N 500 None)];
     shares := [(50%N, new_share 10%N 2%N "t50" None);
                (51%N, new_share 12%N 1%N "t51" None);
                (52%N, new_share 12%N 2%N "t52" None)];
     expiry_tasks := [(100%N, new_task "file" 10%N 400)] |}.

(** [shared_folders] after the deletion of user 1. *)
Definition shared_folders_without_user_1 : database :=
  {| users := [(2%N, {| Users.storage_used := Some 1200;
                        Users.storage_limit := Some 5368709120 |})];
     folders := [];
     files := [(11%N, new_file 2%N 700 None);
               (12%N, new_file 2%N 500 None)];
     shares := [(52%N, new_share 12%N 2%N "t52" None)];
     expiry_tasks := [(100%N, new_task "file" 10%N 400)] |}.

(** Folder 20 of user 1 with folder 21 of user 2 inside it, which holds a
    file of user 2; folder 22 of user 2 at the root. *)
Definition guest_folder : database :=
  {| users := [(1%N, new_user);
               (2%N, {| Users.storage_used := Some 700;
                        Users.storage_limit := Some 5368709120 |})];
     folders := [(20%N, root_folder 1%N "docs");
                 (21%N, sub_folder 2%N 20%N "guest");
                 (22%N, root_folder 2%N "own")];
     files := [(11%N, set_folder_id (Some 21%N) (new_file 2%N 700 None))];
     shares := []; expiry_tasks := [] |}.

(** [guest_folder] after the deletion of user 1: folder 21 of user 2 went
    with folder 20. *)
Definition guest_folder_without_user_1 : database :=
  {| users := [(2%N, {| Users.storage_used := Some 700;
                        Users.storage_limit := Some 5368709120 |})];
     folders := [(22%N, root_folder 2%N "own")];
     files := [(11%N, new_file 2%N 700 None)];
     shares := []; expiry_tasks := [] |}.

(** ** Whose response a caller gets *)

Section RequestAnswers.
Context `{J : Api.JSON}.
Import Api.

(** The body as the cache key prints it: [JSON.stringify(config.body || {})]. *)
Definition printed_body (config : RequestConfig) : string :=
  JSON_stringify (or_else falsy (body config) empty_object).

(** The promise [apiRequest(endpoint, config)] returns in state [c] is the
    promise of exactly one fetch, a [GET], and that fetch went to [endpoint]
    if its body prints as the body of [config] does. *)
Definition answered_by_own_fetch (endpoint : string) (config : RequestConfig)
    (c : client) : Prop :=
  exists r,
    r ∈ network (fst (apiRequest endpoint config c))
    /\ req_promise r = snd (apiRequest endpoint config c)
    /\ (forall r', r' ∈ network (fst (apiRequest endpoint config c)) ->
                   req_promise r' = req_promise r -> r' = r)
    /\ is_GET (method (req_config r)) = true
    /\ (printed_body (req_config r) = printed_body config ->
        req_endpoint r = endpoint).

(** The fetches carry the promises in the order of their creation. *)
Definition promises_in_order (c : client) : Prop :=
  map req_promise (network c) = seq 0 (next_promise c).

End RequestAnswers.

(** The storage statistics read on a fresh page, 4999 ms ago. *)
Definition storage_stats_cached : Api.client (H := Api.empty_bodies) :=
  Api.elapse 4999
    (fst (Api.apiRequest "/users/storage" Api.storage_stats_config
            (Api.loaded 0))).

(** * Facts *)

(** ** The result monad and tables *)

Lemma bind_Ok {A B} (m : result A) (f : A -> result B) (b : B) :
  (m ≫= f) = Ok b <-> exists a, m = Ok a /\ f a = Ok b.
Proof.
  destruct m as [a|e]; simpl; split.
  - intros Hf. exists a. split; [reflexivity | exact Hf].
  - intros (a' & Ha & Hf). inversion Ha; subst. exact Hf.
  - discriminate.
  - intros (a' & Ha & _). discriminate.
Qed.

Lemma require_Ok (e : sqlstate) (b : bool) (u : unit) :
  require e b = Ok u <-> b = true.
Proof.
  destruct b; simpl; split; intros Hb; try discriminate; try reflexivity.
  destruct u. reflexivity.
Qed.

(** Peels the checks off a statement that went through. *)
Ltac committed :=
  repeat match goal with
  | H : (_ ≫= _) = Ok _ |- _ =>
      let u := fresh "u" in
      let Hc := fresh "Hcheck" in
      apply bind_Ok in H; destruct H as (u & Hc & H)
  | H : require _ _ = Ok _ |- _ => apply require_Ok in H
  end.

Lemma has_key_select {R} (k : uuid) (t : table R) :
  has_key k t = true <-> exists r, select k t = Some r.
Proof.
  unfold has_key. destruct (select k t) as [r|]; split.
  - intros _. exists r. reflexivity.
  - reflexivity.
  - discriminate.
  - intros (r & Hr). discriminate.
Qed.

Lemma select_In {R} (k : uuid) (t : table R) (r : R) :
  select k t = Some r -> In (k, r) t.
Proof.
  induction t as [|[k' r'] t IH]; simpl; [discriminate|].
  destruct (N.eqb_spec k' k) as [->|Hne].
  - intros [= ->]. left. reflexivity.
  - intros Hs. right. apply IH, Hs.
Qed.

Lemma In_select {R} (k : uuid) (t : table R) (r : R) :
  primary_key t -> In (k, r) t -> select k t = Some r.
Proof.
  unfold primary_key.
  induction t as [|[k' r'] t IH]; simpl; [intros _ []|].
  intros Hnd Hin. apply NoDup_cons in Hnd as [Hk' Hnd].
  destruct Hin as [[= -> ->]|Hin].
  - rewrite N.eqb_refl. reflexivity.
  - destruct (N.eqb_spec k' k) as [->|Hne]; [|apply IH; assumption].
    exfalso. apply Hk'. apply list_elem_of_In.
    change k with (fst (k, r)). apply in_map, Hin.
Qed.

Lemma select_None_not_key {R} (k : uuid) (t : table R) :
  select k t = None -> ~ In k (map fst t).
Proof.
  induction t as [|[k' r'] t IH]; simpl; [intros _ []|].
  destruct (N.eqb_spec k' k) as [->|Hne]; [discriminate|].
  intros Hs [Hk|Hk]; [congruence | exact (IH Hs Hk)].
Qed.

Lemma select_app {R} (k : uuid) (t1 t2 : table R) :
  select k (t1 ++ t2) =
  match select k t1 with Some r => Some r | None => select k t2 end.
Proof.
  induction t1 as [|[k' r'] t1 IH]; simpl; [reflexivity|].
  destruct (N.eqb k' k); [reflexivity | exact IH].
Qed.

Lemma keys_replace_row {R} (k : uuid) (new : R) (t : table R) :
  map fst (replace_row k new t) = map fst t.
Proof.
  induction t as [|[k' r'] t IH]; simpl; [reflexivity|].
  destruct (N.eqb k' k); simpl; rewrite IH; reflexivity.
Qed.

Lemma select_replace_row {R} (k k0 : uuid) (new : R) (t : table R) :
  select k0 (replace_row k new t) =
  if N.eqb k k0 then (fun _ => new) <$> select k0 t else select k0 t.
Proof.
  induction t as [|[k' r'] t IH]; simpl.
  - destruct (N.eqb k k0); reflexivity.
  - destruct (N.eqb_spec k' k) as [->|Hne]; simpl.
    + destruct (N.eqb_spec k k0) as [->|Hne0]; simpl; [reflexivity | exact IH].
    + destruct (N.eqb_spec k' k0) as [->|Hne0]; simpl; [|exact IH].
      destruct (N.eqb_spec k k0) as [->|_]; [congruence | reflexivity].
Qed.

Lemma In_remove_row {R} (k k0 : uuid) (r : R) (t : table R) :
  In (k0, r) (remove_row k t) <-> In (k0, r) t /\ k0 <> k.
Proof.
  induction t as [|[k' r'] t IH]; simpl; [tauto|].
  destruct (N.eqb_spec k' k) as [->|Hne]; simpl; rewrite IH.
  - split; [tauto|]. intros [[[= -> ->]|Hin] Hk]; [congruence | tauto].
  - split; [|tauto]. intros [[= -> ->]|[Hin Hk]]; tauto.
Qed.

Lemma primary_key_remove_row {R} (k : uuid) (t : table R) :
  primary_key t -> primary_key (remove_row k t).
Proof.
  unfold primary_key.
  induction t as [|[k' r'] t IH]; simpl; [intros H; exact H|].
  intros Hnd. apply NoDup_cons in Hnd as [Hk' Hnd].
  destruct (N.eqb k' k); [apply IH, Hnd|].
  simpl. apply NoDup_cons. split; [|apply IH, Hnd].
  intros Hin. apply Hk'. apply list_elem_of_In in Hin. apply list_elem_of_In.
  apply in_map_iff in Hin as ([k1 r1] & Hk1 & Hin). simpl in Hk1. subst k1.
  apply In_remove_row in Hin as [Hin _].
  change k' with (fst (k', r1)). apply in_map, Hin.
Qed.

Lemma primary_key_insert {R} (k : uuid) (r : R) (t : table R) :
  primary_key t -> has_key k t = false -> primary_key (t ++ [(k, r)]).
Proof.
  unfold primary_key, has_key. intros Hnd Hk.
  rewrite map_app. simpl. apply NoDup_app. split; [exact Hnd|]. split.
  - intros x Hx Hx'. apply list_elem_of_In in Hx.
    apply list_elem_of_In in Hx'. destruct Hx' as [<-|[]].
    destruct (select k t) eqn:Hs; [discriminate|].
    exact (select_None_not_key _ _ Hs Hx).
  - apply NoDup_singleton.
Qed.

(** ** Storage accounting *)

Lemma live_total_table (u : uuid) (d : database) :
  live_total u d = table_total u (files d).
Proof. reflexivity. Qed.

Lemma table_total_cons (u k : uuid) (r : Files.row) (t : table Files.row) :
  table_total u ((k, r) :: t) = contribution u r + table_total u t.
Proof.
  unfold table_total, contribution, live_file_of. simpl.
  destruct (N.eqb (Files.user_id r) u && bool_decide (Files.is_deleted r = Some false));
    reflexivity.
Qed.

Lemma table_total_app (u : uuid) (t1 t2 : table Files.row) :
  table_total u (t1 ++ t2) = table_total u t1 + table_total u t2.
Proof.
  induction t1 as [|[k r] t1 IH]; [reflexivity|].
  change (((k, r) :: t1) ++ t2) with ((k, r) :: (t1 ++ t2)).
  rewrite !table_total_cons, IH. lia.
Qed.

Lemma replace_row_absent {R} (k : uuid) (new : R) (t : table R) :
  ~ In k (map fst t) -> replace_row k new t = t.
Proof.
  induction t as [|[k' r'] t IH]; simpl; [reflexivity|].
  intros Hk. destruct (N.eqb_spec k' k) as [->|Hne]; [tauto|].
  rewrite IH; [reflexivity | tauto].
Qed.

Lemma remove_row_absent {R} (k : uuid) (t : table R) :
  ~ In k (map fst t) -> remove_row k t = t.
Proof.
  induction t as [|[k' r'] t IH]; simpl; [reflexivity|].
  intros Hk. destruct (N.eqb_spec k' k) as [->|Hne]; [tauto|].
  rewrite IH; [reflexivity | tauto].
Qed.

Lemma table_total_replace (u id : uuid) (old new : Files.row) (t : table Files.row) :
  primary_key t -> select id t = Some old ->
  table_total u (replace_row id new t)
  = table_total u t - contribution u old + contribution u new.
Proof.
  unfold primary_key.
  induction t as [|[k r] t IH]; simpl; [discriminate|].
  intros Hnd Hs. apply NoDup_cons in Hnd as [Hk Hnd].
  destruct (N.eqb_spec k id) as [->|Hne].
  - injection Hs as ->. rewrite replace_row_absent.
    + rewrite !table_total_cons. lia.
    + intros Hin. apply Hk, list_elem_of_In, Hin.
  - rewrite !table_total_cons, IH by assumption. lia.
Qed.

Lemma table_total_remove (u id : uuid) (old : Files.row) (t : table Files.row) :
  primary_key t -> select id t = Some old ->
  table_total u (remove_row id t) = table_total u t - contribution u old.
Proof.
  unfold primary_key.
  induction t as [|[k r] t IH]; simpl; [discriminate|].
  intros Hnd Hs. apply NoDup_cons in Hnd as [Hk Hnd].
  destruct (N.eqb_spec k id) as [->|Hne].
  - injection Hs as ->. rewrite remove_row_absent.
    + rewrite table_total_cons. lia.
    + intros Hin. apply Hk, list_elem_of_In, Hin.
  - rewrite !table_total_cons, IH by assumption. lia.
Qed.

Lemma COALESCE_SUM (l : list Z) : COALESCE (SUM l) 0 = foldr Z.add 0 l.
Proof. destruct l; reflexivity. Qed.

Lemma calculate_Ok (u : uuid) (d : database) (v : Z) :
  calculate_user_storage_usage u d = Ok v <->
  v = live_total u d /\ in_bigint (live_total u d) = true.
Proof.
  unfold calculate_user_storage_usage, live_total.
  rewrite COALESCE_SUM. split.
  - intros H. committed. injection H as <-. split; [reflexivity | assumption].
  - intros [-> Hb]. rewrite Hb. reflexivity.
Qed.

Lemma select_set_storage_used (k u : uuid) (v : Z) (t : table Users.row) :
  select u (set_storage_used k v t) =
  if N.eqb k u
  then (fun r => {| Users.storage_used := Some v;
                    Users.storage_limit := Users.storage_limit r |}) <$> select u t
  else select u t.
Proof.
  induction t as [|[k' r'] t IH]; simpl.
  - destruct (N.eqb k u); reflexivity.
  - destruct (N.eqb_spec k' k) as [->|Hne]; simpl.
    + destruct (N.eqb_spec k u) as [->|Hne0]; simpl; [reflexivity | exact IH].
    + destruct (N.eqb_spec k' u) as [->|Hne0]; simpl; [|exact IH].
      destruct (N.eqb_spec k u) as [->|_]; [congruence | reflexivity].
Qed.

Lemma keys_set_storage_used (k : uuid) (v : Z) (t : table Users.row) :
  map fst (set_storage_used k v t) = map fst t.
Proof.
  induction t as [|[k' r'] t IH]; simpl; [reflexivity|].
  destruct (N.eqb k' k); simpl; rewrite IH; reflexivity.
Qed.

Lemma has_key_set_storage_used (k u : uuid) (v : Z) (t : table Users.row) :
  has_key u (set_storage_used k v t) = has_key u t.
Proof.
  unfold has_key. rewrite select_set_storage_used.
  destruct (N.eqb k u), (select u t); reflexivity.
Qed.

(** What the trigger function does to a database: it rewrites the aggregate
    of one user from a fresh scan and nothing else. *)
Lemma trigger_effect (ev : tg_event) (d d' : database) :
  update_user_storage_usage ev d = Ok d' ->
  in_bigint (live_total (tg_user ev) d) = true
  /\ d' = with_users d
            (set_storage_used (tg_user ev) (live_total (tg_user ev) d) (users d)).
Proof.
  intros H.
  assert (exists v, calculate_user_storage_usage (tg_user ev) d = Ok v /\
                    d' = with_users d (set_storage_used (tg_user ev) v (users d)))
    as (v & Hv & ->).
  { destruct ev; simpl in *; apply bind_Ok in H as (v & Hv & [= <-]);
      exists v; split; auto. }
  apply calculate_Ok in Hv as [-> Hb]. split; [exact Hb | reflexivity].
Qed.

Lemma trigger_runs (ev : tg_event) (d : database) :
  in_bigint (live_total (tg_user ev) d) = true ->
  update_user_storage_usage ev d
  = Ok (with_users d
          (set_storage_used (tg_user ev) (live_total (tg_user ev) d) (users d))).
Proof.
  intros Hb.
  assert (calculate_user_storage_usage (tg_user ev) d
          = Ok (live_total (tg_user ev) d)) as Hc.
  { apply calculate_Ok. split; [reflexivity | exact Hb]. }
  destruct ev; simpl in *; rewrite Hc; reflexivity.
Qed.

Lemma storage_used_after_recompute (k u : uuid) (v : Z) (d : database) :
  storage_used_of u (with_users d (set_storage_used k v (users d))) =
  if N.eqb k u
  then (fun _ => Some v) <$> select u (users d)
  else storage_used_of u d.
Proof.
  unfold storage_used_of. simpl. rewrite select_set_storage_used.
  destruct (N.eqb k u); [|reflexivity].
  destruct (select u (users d)); reflexivity.
Qed.

(** The positive half of the accounting invariant: whatever user the trigger
    recomputes ends with the exact total of the database it ran on. *)
Lemma trigger_makes_exact (ev : tg_event) (d d' : database) :
  update_user_storage_usage ev d = Ok d' ->
  has_key (tg_user ev) (users d) = true ->
  storage_exact (tg_user ev) d' /\ files d' = files d.
Proof.
  intros H Hu. apply trigger_effect in H as [_ ->].
  split; [|reflexivity].
  unfold storage_exact. rewrite storage_used_after_recompute, N.eqb_refl.
  apply has_key_select in Hu as (r & ->). reflexivity.
Qed.

(** An [INSERT] leaves the owner of the new row exact. *)
Lemma insert_recomputes_owner (id : uuid) (r : Files.row) (d d' : database) :
  insert_into_files id r d = Ok d' -> storage_exact (Files.user_id r) d'.
Proof.
  unfold insert_into_files, check_files_row. intros H. committed.
  apply (trigger_makes_exact (TG_INSERT r)) in H as [H _]; assumption.
Qed.

(** An [UPDATE] leaves the owner named by the new row exact. *)
Lemma update_recomputes_new_owner (id : uuid) (set : Files.row -> Files.row)
    (OLD : Files.row) (d d' : database) :
  select id (files d) = Some OLD ->
  update_files id set d = Ok d' ->
  storage_exact (Files.user_id (set OLD)) d'.
Proof.
  unfold update_files, check_files_row. intros -> H. committed.
  apply (trigger_makes_exact (TG_UPDATE OLD (set OLD))) in H as [H _]; assumption.
Qed.

(** A [DELETE] leaves the owner of the removed row exact. *)
Lemma delete_recomputes_owner (id : uuid) (OLD : Files.row) (d d' : database) :
  select id (files d) = Some OLD ->
  has_key (Files.user_id OLD) (users d) = true ->
  delete_from_files id d = Ok d' ->
  storage_exact (Files.user_id OLD) d'.
Proof.
  unfold delete_from_files. intros -> Hu H.
  apply (trigger_makes_exact (TG_DELETE OLD)) in H as [H _]; assumption.
Qed.

Lemma no_live_files_sizes (u : uuid) (t : table Files.row) :
  (forall id r, In (id, r) t -> Files.user_id r = u ->
                Files.is_deleted r <> Some false) ->
  List.filter (live_file_of u) t = [].
Proof.
  induction t as [|[k r] t IH]; simpl; [reflexivity|].
  intros Hno. unfold live_file_of at 1. simpl.
  destruct (N.eqb_spec (Files.user_id r) u) as [Hu|Hu]; simpl.
  - rewrite bool_decide_eq_false_2.
    + apply IH. intros id r' Hin. apply (Hno id r'). right. exact Hin.
    + apply (Hno k r); [left; reflexivity | exact Hu].
  - apply IH. intros id r' Hin. apply (Hno id r'). right. exact Hin.
Qed.

(** C8. For a user who owns no non-deleted file (a user without any file row
    included), [calculate_user_storage_usage] returns 0, not [NULL]: the
    [COALESCE] replaces the [NULL] that [SUM] gives over no rows.  Hence every
    run of the trigger function for that user goes through and leaves
    [storage_used = 0] in the user's row. *)
Theorem C8_no_live_files_usage_is_zero (u : uuid) (d : database) :
  (forall id r, In (id, r) (files d) -> Files.user_id r = u ->
                Files.is_deleted r <> Some false) ->
  SUM (live_sizes u d) = None
  /\ calculate_user_storage_usage u d = Ok 0
  /\ forall ev, tg_user ev = u ->
       exists d', update_user_storage_usage ev d = Ok d'
                  /\ (has_key u (users d) = true ->
                      storage_used_of u d' = Some (Some 0)).
Proof.
  intros Hno.
  assert (live_sizes u d = []) as Hnil.
  { unfold live_sizes. rewrite no_live_files_sizes by exact Hno. reflexivity. }
  assert (live_total u d = 0) as Htot.
  { unfold live_total. rewrite Hnil. reflexivity. }
  split; [rewrite Hnil; reflexivity|].
  split; [apply calculate_Ok; rewrite Htot; split; reflexivity|].
  intros ev <-. eexists. split.
  - apply trigger_runs. rewrite Htot. reflexivity.
  - intros Hu. rewrite storage_used_after_recompute, N.eqb_refl, Htot.
    apply has_key_select in Hu as (r & ->). reflexivity.
Qed.

(** User 2 of [two_users] has no file: the recompute an insert-trigger would
    run for that user stores 0. *)
Lemma C8_witness :
  SUM (live_sizes 2%N two_users) = None
  /\ calculate_user_storage_usage 2%N two_users = Ok 0
  /\ forall ev, tg_user ev = 2%N ->
       exists d', update_user_storage_usage ev two_users = Ok d'
                  /\ (has_key 2%N (users two_users) = true ->
                      storage_used_of 2%N d' = Some (Some 0)).
Proof.
  apply (C8_no_live_files_usage_is_zero 2%N two_users).
  simpl. intros id r [].
Defined.

(** C1. The trigger recomputes the aggregate of [NEW.user_id] only, so an
    [UPDATE] that hands a file row of user 1 to user 2 settles with user 1's
    [storage_used] still 1000 although user 1 no longer owns a file: after an
    update of one of that user's file rows the persisted aggregate is not the
    exact sum. *)
Theorem C1_update_of_owner_leaves_aggregate_stale :
  exists d, run upload_then_transfer two_users = Ok d
            /\ storage_used_of 1%N d = Some (Some 1000)
            /\ live_total 1%N d = 0
            /\ ~ storage_exact 1%N d.
Proof.
  eexists. split; [vm_compute; reflexivity|].
  split; [reflexivity|]. split; [reflexivity|].
  unfold storage_exact. vm_compute. discriminate.
Qed.

Lemma contribution_live (r : Files.row) :
  Files.is_deleted r = Some false -> contribution (Files.user_id r) r = Files.size r.
Proof.
  intros Hl. unfold contribution.
  rewrite N.eqb_refl, bool_decide_eq_true_2 by exact Hl. reflexivity.
Qed.

Lemma contribution_other (u : uuid) (r : Files.row) :
  Files.user_id r <> u -> contribution u r = 0.
Proof.
  intros Hne. unfold contribution.
  destruct (N.eqb_spec (Files.user_id r) u); [contradiction | reflexivity].
Qed.

(** C5. An [UPDATE] that moves a live file from its owner to another user
    recomputes the new owner only: the new owner's aggregate is exact, while
    the previous owner's aggregate is left as it was and so exceeds the exact
    sum of that user's remaining files by the size of the moved file. *)
Theorem C5_owner_change_recomputes_new_owner_only
    (id B : uuid) (OLD : Files.row) (d d' : database) :
  primary_key (files d) ->
  select id (files d) = Some OLD ->
  Files.is_deleted OLD = Some false ->
  B <> Files.user_id OLD ->
  storage_exact (Files.user_id OLD) d ->
  update_files id (set_owner B) d = Ok d' ->
  storage_exact B d'
  /\ storage_used_of (Files.user_id OLD) d'
     = Some (Some (live_total (Files.user_id OLD) d' + Files.size OLD))
  /\ 0 < Files.size OLD
  /\ ~ storage_exact (Files.user_id OLD) d'.
Proof.
  intros Hpk Hsel Hlive Hne Hexact Hupd.
  assert (storage_exact B d') as HB.
  { apply (update_recomputes_new_owner id (set_owner B) OLD d d' Hsel Hupd). }
  unfold update_files in Hupd. rewrite Hsel in Hupd.
  unfold check_files_row in Hupd. committed.
  apply trigger_effect in Hupd as [_ ->]. simpl in *.
  assert (0 < Files.size OLD) as Hpos by (apply Z.ltb_lt; assumption).
  assert (live_total (Files.user_id OLD) d
          = live_total (Files.user_id OLD)
              (with_users
                 (with_files d (replace_row id (set_owner B OLD) (files d)))
                 (set_storage_used B
                    (live_total B
                       (with_files d (replace_row id (set_owner B OLD) (files d))))
                    (users d)))
            + Files.size OLD) as Htot.
  { rewrite !live_total_table. simpl.
    rewrite (table_total_replace _ id OLD) by assumption.
    rewrite contribution_live by exact Hlive.
    rewrite contribution_other by exact Hne. lia. }
  assert (storage_used_of (Files.user_id OLD)
            (with_users
               (with_files d (replace_row id (set_owner B OLD) (files d)))
               (set_storage_used B
                  (live_total B
                     (with_files d (replace_row id (set_owner B OLD) (files d))))
                  (users d)))
          = Some (Some (live_total (Files.user_id OLD) d))) as Hkept.
  { rewrite <- Hexact. unfold storage_used_of. simpl.
    rewrite select_set_storage_used.
    destruct (N.eqb_spec B (Files.user_id OLD)); [contradiction | reflexivity]. }
  split; [exact HB|]. split; [rewrite Hkept, Htot; reflexivity|].
  split; [exact Hpos|].
  unfold storage_exact. rewrite Hkept, Htot. intros [= Heq]. lia.
Qed.

(** The transfer of [upload_then_transfer], as an instance. *)
Lemma C5_witness :
  storage_exact 2%N after_transfer
  /\ storage_used_of 1%N after_transfer
     = Some (Some (live_total 1%N after_transfer + 1000))
  /\ 0 < 1000
  /\ ~ storage_exact 1%N after_transfer.
Proof.
  apply (C5_owner_change_recomputes_new_owner_only
           10%N 2%N (new_file 1%N 1000 None) after_upload after_transfer).
  - apply (bool_decide_unpack _). vm_compute. exact I.
  - reflexivity.
  - reflexivity.
  - simpl. discriminate.
  - reflexivity.
  - vm_compute. reflexivity.
Defined.

(** ** The constraints of [expiry_tasks] *)

Lemma no_collision_spec {R} (collide : R -> R -> bool) (id : uuid) (r : R)
    (t : table R) :
  no_collision collide id r t = true <->
  forall j r', In (j, r') t -> j <> id -> collide r r' = false.
Proof.
  unfold no_collision. rewrite forallb_forall. split.
  - intros H j r' Hin Hne. specialize (H (j, r') Hin). simpl in H.
    destruct (N.eqb_spec j id); [contradiction|]. simpl in H.
    destruct (collide r r'); [discriminate | reflexivity].
  - intros H [j r'] Hin. simpl.
    destruct (N.eqb_spec j id) as [|Hne]; [reflexivity|]. simpl.
    rewrite (H j r' Hin Hne). reflexivity.
Qed.

Lemma not_distinct_sym {A} `{EqDecision A} (x y : option A) :
  not_distinct x y = not_distinct y x.
Proof.
  destruct x as [a|], y as [b|]; simpl; try reflexivity.
  apply bool_decide_ext. split; congruence.
Qed.

Lemma unique_unprocessed_task_sym (r r' : ExpiryTasks.row) :
  unique_unprocessed_task r r' = unique_unprocessed_task r' r.
Proof.
  unfold unique_unprocessed_task.
  rewrite (not_distinct_sym (ExpiryTasks.is_processed r)), (N.eqb_sym (ExpiryTasks.target_id r)).
  f_equal. f_equal. apply bool_decide_ext. split; congruence.
Qed.

Lemma In_replace_row {R} (k j : uuid) (new r : R) (t : table R) :
  In (j, r) (replace_row k new t) ->
  (j = k /\ r = new /\ In k (map fst t)) \/ (j <> k /\ In (j, r) t).
Proof.
  induction t as [|[k' r'] t IH]; simpl; [intros []|].
  destruct (N.eqb_spec k' k) as [->|Hne]; simpl.
  - intros [[= <- <-]|Hin]; [left; auto|].
    destruct (IH Hin) as [(-> & -> & Hk)|(Hjk & Hin')]; [left; auto | right; auto].
  - intros [[= <- <-]|Hin]; [right; auto|].
    destruct (IH Hin) as [(-> & -> & Hk)|(Hjk & Hin')]; [left; auto | right; auto].
Qed.

Lemma key_In {R} (k : uuid) (r : R) (t : table R) :
  In (k, r) t -> In k (map fst t).
Proof. intros Hin. change k with (fst (k, r)). apply in_map, Hin. Qed.

Lemma has_key_false {R} (k : uuid) (t : table R) :
  has_key k t = false -> ~ In k (map fst t).
Proof.
  unfold has_key. destruct (select k t) eqn:Hs; [discriminate|].
  intros _. apply select_None_not_key, Hs.
Qed.

Lemma insert_keeps_tasks_consistent (id : uuid) (r : ExpiryTasks.row)
    (d d' : database) :
  tasks_consistent (expiry_tasks d) ->
  insert_into_expiry_tasks id r d = Ok d' ->
  tasks_consistent (expiry_tasks d').
Proof.
  unfold insert_into_expiry_tasks, check_expiry_tasks_row.
  intros (Hpk & Hty & Huniq) H. committed. injection H as <-. simpl.
  match goal with
  | Hk : negb (has_key _ _) = true |- _ =>
      apply negb_true_iff in Hk; pose proof (has_key_false _ _ Hk) as Hfresh
  end.
  match goal with
  | Hn : no_collision _ _ _ _ = true |- _ =>
      pose proof (proj1 (no_collision_spec _ _ _ _) Hn) as Hnc
  end.
  split; [apply primary_key_insert; assumption|]. split.
  - intros i r0 Hin. apply in_app_or in Hin as [Hin|[[= <- <-]|[]]].
    + apply (Hty i r0 Hin).
    + assumption.
  - intros i j r1 r2 Hi Hj Hc.
    apply in_app_or in Hi as [Hi|[[= <- <-]|[]]];
      apply in_app_or in Hj as [Hj|[[= <- <-]|[]]].
    + apply (Huniq i j r1 r2 Hi Hj Hc).
    + destruct (N.eq_dec i id) as [->|Hne]; [reflexivity|].
      rewrite unique_unprocessed_task_sym in Hc.
      rewrite (Hnc i r1 Hi Hne) in Hc. discriminate.
    + destruct (N.eq_dec j id) as [->|Hne]; [reflexivity|].
      rewrite (Hnc j r2 Hj Hne) in Hc. discriminate.
    + reflexivity.
Qed.

Lemma update_keeps_tasks_consistent (id : uuid)
    (set : ExpiryTasks.row -> ExpiryTasks.row) (d d' : database) :
  tasks_consistent (expiry_tasks d) ->
  update_expiry_tasks id set d = Ok d' ->
  tasks_consistent (expiry_tasks d').
Proof.
  unfold update_expiry_tasks, check_expiry_tasks_row.
  intros (Hpk & Hty & Huniq) H.
  destruct (select id (expiry_tasks d)) as [OLD|] eqn:Hsel;
    [|injection H as <-; repeat split; assumption].
  committed. injection H as <-. simpl.
  match goal with
  | Hn : no_collision _ _ _ _ = true |- _ =>
      pose proof (proj1 (no_collision_spec _ _ _ _) Hn) as Hnc
  end.
  split; [unfold primary_key; rewrite keys_replace_row; exact Hpk|]. split.
  - intros i r0 Hin.
    apply In_replace_row in Hin as [(-> & -> & _)|(_ & Hin)];
      [assumption | apply (Hty i r0 Hin)].
  - intros i j r1 r2 Hi Hj Hc.
    apply In_replace_row in Hi as [(-> & -> & _)|(Hi' & Hi)];
      apply In_replace_row in Hj as [(-> & -> & _)|(Hj' & Hj)].
    + reflexivity.
    + rewrite (Hnc j r2 Hj Hj') in Hc. discriminate.
    + rewrite unique_unprocessed_task_sym in Hc.
      rewrite (Hnc i r1 Hi Hi') in Hc. discriminate.
    + apply (Huniq i j r1 r2 Hi Hj Hc).
Qed.

Lemma delete_keeps_tasks_consistent (id : uuid) (d d' : database) :
  tasks_consistent (expiry_tasks d) ->
  delete_from_expiry_tasks id d = Ok d' ->
  tasks_consistent (expiry_tasks d').
Proof.
  unfold delete_from_expiry_tasks. intros (Hpk & Hty & Huniq) [= <-]. simpl.
  split; [apply primary_key_remove_row, Hpk|]. split.
  - intros i r Hin. apply In_remove_row in Hin as [Hin _]. apply (Hty i r Hin).
  - intros i j r r' Hi Hj. apply In_remove_row in Hi as [Hi _].
    apply In_remove_row in Hj as [Hj _]. apply (Huniq i j r r' Hi Hj).
Qed.

(** Statements on the other tables, and the trigger they fire, leave
    [expiry_tasks] alone. *)
Lemma other_statements_keep_tasks (st : statement) (d d' : database) :
  execute st d = Ok d' ->
  match st with
  | INSERT_INTO_expiry_tasks _ _ | UPDATE_expiry_tasks _ _
  | DELETE_FROM_expiry_tasks _ => True
  | _ => expiry_tasks d' = expiry_tasks d
  end.
Proof.
  destruct st; simpl; try (intros _; exact I); intros H.
  - unfold insert_into_files in H. committed.
    apply trigger_effect in H as [_ ->]. reflexivity.
  - unfold update_files in H. destruct (select id (files d));
      [|injection H as <-; reflexivity].
    committed. apply trigger_effect in H as [_ ->]. reflexivity.
  - unfold delete_from_files in H. destruct (select id (files d));
      [|injection H as <-; reflexivity].
    apply trigger_effect in H as [_ ->]. reflexivity.
  - unfold insert_into_folders in H. committed. injection H as <-. reflexivity.
  - unfold insert_into_shares in H. committed. injection H as <-. reflexivity.
  - unfold update_shares in H. destruct (select id (shares d));
      [|injection H as <-; reflexivity].
    committed. injection H as <-. reflexivity.
  - unfold delete_from_shares in H. injection H as <-. reflexivity.
Qed.

Lemma execute_keeps_tasks_consistent (st : statement) (d d' : database) :
  tasks_consistent (expiry_tasks d) ->
  execute st d = Ok d' ->
  tasks_consistent (expiry_tasks d').
Proof.
  intros Hc H. pose proof (other_statements_keep_tasks st d d' H) as Hk.
  destruct st; try (rewrite Hk; exact Hc); simpl in H.
  - apply (insert_keeps_tasks_consistent id r d d' Hc H).
  - apply (update_keeps_tasks_consistent id set d d' Hc H).
  - apply (delete_keeps_tasks_consistent id d d' Hc H).
Qed.

Lemma reachable_tasks_consistent (d0 d : database) :
  expiry_tasks d0 = [] -> reachable d0 d -> tasks_consistent (expiry_tasks d).
Proof.
  intros Hempty Hr. induction Hr as [|d st d' Hr IH Hex].
  - rewrite Hempty. split; [constructor|].
    split; [intros i r []|intros i j r r' []].
  - apply (execute_keeps_tasks_consistent st d d' IH Hex).
Qed.

Lemma same_triple_collide (flag : bool) (r r' : ExpiryTasks.row) :
  ExpiryTasks.task_type r = ExpiryTasks.task_type r' ->
  ExpiryTasks.target_id r = ExpiryTasks.target_id r' ->
  ExpiryTasks.is_processed r = Some flag ->
  ExpiryTasks.is_processed r' = Some flag ->
  unique_unprocessed_task r r' = true.
Proof.
  intros Hk Ht Hf Hf'. unfold unique_unprocessed_task.
  rewrite Hk, Ht, Hf, Hf', N.eqb_refl. simpl.
  rewrite !bool_decide_eq_true_2 by reflexivity. reflexivity.
Qed.

Lemma In_tasks_with_flag (flag : bool) (kind : string) (target : uuid)
    (d : database) (i : uuid) (r : ExpiryTasks.row) :
  In (i, r) (tasks_with_flag flag kind target d) <->
  In (i, r) (expiry_tasks d)
  /\ ExpiryTasks.task_type r = kind
  /\ ExpiryTasks.target_id r = target
  /\ ExpiryTasks.is_processed r = Some flag.
Proof.
  unfold tasks_with_flag. rewrite filter_In. simpl.
  rewrite !andb_true_iff, !bool_decide_eq_true, N.eqb_eq. tauto.
Qed.

(** Under the table's constraints the tasks of one (kind, target, flag)
    triple are at most one. *)
Lemma tasks_with_flag_at_most_one (flag : bool) (kind : string) (target : uuid)
    (d : database) :
  tasks_consistent (expiry_tasks d) ->
  (length (tasks_with_flag flag kind target d) <= 1)%nat.
Proof.
  intros (Hpk & _ & Huniq).
  assert (forall i j r r',
            In (i, r) (tasks_with_flag flag kind target d) ->
            In (j, r') (tasks_with_flag flag kind target d) -> i = j) as Hsame.
  { intros i j r r' Hi Hj.
    apply In_tasks_with_flag in Hi as (Hi & Hk & Ht & Hf).
    apply In_tasks_with_flag in Hj as (Hj & Hk' & Ht' & Hf').
    apply (Huniq i j r r' Hi Hj).
    apply (same_triple_collide flag); congruence. }
  assert (NoDup (map fst (tasks_with_flag flag kind target d))) as Hnd.
  { unfold tasks_with_flag. revert Hpk. unfold primary_key.
    generalize (expiry_tasks d). intros t.
    induction t as [|[k r] t IH]; simpl; [intros; constructor|].
    intros Hnd. apply NoDup_cons in Hnd as [Hk Hnd].
    match goal with |- context [if ?b then _ else _] => destruct b end;
      [|apply IH, Hnd].
    simpl. apply NoDup_cons. split; [|apply IH, Hnd].
    intros Hin. apply Hk. apply list_elem_of_In in Hin. apply list_elem_of_In.
    apply in_map_iff in Hin as ([k1 r1] & Hk1 & Hin). simpl in Hk1. subst k1.
    apply filter_In in Hin as [Hin _]. apply (key_In k r1 t Hin). }
  destruct (tasks_with_flag flag kind target d) as [|[i r] [|[j r'] l]];
    simpl; try lia.
  exfalso. assert (i = j) as -> by (apply (Hsame i j r r'); simpl; auto).
  simpl in Hnd. apply NoDup_cons in Hnd as [Hj _]. apply Hj. left.
Qed.

(** A second row for a triple that already has one is refused. *)
Lemma duplicate_triple_insert_rejected (flag : bool) (kind : string)
    (target : uuid) (d : database) (id : uuid) (r : ExpiryTasks.row) :
  tasks_consistent (expiry_tasks d) ->
  tasks_with_flag flag kind target d <> [] ->
  ExpiryTasks.task_type r = kind ->
  ExpiryTasks.target_id r = target ->
  ExpiryTasks.is_processed r = Some flag ->
  insert_into_expiry_tasks id r d = Err unique_violation.
Proof.
  intros (Hpk & Hty & _) Hex Hk Ht Hf.
  destruct (tasks_with_flag flag kind target d) as [|[j r'] l] eqn:Hl;
    [contradiction|].
  assert (In (j, r') (tasks_with_flag flag kind target d)) as Hin
    by (rewrite Hl; left; reflexivity).
  apply In_tasks_with_flag in Hin as (Hin & Hk' & Ht' & Hf').
  unfold insert_into_expiry_tasks.
  destruct (has_key id (expiry_tasks d)) eqn:Hkey; [reflexivity|]. simpl.
  unfold check_expiry_tasks_row.
  assert (task_type_ok r = true) as ->.
  { pose proof (Hty j r' Hin) as Hok. unfold task_type_ok in *.
    rewrite Hk, <- Hk'. exact Hok. }
  simpl.
  assert (no_collision unique_unprocessed_task id r (expiry_tasks d) = false)
    as ->; [|reflexivity].
  apply not_true_is_false. intros Hnc. rewrite no_collision_spec in Hnc.
  assert (j <> id) as Hne.
  { intros ->. apply (has_key_false _ _ Hkey). apply (key_In id r' _ Hin). }
  specialize (Hnc j r' Hin Hne).
  rewrite (same_triple_collide flag r r') in Hnc by congruence.
  discriminate.
Qed.

(** C2. In every state the store reaches from the freshly created table, each
    (kind, target) pair has at most one task whose [is_processed] is false,
    and it is the table's own [UNIQUE (task_type, target_id, is_processed)]
    that keeps it so: an [INSERT] of a further unprocessed task for a pair
    that has one raises [unique_violation]. *)
Theorem C2_at_most_one_unprocessed_task_per_target
    (d0 d : database) (kind : string) (target : uuid) :
  expiry_tasks d0 = [] ->
  reachable d0 d ->
  (length (unprocessed_tasks kind target d) <= 1)%nat
  /\ (unprocessed_tasks kind target d <> [] ->
      forall id dueAt,
        insert_into_expiry_tasks id (new_task kind target dueAt) d
        = Err unique_violation).
Proof.
  intros Hempty Hr.
  pose proof (reachable_tasks_consistent d0 d Hempty Hr) as Hc.
  split; [apply tasks_with_flag_at_most_one, Hc|].
  intros Hex id dueAt.
  apply (duplicate_triple_insert_rejected false kind target); auto.
Qed.

(** The pending expiration of file 10 bars a second one. *)
Lemma C2_witness :
  (length (unprocessed_tasks "file" 10%N one_pending_task) <= 1)%nat
  /\ (unprocessed_tasks "file" 10%N one_pending_task <> [] ->
      forall id dueAt,
        insert_into_expiry_tasks id (new_task "file" 10%N dueAt) one_pending_task
        = Err unique_violation).
Proof.
  apply (C2_at_most_one_unprocessed_task_per_target two_users one_pending_task).
  - reflexivity.
  - apply (reachable_commit two_users two_users
             (INSERT_INTO_expiry_tasks 100%N (new_task "file" 10%N 500))).
    + apply reachable_start.
    + vm_compute. reflexivity.
Defined.

(** The constraint counts the flag value [true] like the value [false], so
    no reachable state holds two processed tasks of one (kind, target) pair,
    and the second of two inserts of processed history rows for file 10
    raises [unique_violation]. *)
Lemma processed_history_is_bounded :
  ~ (forall n : nat, exists d0 d kind target,
       expiry_tasks d0 = [] /\ reachable d0 d
       /\ length (processed_tasks kind target d) = n)
  /\ run two_processed_inserts two_users = Err unique_violation.
Proof.
  split; [|vm_compute; reflexivity].
  intros Hall. destruct (Hall 2%nat) as (d0 & d & kind & target & He & Hr & Hn).
  pose proof (tasks_with_flag_at_most_one true kind target d
                (reachable_tasks_consistent d0 d He Hr)) as Hle.
  unfold processed_tasks in Hn. lia.
Qed.

(** C6 asks that the constraint limit the unprocessed tasks only, as the
    comment above it and its name [unique_unprocessed_task] say. Written over
    the whole triple (task_type, target_id, is_processed), it limits the
    processed rows as well: in every reachable state the processed tasks of a
    (kind, target) pair are at most one, and an [INSERT] of a further
    processed row for a pair that has one raises [unique_violation]. *)
Theorem C6_at_most_one_processed_task_per_target
    (d0 d : database) (kind : string) (target : uuid) :
  expiry_tasks d0 = [] ->
  reachable d0 d ->
  (length (processed_tasks kind target d) <= 1)%nat
  /\ (processed_tasks kind target d <> [] ->
      forall id dueAt at_,
        insert_into_expiry_tasks id (processed_task kind target dueAt at_) d
        = Err unique_violation).
Proof.
  intros Hempty Hr.
  pose proof (reachable_tasks_consistent d0 d Hempty Hr) as Hc.
  split; [apply tasks_with_flag_at_most_one, Hc|].
  intros Hex id dueAt at_.
  apply (duplicate_triple_insert_rejected true kind target); auto.
Qed.

(** The processed task of file 10 bars a second processed row. *)
Lemma C6_witness :
  (length (processed_tasks "file" 10%N one_processed_task) <= 1)%nat
  /\ (processed_tasks "file" 10%N one_processed_task <> [] ->
      forall id dueAt at_,
        insert_into_expiry_tasks id (processed_task "file" 10%N dueAt at_)
          one_processed_task
        = Err unique_violation).
Proof.
  apply (C6_at_most_one_processed_task_per_target two_users one_processed_task).
  - reflexivity.
  - apply (reachable_commit two_users two_users
             (INSERT_INTO_expiry_tasks 100%N
                (processed_task "file" 10%N 500 600))).
    + apply reachable_start.
    + vm_compute. reflexivity.
Defined.

(** ** Scripts and reachability *)

Lemma reachable_run (script : list statement) (d0 d d' : database) :
  reachable d0 d -> run script d = Ok d' -> reachable d0 d'.
Proof.
  revert d. induction script as [|st script IH]; simpl; intros d Hr Hrun.
  - injection Hrun as <-. exact Hr.
  - apply bind_Ok in Hrun as (d1 & Hex & Hrun).
    apply (IH d1); [|exact Hrun].
    apply (reachable_commit d0 d st d1 Hr Hex).
Qed.

(** ** The folder-name constraint *)

Lemma root_folder_never_collides (owner : uuid) (nm : string) (id : uuid)
    (t : table Folders.row) :
  no_collision unique_folder_name_per_parent id (root_folder owner nm) t = true.
Proof.
  apply no_collision_spec. intros j r' _ _.
  unfold unique_folder_name_per_parent. simpl.
  rewrite andb_false_r. reflexivity.
Qed.

(** C9. [UNIQUE (user_id, parent_id, name, is_deleted)] does not bar
    duplicate root folders: for any user with a row in [users], two inserts of
    non-deleted root folders ([parent_id] is [NULL]) with the same name both
    go through, and both rows are in the table afterwards. *)
Theorem C9_duplicate_root_folders_accepted
    (d : database) (owner id1 id2 : uuid) (nm : string) :
  has_key owner (users d) = true ->
  has_key id1 (folders d) = false ->
  has_key id2 (folders d) = false ->
  id1 <> id2 ->
  exists d1 d2,
    insert_into_folders id1 (root_folder owner nm) d = Ok d1
    /\ insert_into_folders id2 (root_folder owner nm) d1 = Ok d2
    /\ In (id1, root_folder owner nm) (folders d2)
    /\ In (id2, root_folder owner nm) (folders d2).
Proof.
  intros Hu H1 H2 Hne.
  exists (with_folders d (folders d ++ [(id1, root_folder owner nm)])).
  exists (with_folders d ((folders d ++ [(id1, root_folder owner nm)])
                          ++ [(id2, root_folder owner nm)])).
  split; [|split; [|split]].
  - unfold insert_into_folders, check_folders_row. simpl.
    rewrite H1, Hu, root_folder_never_collides. reflexivity.
  - unfold insert_into_folders, check_folders_row. simpl.
    rewrite Hu, root_folder_never_collides.
    assert (has_key id2 (folders d ++ [(id1, root_folder owner nm)]) = false)
      as ->; [|reflexivity].
    unfold has_key in *. rewrite select_app.
    destruct (select id2 (folders d)); [discriminate|]. simpl.
    destruct (N.eqb_spec id1 id2); [contradiction | reflexivity].
  - simpl. apply in_or_app. left. apply in_or_app. right. left. reflexivity.
  - simpl. apply in_or_app. right. left. reflexivity.
Qed.

(** User 1 of [two_users] gets two root folders named "docs". *)
Lemma C9_witness :
  exists d1 d2,
    insert_into_folders 20%N (root_folder 1%N "docs") two_users = Ok d1
    /\ insert_into_folders 21%N (root_folder 1%N "docs") d1 = Ok d2
    /\ In (20%N, root_folder 1%N "docs") (folders d2)
    /\ In (21%N, root_folder 1%N "docs") (folders d2).
Proof.
  apply (C9_duplicate_root_folders_accepted two_users 1%N 20%N 21%N "docs").
  - reflexivity.
  - reflexivity.
  - reflexivity.
  - discriminate.
Defined.

(** Below the root the same constraint does its work: a second non-deleted
    folder of the same name under the same parent is refused. *)
Lemma duplicate_sub_folder_rejected :
  run [INSERT_INTO_folders 20%N (root_folder 1%N "docs");
       INSERT_INTO_folders 21%N (sub_folder 1%N 20%N "a");
       INSERT_INTO_folders 22%N (sub_folder 1%N 20%N "a")] two_users
  = Err unique_violation.
Proof. vm_compute. reflexivity. Qed.

(** ** The constraints of [shares] *)


(** ** The order of due tasks *)

#[local] Instance due_order_transitive : Transitive Registry.due_order.
Proof. intros p q r. unfold Registry.due_order. lia. Qed.

#[local] Instance due_order_total : Total Registry.due_order.
Proof. intros p q. unfold Registry.due_order. lia. Qed.

Lemma due_order_antisym (p q : uuid * ExpiryTasks.row) :
  Registry.due_order p q -> Registry.due_order q p -> fst p = fst q.
Proof. unfold Registry.due_order. lia. Qed.

Lemma In_take {A} (n : nat) (l : list A) (x : A) : In x (take n l) -> In x l.
Proof.
  intros Hin. rewrite <- (take_drop n l). apply in_or_app. left. exact Hin.
Qed.

Lemma filter_Permutation_bool {A} (f : A -> bool) (l1 l2 : list A) :
  l1 ≡ₚ l2 -> List.filter f l1 ≡ₚ List.filter f l2.
Proof.
  induction 1 as [|x l1 l2 _ IH|x y l|l1 l2 l3 _ IH1 _ IH2]; simpl.
  - constructor.
  - destruct (f x); [constructor|]; exact IH.
  - destruct (f x), (f y); try reflexivity. constructor.
  - etransitivity; eassumption.
Qed.

Lemma In_due (asOf : timestamptz) (t : table ExpiryTasks.row)
    (id : uuid) (r : ExpiryTasks.row) :
  In (id, r) (List.filter (Registry.due asOf) t) <->
  In (id, r) t
  /\ ExpiryTasks.is_processed r = Some false
  /\ ExpiryTasks.expires_at r <= asOf.
Proof.
  rewrite filter_In. unfold Registry.due, Registry.unprocessed. simpl.
  rewrite andb_true_iff, bool_decide_eq_true, Z.leb_le. tauto.
Qed.

Lemma In_dueTasks (asOf : timestamptz) (limit : nat) (d : database)
    (id : uuid) (r : ExpiryTasks.row) :
  In (id, r) (Registry.dueTasks asOf limit d) ->
  In (id, r) (expiry_tasks d)
  /\ ExpiryTasks.is_processed r = Some false
  /\ ExpiryTasks.expires_at r <= asOf.
Proof.
  unfold Registry.dueTasks. intros Hin. apply In_take in Hin.
  apply In_due. apply list_elem_of_In. apply list_elem_of_In in Hin.
  rewrite <- (merge_sort_Permutation Registry.due_order). exact Hin.
Qed.

Lemma same_key_same_row {R} (t : table R) (k : uuid) (r r' : R) :
  primary_key t -> In (k, r) t -> In (k, r') t -> r = r'.
Proof.
  intros Hpk Hr Hr'. apply (In_select k t r Hpk) in Hr.
  apply (In_select k t r' Hpk) in Hr'. congruence.
Qed.

(** C7. [dueTasks(asOf, limit)] yields only unprocessed tasks of the table
    whose due instant is at most [asOf], at most [limit] of them, ordered by
    due instant ascending with equal instants ordered by task identity; the
    order does not depend on how the table stores its rows, so the result is
    determined by the set of tasks. *)
Theorem C7_dueTasks_due_capped_ordered
    (asOf : timestamptz) (limit : nat) (d : database) :
  primary_key (expiry_tasks d) ->
  (forall id r, In (id, r) (Registry.dueTasks asOf limit d) ->
     In (id, r) (expiry_tasks d)
     /\ ExpiryTasks.is_processed r = Some false
     /\ ExpiryTasks.expires_at r <= asOf)
  /\ (length (Registry.dueTasks asOf limit d) <= limit)%nat
  /\ StronglySorted Registry.due_order (Registry.dueTasks asOf limit d)
  /\ (forall d', expiry_tasks d' ≡ₚ expiry_tasks d ->
        Registry.dueTasks asOf limit d' = Registry.dueTasks asOf limit d).
Proof.
  intros Hpk. split; [intros id r; apply In_dueTasks|].
  split; [unfold Registry.dueTasks; rewrite length_take; lia|].
  split.
  - unfold Registry.dueTasks.
    pose proof (StronglySorted_merge_sort Registry.due_order
                  (List.filter (Registry.due asOf) (expiry_tasks d))) as Hs.
    rewrite <- (take_drop limit) in Hs.
    apply StronglySorted_app_1_l in Hs. exact Hs.
  - intros d' Hperm. unfold Registry.dueTasks. f_equal.
    apply (StronglySorted_unique_strong Registry.due_order).
    + intros [k1 r1] [k2 r2] H1 H2 H12 H21.
      pose proof (due_order_antisym _ _ H12 H21) as Hk. simpl in Hk. subst k2.
      f_equal. apply (same_key_same_row (expiry_tasks d) k1 r1 r2 Hpk).
      * rewrite merge_sort_Permutation in H1. apply list_elem_of_In in H1.
        apply filter_In in H1 as [H1 _].
        apply list_elem_of_In. rewrite <- Hperm. apply list_elem_of_In, H1.
      * rewrite merge_sort_Permutation in H2. apply list_elem_of_In in H2.
        apply filter_In in H2 as [H2 _]. exact H2.
    + apply StronglySorted_merge_sort; apply _.
    + apply StronglySorted_merge_sort; apply _.
    + rewrite !merge_sort_Permutation.
      apply filter_Permutation_bool, Hperm.
Qed.

(** Of the four tasks, three are due at 600; a batch of two is the task due
    at 400 followed by the task due at 500 with the smaller identity. *)
Lemma dueTasks_four_tasks :
  map fst (Registry.dueTasks 600 2 four_tasks) = [101%N; 100%N]
  /\ map fst (Registry.dueTasks 600 5 four_tasks) = [101%N; 100%N; 102%N].
Proof. split; vm_compute; reflexivity. Qed.

Lemma C7_witness :
  (forall id r, In (id, r) (Registry.dueTasks 600 2 four_tasks) ->
     In (id, r) (expiry_tasks four_tasks)
     /\ ExpiryTasks.is_processed r = Some false
     /\ ExpiryTasks.expires_at r <= 600)
  /\ (length (Registry.dueTasks 600%Z 2 four_tasks) <= 2)%nat
  /\ StronglySorted Registry.due_order (Registry.dueTasks 600 2 four_tasks)
  /\ (forall d', expiry_tasks d' ≡ₚ expiry_tasks four_tasks ->
        Registry.dueTasks 600 2 d' = Registry.dueTasks 600 2 four_tasks).
Proof.
  apply (C7_dueTasks_due_capped_ordered 600 2 four_tasks).
  apply (bool_decide_unpack _). vm_compute. exact I.
Defined.

(** ** The request cache *)

Section RequestCache.
Context `{J : Api.JSON}.
Import Api.

Lemma getCacheKey_GET_body (endpoint : string) (cfg1 cfg2 : RequestConfig) :
  is_GET (method cfg1) = true -> is_GET (method cfg2) = true ->
  body cfg1 = body cfg2 ->
  getCacheKey endpoint cfg1 = getCacheKey endpoint cfg2.
Proof.
  unfold getCacheKey, is_GET. intros H1 H2 Hb. rewrite Hb.
  destruct (method cfg1) as [[]|], (method cfg2) as [[]|];
    simpl in *; try discriminate; reflexivity.
Qed.

Lemma apiRequest_hit (endpoint : string) (cfg : RequestConfig) (c : client)
    (p : promise) :
  is_GET (method cfg) = true ->
  requestCache c !! getCacheKey endpoint cfg = Some p ->
  apiRequest endpoint cfg c = (c, p).
Proof. intros Hg Hc. unfold apiRequest. rewrite Hg, Hc. reflexivity. Qed.

Lemma apiRequest_clock (endpoint : string) (cfg : RequestConfig) (c : client) :
  clock (fst (apiRequest endpoint cfg c)) = clock c.
Proof.
  unfold apiRequest. destruct (is_GET (method cfg)); [|reflexivity].
  destruct (requestCache c !! getCacheKey endpoint cfg); reflexivity.
Qed.

Lemma step_clock (c c' : client) : step c c' -> clock c <= clock c'.
Proof.
  intros Hs. destruct Hs; simpl; try lia.
  rewrite apiRequest_clock. lia.
Qed.

Lemma steps_clock (c c' : client) : steps c c' -> clock c <= clock c'.
Proof.
  induction 1 as [|c1 c2 c3 Hs _ IH]; [lia|].
  apply step_clock in Hs. lia.
Qed.

Lemma timer_key_unique (c : client) (i : nat) (due due' : Z) (k : string) :
  NoDup (timers c).*2 ->
  timers c !! i = Some (due, k) ->
  (due', k) ∈ delete i (timers c) -> False.
Proof.
  intros Hnd Hi Hin.
  rewrite <- (take_drop_middle (timers c) i (due, k) Hi) in Hnd.
  rewrite delete_take_drop in Hin.
  rewrite fmap_app, fmap_cons in Hnd. simpl in Hnd.
  apply NoDup_app in Hnd as (_ & Hdisj & Hnd).
  apply NoDup_cons in Hnd as [Hk _].
  apply elem_of_app in Hin as [Hin|Hin].
  - apply (Hdisj k).
    + apply list_elem_of_fmap. exists (due', k). split; [reflexivity | exact Hin].
    + left.
  - apply Hk. apply list_elem_of_fmap. exists (due', k).
    split; [reflexivity | exact Hin].
Qed.

Lemma elem_of_delete {A} (i : nat) (l : list A) (x : A) :
  x ∈ delete i l -> x ∈ l.
Proof.
  intros Hin. apply (elem_of_sublist (delete i l) l x Hin).
  apply sublist_delete.
Qed.

Lemma step_keeps_agreement (c c' : client) :
  cache_timers_agree c -> step c c' -> cache_timers_agree c'.
Proof.
  intros [Hnd Hin] Hs. unfold cache_timers_agree.
  destruct Hs as [endpoint cfg c|dt c _|i due key c Hi Hdue|p o c _ _].
  - unfold apiRequest. destruct (is_GET (method cfg)); [|split; assumption].
    destruct (requestCache c !! getCacheKey endpoint cfg) eqn:Hc;
      [split; assumption|].
    simpl. split.
    + rewrite fmap_app. simpl. apply NoDup_app. split; [exact Hnd|].
      split; [|apply NoDup_singleton].
      intros k Hk Hk'. apply list_elem_of_singleton in Hk'. subst k.
      apply list_elem_of_fmap in Hk as ([due k] & Hk & Ht). simpl in Hk. subst k.
      destruct (Hin due _ Ht) as [q Hq]. congruence.
    + intros due k Ht. apply elem_of_app in Ht as [Ht|Ht].
      * apply lookup_insert_is_Some'. right. apply (Hin due k Ht).
      * apply list_elem_of_singleton in Ht. injection Ht as -> ->.
        apply lookup_insert_is_Some'. left. reflexivity.
  - split; assumption.
  - simpl. split.
    + apply (sublist_NoDup _ (timers c).*2); [exact Hnd|].
      apply fmap_sublist, sublist_delete.
    + intros due' k Ht.
      destruct (decide (k = key)) as [->|Hne].
      * exfalso. apply (timer_key_unique c i due due' key Hnd Hi Ht).
      * rewrite lookup_delete_ne by congruence.
        apply (Hin due' k). apply (elem_of_delete i), Ht.
  - split; assumption.
Qed.

Lemma steps_keep_agreement (c c' : client) :
  cache_timers_agree c -> steps c c' -> cache_timers_agree c'.
Proof.
  intros Ha Hs. induction Hs as [|c1 c2 c3 Hs _ IH]; [exact Ha|].
  apply IH. apply (step_keeps_agreement c1 c2 Ha Hs).
Qed.

Lemma loaded_agreement (t0 : Z) : cache_timers_agree (loaded t0).
Proof.
  split; simpl; [constructor|]. intros due k Hin. inversion Hin.
Qed.

Lemma fetches_for_snoc (k : string) (c : client) (r : request)
    (nw : list request) :
  List.filter
    (fun r => is_GET (method (req_config r))
              && bool_decide (getCacheKey (req_endpoint r) (req_config r) = k))
    (nw ++ [r])
  = List.filter
      (fun r => is_GET (method (req_config r))
                && bool_decide (getCacheKey (req_endpoint r) (req_config r) = k))
      nw
    ++ (if is_GET (method (req_config r))
           && bool_decide (getCacheKey (req_endpoint r) (req_config r) = k)
        then [r] else []).
Proof. rewrite List.filter_app. reflexivity. Qed.

(** While the window of [k] is open and its end [D] has not come, a turn of
    the event loop keeps it open and issues no fetch for [k]. *)
Lemma step_keeps_window (k : string) (p : promise) (D : Z) (c c' : client) :
  window_open k p D c -> clock c < D -> step c c' ->
  window_open k p D c' /\ fetches_for k c' = fetches_for k c.
Proof.
  intros [Hc Ht] Hclock Hs. unfold window_open.
  destruct Hs as [endpoint cfg c|dt c _|i due key c Hi Hdue|q o c _ _].
  - unfold apiRequest. destruct (is_GET (method cfg)) eqn:Hg.
    + destruct (decide (getCacheKey endpoint cfg = k)) as [Hk|Hk].
      * rewrite Hk, Hc. simpl. split; [split; assumption | reflexivity].
      * destruct (requestCache c !! getCacheKey endpoint cfg) eqn:Hc';
          simpl; [split; [split; assumption | reflexivity]|].
        split; [split|].
        -- simpl. rewrite lookup_insert_ne by exact Hk. exact Hc.
        -- simpl. intros due Hin. apply elem_of_app in Hin as [Hin|Hin];
             [apply (Ht due Hin)|].
           apply list_elem_of_singleton in Hin. injection Hin as _ Hin.
           congruence.
        -- unfold fetches_for. simpl. rewrite fetches_for_snoc by exact c. simpl.
           rewrite Hg, bool_decide_eq_false_2 by exact Hk. simpl.
           apply app_nil_r.
    + simpl. split; [split; assumption|].
      unfold fetches_for. simpl. rewrite fetches_for_snoc by exact c. simpl.
      rewrite Hg. simpl. apply app_nil_r.
  - split; [split; assumption | reflexivity].
  - assert (key <> k) as Hne.
    { intros ->. assert (D <= due); [|lia].
      apply Ht. apply list_elem_of_lookup. exists i. exact Hi. }
    split; [split | reflexivity]; simpl.
    + rewrite lookup_delete_ne by exact Hne. exact Hc.
    + intros due' Hin. apply (Ht due'). apply (elem_of_delete i), Hin.
  - split; [split; assumption | reflexivity].
Qed.

Lemma steps_keep_window (k : string) (p : promise) (D : Z) (c c' : client) :
  window_open k p D c -> steps c c' -> clock c' < D ->
  window_open k p D c' /\ fetches_for k c' = fetches_for k c.
Proof.
  intros Hw Hs. revert Hw.
  induction Hs as [|c1 c2 c3 Hs Hss IH]; intros Hw Hclock;
    [split; [exact Hw | reflexivity]|].
  pose proof (steps_clock c2 c3 Hss) as Hmono.
  pose proof (step_clock c1 c2 Hs) as Hmono1.
  destruct (step_keeps_window k p D c1 c2 Hw ltac:(lia) Hs) as [Hw2 Hf2].
  destruct (IH Hw2 Hclock) as [Hw3 Hf3].
  split; [exact Hw3 | congruence].
Qed.

(** A [GET] whose key is not cached issues the fetch and opens the window. *)
Lemma apiRequest_miss_opens_window (endpoint : string) (cfg : RequestConfig)
    (c : client) :
  cache_timers_agree c ->
  is_GET (method cfg) = true ->
  requestCache c !! getCacheKey endpoint cfg = None ->
  snd (apiRequest endpoint cfg c) = next_promise c
  /\ window_open (getCacheKey endpoint cfg) (next_promise c)
       (clock c + CACHE_DURATION) (fst (apiRequest endpoint cfg c))
  /\ fetches_for (getCacheKey endpoint cfg) (fst (apiRequest endpoint cfg c))
     = fetches_for (getCacheKey endpoint cfg) c
       ++ [{| req_promise := next_promise c; req_time := clock c;
              req_endpoint := endpoint; req_config := cfg |}].
Proof.
  intros [Hnd Hin] Hg Hc. unfold window_open, apiRequest.
  rewrite Hg, Hc. simpl.
  split; [reflexivity|]. split; [split; simpl|].
  - apply lookup_insert_eq.
  - intros due Ht. apply elem_of_app in Ht as [Ht|Ht].
    + destruct (Hin due _ Ht) as [q Hq]. congruence.
    + apply list_elem_of_singleton in Ht. injection Ht as ->. lia.
  - unfold fetches_for. simpl. rewrite fetches_for_snoc by exact c. simpl.
    rewrite Hg, bool_decide_eq_true_2 by reflexivity. reflexivity.
Qed.

(** Until the window of a key ends, every [GET] for the key is answered from
    the cache. *)
Lemma cached_until_window_end (k : string) (p : promise) (D : Z)
    (c c' : client) (endpoint : string) (cfg : RequestConfig) :
  window_open k p D c -> steps c c' -> clock c' < D ->
  is_GET (method cfg) = true -> getCacheKey endpoint cfg = k ->
  apiRequest endpoint cfg c' = (c', p).
Proof.
  intros Hopen Hsteps Hclock Hg Hk.
  destruct (steps_keep_window k p D c c' Hopen Hsteps Hclock) as [[Hc _] _].
  apply apiRequest_hit; [exact Hg | rewrite Hk; exact Hc].
Qed.

(** Let a first run of the body of [apiRequest] find the key of a [GET] not
    cached, so that it issues the fetch and opens the 5-second window.  Any
    later run for the same method, endpoint and body before the window's end,
    whatever the event loop ran in between, returns the cached promise and
    changes nothing, and between the two exactly one fetch was issued for the
    key, the first run's. *)
Lemma GET_within_window_hits_cache
    (t0 : Z) (c0 c2 : client) (endpoint : string) (cfg1 cfg2 : RequestConfig) :
  steps (loaded t0) c0 ->
  is_GET (method cfg1) = true ->
  is_GET (method cfg2) = true ->
  body cfg1 = body cfg2 ->
  requestCache c0 !! getCacheKey endpoint cfg1 = None ->
  steps (fst (apiRequest endpoint cfg1 c0)) c2 ->
  clock c2 < clock c0 + CACHE_DURATION ->
  snd (apiRequest endpoint cfg1 c0) = next_promise c0
  /\ apiRequest endpoint cfg2 c2 = (c2, next_promise c0)
  /\ requestCache c2 !! getCacheKey endpoint cfg1 = Some (next_promise c0)
  /\ fetches_for (getCacheKey endpoint cfg1) c2
     = fetches_for (getCacheKey endpoint cfg1) c0
       ++ [{| req_promise := next_promise c0;
              req_time := clock c0;
              req_endpoint := endpoint; req_config := cfg1 |}].
Proof.
  intros Hreach Hg1 Hg2 Hbody Hmiss Hsteps Hclock.
  pose proof (steps_keep_agreement _ _ (loaded_agreement t0) Hreach) as Hagree.
  destruct (apiRequest_miss_opens_window endpoint cfg1 c0 Hagree Hg1 Hmiss)
    as (Hp1 & Hopen & Hfetch).
  destruct (steps_keep_window _ _ _ _ _ Hopen Hsteps Hclock) as [[Hc2 _] Hf2].
  pose proof (getCacheKey_GET_body endpoint cfg1 cfg2 Hg1 Hg2 Hbody) as Hkey.
  split; [exact Hp1|]. split.
  - apply apiRequest_hit; [exact Hg2|]. rewrite <- Hkey. exact Hc2.
  - split; [exact Hc2|]. rewrite Hf2, Hfetch. reflexivity.
Qed.

(** *** The promises of the calls *)

Lemma script_step_module (s s' : script) :
  script_step s s' -> step (module_state s) (module_state s').
Proof.
  intros [endpoint config s0|dt s0 Hdt|i due k s0 Ht Hdue|p o s0 Hp Hs]; simpl.
  - unfold async_apiRequest.
    pose proof (step_call endpoint config (module_state s0)) as Hstep.
    destruct (apiRequest endpoint config (module_state s0)) as [c p].
    exact Hstep.
  - apply step_elapse, Hdt.
  - apply (step_timeout i due k _ Ht Hdue).
  - apply (step_settle p o _ Hp Hs).
Qed.

Lemma script_steps_module (s s' : script) :
  script_steps s s' -> steps (module_state s) (module_state s').
Proof.
  induction 1 as [s|s1 s2 s3 Hs _ IH]; [apply steps_refl|].
  apply (steps_cons _ (module_state s2)); [|exact IH].
  apply script_step_module, Hs.
Qed.

(** A call promise keeps the promise it adopted. *)
Lemma script_step_keeps_adopted (a : call_promise) (p : promise)
    (s s' : script) :
  adopted a s = Some p -> script_step s s' -> adopted a s' = Some p.
Proof.
  unfold adopted. intros Ha Hstep.
  destruct Hstep as [endpoint config s|dt s Hdt|i due k s Ht Hdue|q o s Hq Hs];
    simpl; try exact Ha.
  unfold async_apiRequest.
  destruct (apiRequest endpoint config (module_state s)) as [c q]. simpl.
  apply lookup_app_l_Some, Ha.
Qed.

Lemma script_steps_keep_adopted (a : call_promise) (p : promise)
    (s s' : script) :
  adopted a s = Some p -> script_steps s s' -> adopted a s' = Some p.
Proof.
  intros Ha Hs. induction Hs as [s|s1 s2 s3 Hs _ IH]; [exact Ha|].
  apply IH. apply (script_step_keeps_adopted a p s1 s2 Ha Hs).
Qed.

Lemma script_steps_trans (s1 s2 s3 : script) :
  script_steps s1 s2 -> script_steps s2 s3 -> script_steps s1 s3.
Proof.
  intros H12 H23. induction H12 as [s|s1 s2 s2' Hs _ IH]; [exact H23|].
  apply (script_steps_cons _ s2 _ Hs), IH, H23.
Qed.

(** A call records the promise its body returned under the call's own
    promise, which no earlier call has. *)
Lemma async_apiRequest_adopts (endpoint : string) (config : RequestConfig)
    (s : script) :
  adopted (snd (async_apiRequest endpoint config s))
    (fst (async_apiRequest endpoint config s))
  = Some (snd (apiRequest endpoint config (module_state s)))
  /\ module_state (fst (async_apiRequest endpoint config s))
     = fst (apiRequest endpoint config (module_state s))
  /\ snd (async_apiRequest endpoint config s) = length (returned s).
Proof.
  unfold adopted, async_apiRequest.
  destruct (apiRequest endpoint config (module_state s)) as [c p]. simpl.
  split; [|auto]. rewrite lookup_app_r by lia.
  rewrite Nat.sub_diag. reflexivity.
Qed.

Lemma script_step_returned (s s' : script) :
  script_step s s' -> (length (returned s) <= length (returned s'))%nat.
Proof.
  intros [endpoint config s0|dt s0 Hdt|i due k s0 Ht Hdue|q o s0 Hq Hs];
    simpl; try lia.
  unfold async_apiRequest.
  destruct (apiRequest endpoint config (module_state s0)) as [c q]. simpl.
  rewrite length_app. simpl. lia.
Qed.

Lemma script_steps_returned (s s' : script) :
  script_steps s s' -> (length (returned s) <= length (returned s'))%nat.
Proof.
  induction 1 as [s|s1 s2 s3 Hs _ IH]; [lia|].
  pose proof (script_step_returned s1 s2 Hs). lia.
Qed.

(** C10, as stated, fails: [apiRequest] is an [async] function, so each call
    returns a promise of its own.  The storage statistics read twice within
    4999 ms returns two different promises; both adopt the one cached
    promise, and one fetch is issued. *)
Lemma C10_counterexample :
  snd (async_apiRequest "/users/storage" Api.storage_stats_config
         before_second_storage_stats)
  <> snd (async_apiRequest "/users/storage" Api.storage_stats_config
            (script_loaded 0))
  /\ returned (fst (async_apiRequest "/users/storage" Api.storage_stats_config
                      before_second_storage_stats)) = [0%nat; 0%nat]
  /\ length (network (module_state
               (fst (async_apiRequest "/users/storage"
                       Api.storage_stats_config
                       before_second_storage_stats)))) = 1%nat.
Proof. vm_compute. split; [discriminate|]. split; reflexivity. Qed.

(** C10, amended. For a [GET] endpoint, let a first [apiRequest] find its
    key not cached, so that it issues the fetch and opens the 5-second
    window.  Any later [apiRequest] with the same method, endpoint and body
    made before the window's end, whatever the event loop ran in between,
    returns a promise of its own that adopts the same cached promise as the
    promise of the first call, and changes nothing: between the two calls
    exactly one fetch was issued for the key, the first call's, and whatever
    one caller observes of its promise the other observes too. *)
Theorem C10_GET_within_window_adopts_cached_promise
    (t0 : Z) (s0 s2 : script) (endpoint : string) (cfg1 cfg2 : RequestConfig) :
  script_steps (script_loaded t0) s0 ->
  is_GET (method cfg1) = true ->
  is_GET (method cfg2) = true ->
  body cfg1 = body cfg2 ->
  requestCache (module_state s0) !! getCacheKey endpoint cfg1 = None ->
  script_steps (fst (async_apiRequest endpoint cfg1 s0)) s2 ->
  clock (module_state s2) < clock (module_state s0) + CACHE_DURATION ->
  answered_by_one_fetch endpoint cfg1 cfg2 s0 s2.
Proof.
  intros Hreach Hg1 Hg2 Hbody Hmiss Hsteps Hclock.
  destruct (async_apiRequest_adopts endpoint cfg1 s0) as (Had1 & Hm1 & Ha1).
  destruct (async_apiRequest_adopts endpoint cfg2 s2) as (Had2 & Hm2 & Ha2).
  pose proof (script_steps_module _ _ Hreach) as Hreach'.
  pose proof (script_steps_module _ _ Hsteps) as Hsteps'.
  rewrite Hm1 in Hsteps'.
  destruct (GET_within_window_hits_cache t0 (module_state s0) (module_state s2)
              endpoint cfg1 cfg2 Hreach' Hg1 Hg2 Hbody Hmiss Hsteps' Hclock)
    as (Hp1 & Hhit & Hcached & Hfetch).
  rewrite Hp1 in Had1. rewrite Hhit in Had2, Hm2. simpl in Had2, Hm2.
  pose proof (script_steps_returned _ _ Hsteps) as Hlen.
  assert (length (returned (fst (async_apiRequest endpoint cfg1 s0)))
          = S (length (returned s0))) as Hlen1.
  { unfold async_apiRequest.
    destruct (apiRequest endpoint cfg1 (module_state s0)) as [c p]. simpl.
    rewrite length_app. simpl. lia. }
  assert (adopted (snd (async_apiRequest endpoint cfg1 s0))
            (fst (async_apiRequest endpoint cfg2 s2))
          = Some (next_promise (module_state s0))) as Hfirst.
  { apply (script_steps_keep_adopted _ _ _ _ Had1).
    apply (script_steps_trans _ s2); [exact Hsteps|].
    apply (script_steps_cons _ _ _ (script_call endpoint cfg2 s2)),
      script_steps_refl. }
  unfold answered_by_one_fetch. cbv zeta.
  split; [rewrite Ha1, Ha2; lia|].
  split.
  { exists (next_promise (module_state s0)).
    split; [exact Hfirst|]. split; [exact Had2|].
    rewrite Hm2. split; [exact Hcached|exact Hfetch]. }
  split; [exact Hm2|].
  intros s4 Hs4. unfold awaited.
  rewrite (script_steps_keep_adopted _ _ _ _ Hfirst Hs4).
  rewrite (script_steps_keep_adopted _ _ _ _ Had2 Hs4). reflexivity.
Qed.

End RequestCache.

(** The storage-usage read of [userApi.getStorageStats], repeated 4999 ms
    after the first one on a freshly loaded page. *)
Lemma C10_witness :
  answered_by_one_fetch "/users/storage" Api.storage_stats_config
    Api.storage_stats_config (script_loaded 0) before_second_storage_stats.
Proof.
  apply (C10_GET_within_window_adopts_cached_promise 0 (script_loaded 0)
           before_second_storage_stats "/users/storage"
           Api.storage_stats_config Api.storage_stats_config).
  - apply script_steps_refl.
  - reflexivity.
  - reflexivity.
  - reflexivity.
  - reflexivity.
  - apply (script_steps_cons _ before_second_storage_stats);
      [|apply script_steps_refl].
    apply (script_elapse 4999 first_storage_stats). lia.
  - vm_compute. reflexivity.
Defined.

(** ** The sweep *)

Lemma update_files_cases (g : uuid) (set : Files.row -> Files.row)
    (d d' : database) :
  update_files g set d = Ok d' ->
  (select g (files d) = None /\ d' = d)
  \/ exists OLD,
       select g (files d) = Some OLD
       /\ check_files_row (set OLD) d = Ok tt
       /\ in_bigint (live_total (Files.user_id (set OLD))
                       (with_files d (replace_row g (set OLD) (files d)))) = true
       /\ d' = with_users
                 (with_files d (replace_row g (set OLD) (files d)))
                 (set_storage_used (Files.user_id (set OLD))
                    (live_total (Files.user_id (set OLD))
                       (with_files d (replace_row g (set OLD) (files d))))
                    (users d)).
Proof.
  unfold update_files. destruct (select g (files d)) as [OLD|].
  - intros H. right. exists OLD. split; [reflexivity|].
    apply bind_Ok in H as ([] & Hcheck & H).
    apply trigger_effect in H as [Hb ->]. simpl in *. auto.
  - intros [= <-]. left. auto.
Qed.

(** What sweeping one task can do to the store. *)
Lemma sweep_task_cases (now : timestamptz) (t : uuid * ExpiryTasks.row)
    (d : database) :
  Sweeper.sweep_task now t d = d
  \/ exists r d1,
       select (fst t) (expiry_tasks d) = Some r
       /\ ExpiryTasks.is_processed r = Some false
       /\ check_expiry_tasks_row (fst t) (Sweeper.mark_processed now r) d = Ok tt
       /\ d1 = with_expiry_tasks d
                 (replace_row (fst t) (Sweeper.mark_processed now r)
                    (expiry_tasks d))
       /\ (Sweeper.sweep_task now t d = d1
           \/ (ExpiryTasks.task_type (snd t) = "file"
               /\ update_files (ExpiryTasks.target_id (snd t))
                    Sweeper.soft_delete d1
                  = Ok (Sweeper.sweep_task now t d))
           \/ (ExpiryTasks.task_type (snd t) = "share"
               /\ update_shares (ExpiryTasks.target_id (snd t))
                    Sweeper.deactivate d1
                  = Ok (Sweeper.sweep_task now t d))).
Proof.
  unfold Sweeper.sweep_task, Sweeper.claim, Sweeper.conditionalUpdate.
  destruct (select (fst t) (expiry_tasks d)) as [r|] eqn:Hsel; [|left; reflexivity].
  unfold Registry.unprocessed.
  destruct (decide (ExpiryTasks.is_processed r = Some false)) as [Hun|Hun];
    [rewrite bool_decide_eq_true_2 by exact Hun
    |rewrite bool_decide_eq_false_2 by exact Hun; left; reflexivity].
  unfold update_expiry_tasks. rewrite Hsel.
  destruct (check_expiry_tasks_row (fst t) (Sweeper.mark_processed now r) d)
    as [[]|e] eqn:Hcheck; simpl; [|left; reflexivity].
  right. eexists r, _. split; [reflexivity|]. split; [exact Hun|].
  split; [exact Hcheck|]. split; [reflexivity|].
  destruct (decide (ExpiryTasks.task_type (snd t) = "file")) as [Hf|Hf].
  - rewrite bool_decide_eq_true_2 by exact Hf.
    destruct (update_files _ _ _) eqn:Hup; [right; left; auto | left; reflexivity].
  - rewrite bool_decide_eq_false_2 by exact Hf.
    destruct (decide (ExpiryTasks.task_type (snd t) = "share")) as [Hs|Hs].
    + rewrite bool_decide_eq_true_2 by exact Hs.
      destruct (update_shares _ _ _) eqn:Hup;
        [right; right; auto | left; reflexivity].
    + rewrite bool_decide_eq_false_2 by exact Hs. left. reflexivity.
Qed.

Lemma update_files_runs (g : uuid) (set : Files.row -> Files.row)
    (OLD : Files.row) (d : database) :
  select g (files d) = Some OLD ->
  check_files_row (set OLD) d = Ok tt ->
  in_bigint (live_total (Files.user_id (set OLD))
               (with_files d (replace_row g (set OLD) (files d)))) = true ->
  update_files g set d
  = Ok (with_users
          (with_files d (replace_row g (set OLD) (files d)))
          (set_storage_used (Files.user_id (set OLD))
             (live_total (Files.user_id (set OLD))
                (with_files d (replace_row g (set OLD) (files d))))
             (users d))).
Proof.
  intros Hsel Hcheck Hb. unfold update_files. rewrite Hsel, Hcheck. simpl.
  exact (trigger_runs (TG_UPDATE OLD (set OLD)) _ Hb).
Qed.

Lemma update_shares_frame (g : uuid) (set : Shares.row -> Shares.row)
    (d d' : database) :
  update_shares g set d = Ok d' ->
  exists s, d' = with_shares d s.
Proof.
  unfold update_shares. destruct (select g (shares d)) as [OLD|].
  - intros H. committed. injection H as <-. eexists. reflexivity.
  - intros [= <-]. exists (shares d). destruct d; reflexivity.
Qed.

Lemma is_deleted_soft_delete (r : Files.row) :
  Files.is_deleted (Sweeper.soft_delete r) = Some true.
Proof. reflexivity. Qed.

(** Sweeping any task leaves an expired file expired: the sweep only ever
    sets the two flags. *)
Lemma sweep_task_keeps_expired (now : timestamptz) (t : uuid * ExpiryTasks.row)
    (f tk : uuid) (d : database) :
  expired f tk d -> expired f tk (Sweeper.sweep_task now t d).
Proof.
  intros Hexp.
  destruct (sweep_task_cases now t d)
    as [->|(r & d1 & Hsel & Hun & _ & Hd1 & Hcases)]; [exact Hexp|].
  destruct Hexp as [(rf & Hf & Hdel) (rt & Ht & Hproc)].
  assert (fst t <> tk) as Hne by (intros Heq; rewrite Heq in Hsel; congruence).
  assert (expired f tk d1) as Hexp1.
  { subst d1. split; [exists rf; auto|]. exists rt. split; [|exact Hproc].
    simpl. rewrite select_replace_row.
    destruct (N.eqb_spec (fst t) tk); [contradiction | exact Ht]. }
  destruct Hcases as [->|[[_ Hup]|[_ Hup]]]; [exact Hexp1| |].
  - apply update_files_cases in Hup as [[_ ->]|(OLD & Hold & _ & _ & ->)];
      [exact Hexp1|].
    destruct Hexp1 as [(rf1 & Hf1 & Hdel1) Ht1]. split; [|exact Ht1].
    simpl. rewrite select_replace_row.
    destruct (N.eqb_spec (ExpiryTasks.target_id (snd t)) f) as [Heq|_].
    + rewrite Hf1. simpl. eexists. split; [reflexivity|]. reflexivity.
    + exists rf1. auto.
  - apply update_shares_frame in Hup as (s & ->). exact Hexp1.
Qed.

Lemma sweep_cycle_keeps_expired (now : timestamptz) (limit : nat)
    (f tk : uuid) (d : database) :
  expired f tk d -> expired f tk (Sweeper.sweep_cycle now limit d).
Proof.
  unfold Sweeper.sweep_cycle. generalize (Registry.dueTasks now limit d).
  intros batch. revert d.
  induction batch as [|t batch IH]; simpl; intros d Hexp; [exact Hexp|].
  apply IH, sweep_task_keeps_expired, Hexp.
Qed.

Lemma sweep_cycles_keep_expired (cycles : list (timestamptz * nat))
    (f tk : uuid) (d : database) :
  expired f tk d -> expired f tk (sweep_cycles cycles d).
Proof.
  unfold sweep_cycles. revert d.
  induction cycles as [|c cycles IH]; simpl; intros d Hexp; [exact Hexp|].
  apply IH, sweep_cycle_keeps_expired, Hexp.
Qed.

(** Re-sweeping a processed task is a no-op: the claim fails. *)
Lemma sweep_task_processed_noop (now : timestamptz) (tk : uuid)
    (T r : ExpiryTasks.row) (d : database) :
  select tk (expiry_tasks d) = Some r ->
  ExpiryTasks.is_processed r = Some true ->
  Sweeper.sweep_task now (tk, T) d = d.
Proof.
  intros Hsel Hproc.
  unfold Sweeper.sweep_task, Sweeper.claim, Sweeper.conditionalUpdate. simpl.
  rewrite Hsel. unfold Registry.unprocessed.
  rewrite bool_decide_eq_false_2 by congruence. reflexivity.
Qed.

Lemma table_total_nonneg (u : uuid) (t : table Files.row) :
  (forall id r, In (id, r) t -> 0 < Files.size r) -> 0 <= table_total u t.
Proof.
  induction t as [|[k r] t IH]; intros Hpos; [unfold table_total; simpl; lia|].
  rewrite table_total_cons.
  assert (0 <= table_total u t) by (apply IH; intros id r' Hin; apply (Hpos id r'); right; exact Hin).
  assert (0 < Files.size r) by (apply (Hpos k r); left; reflexivity).
  unfold contribution. destruct (_ && _); lia.
Qed.

Lemma contribution_nonneg (u : uuid) (r : Files.row) :
  0 < Files.size r -> 0 <= contribution u r.
Proof. intros Hpos. unfold contribution. destruct (_ && _); lia. Qed.

Lemma contribution_soft_delete (u : uuid) (r : Files.row) :
  contribution u (Sweeper.soft_delete r) = 0.
Proof.
  unfold contribution. simpl.
  destruct (N.eqb (Files.user_id r) u); reflexivity.
Qed.

Section SweepOneFile.
Variables (now : timestamptz) (limit : nat) (f t owner : uuid) (d : database).

Lemma live_total_after_soft_delete (g : uuid) (OLD : Files.row) (u : uuid)
    (v : Z) (dk : database) :
  primary_key (files dk) ->
  select g (files dk) = Some OLD ->
  live_total owner
    (with_users
       (with_files dk (replace_row g (Sweeper.soft_delete OLD) (files dk)))
       (set_storage_used u v (users dk)))
  = live_total owner dk - contribution owner OLD.
Proof.
  intros Hpk Hold. rewrite !live_total_table. simpl.
  rewrite (table_total_replace owner g OLD) by assumption.
  rewrite contribution_soft_delete. lia.
Qed.

(** Claiming another task leaves the stage of file [f] and task [t] as it
    is. *)
Lemma claim_other_keeps_stage (Frow : Files.row) (Trow : ExpiryTasks.row)
    (delta : Z) (i : uuid) (r : ExpiryTasks.row) (dk : database) :
  sweep_stage now limit f t owner Frow Trow delta d dk ->
  i <> t ->
  select i (expiry_tasks dk) = Some r ->
  check_expiry_tasks_row i (Sweeper.mark_processed now r) dk = Ok tt ->
  sweep_stage now limit f t owner Frow Trow delta d
    (with_expiry_tasks dk
       (replace_row i (Sweeper.mark_processed now r) (expiry_tasks dk))).
Proof.
  intros ((Hpk & Htc & Hpos & Hu & Hfo & Hown) & HF & HT & Hle & Heq)
         Hne Hsel Hcheck.
  split; [split; [exact Hpk|split; [|repeat split; assumption]]|].
  - apply (update_keeps_tasks_consistent i (Sweeper.mark_processed now) dk _ Htc).
    unfold update_expiry_tasks. rewrite Hsel, Hcheck. reflexivity.
  - split; [exact HF|]. split; [|split; assumption].
    simpl. rewrite select_replace_row.
    destruct (N.eqb_spec i t); [contradiction | exact HT].
Qed.

(** Soft-deleting a file keeps the frame. *)
Lemma soft_delete_keeps_frame (g : uuid) (OLD : Files.row) (dk : database) :
  sweep_frame owner d dk ->
  select g (files dk) = Some OLD ->
  sweep_frame owner d
    (with_users
       (with_files dk (replace_row g (Sweeper.soft_delete OLD) (files dk)))
       (set_storage_used (Files.user_id OLD)
          (live_total (Files.user_id OLD)
             (with_files dk (replace_row g (Sweeper.soft_delete OLD) (files dk))))
          (users dk))).
Proof.
  intros (Hpk & Htc & Hpos & Hu & Hfo & Hown) Hold.
  assert (0 < Files.size OLD) as Hsize
    by (apply (Hpos g OLD), select_In, Hold).
  split; [|split; [|split; [|split; [|split]]]].
  - unfold primary_key. simpl. rewrite keys_replace_row. exact Hpk.
  - exact Htc.
  - simpl. intros id r Hin.
    apply In_replace_row in Hin as [(_ & -> & _)|(_ & Hin)];
      [exact Hsize | apply (Hpos id r Hin)].
  - simpl. rewrite has_key_set_storage_used. exact Hu.
  - exact Hfo.
  - simpl. intros g' r Hsel. rewrite select_replace_row in Hsel.
    destruct (N.eqb_spec g g') as [<-|_]; [|apply (Hown g' r Hsel)].
    rewrite Hold in Hsel. injection Hsel as <-.
    apply (Hown g OLD Hold).
Qed.

(** The trigger leaves the aggregate of the soft-deleted file's owner exact,
    and an exact aggregate of anyone else exact. *)
Lemma soft_delete_keeps_exact (g : uuid) (OLD : Files.row) (dk : database) :
  primary_key (files dk) ->
  has_key owner (users dk) = true ->
  select g (files dk) = Some OLD ->
  Files.user_id OLD = owner \/ storage_exact owner dk ->
  storage_exact owner
    (with_users
       (with_files dk (replace_row g (Sweeper.soft_delete OLD) (files dk)))
       (set_storage_used (Files.user_id OLD)
          (live_total (Files.user_id OLD)
             (with_files dk (replace_row g (Sweeper.soft_delete OLD) (files dk))))
          (users dk))).
Proof.
  intros Hpk Hu Hold Hcase.
  pose proof (live_total_after_soft_delete g OLD (Files.user_id OLD)
                (live_total (Files.user_id OLD)
                   (with_files dk
                      (replace_row g (Sweeper.soft_delete OLD) (files dk))))
                dk Hpk Hold) as Htot.
  unfold storage_exact. rewrite Htot.
  unfold storage_used_of. simpl. rewrite select_set_storage_used.
  destruct (N.eqb_spec (Files.user_id OLD) owner) as [Heqo|Hneo].
  - apply has_key_select in Hu as (ru & ->). simpl.
    rewrite Heqo, live_total_table. simpl.
    rewrite (table_total_replace owner g OLD) by assumption.
    rewrite contribution_soft_delete, <- live_total_table.
    do 2 f_equal. lia.
  - destruct Hcase as [Heq|Hex]; [contradiction|].
    rewrite contribution_other by exact Hneo. rewrite Z.sub_0_r. exact Hex.
Qed.

(** Sweeping any task leaves an exact aggregate exact. *)
Lemma sweep_task_keeps_exact (tk : uuid * ExpiryTasks.row) (dk : database) :
  primary_key (files dk) ->
  has_key owner (users dk) = true ->
  storage_exact owner dk ->
  storage_exact owner (Sweeper.sweep_task now tk dk).
Proof.
  intros Hpk Hu Hex.
  destruct (sweep_task_cases now tk dk)
    as [->|(r & d1 & _ & _ & _ & Hd1 & Hcases)]; [exact Hex|].
  assert (storage_exact owner d1) as Hex1 by (subst d1; exact Hex).
  destruct Hcases as [->|[[_ Hup]|[_ Hup]]]; [exact Hex1| |].
  - apply update_files_cases in Hup as [[_ ->]|(OLD & Hold & _ & _ & ->)];
      [exact Hex1|].
    apply (soft_delete_keeps_exact (ExpiryTasks.target_id (snd tk)) OLD d1);
      [subst d1; exact Hpk | subst d1; exact Hu | exact Hold
      |right; exact Hex1].
  - apply update_shares_frame in Hup as (s & ->). exact Hex1.
Qed.

(** Soft-deleting another file leaves the stage of file [f] and task [t] as
    it is. *)
Lemma soft_delete_other_keeps_stage (Frow : Files.row) (Trow : ExpiryTasks.row)
    (delta : Z) (g : uuid) (OLD : Files.row) (dk : database) :
  sweep_stage now limit f t owner Frow Trow delta d dk ->
  g <> f ->
  select g (files dk) = Some OLD ->
  (swept_alone now limit f owner d -> Files.user_id OLD <> owner) ->
  sweep_stage now limit f t owner Frow Trow delta d
    (with_users
       (with_files dk (replace_row g (Sweeper.soft_delete OLD) (files dk)))
       (set_storage_used (Files.user_id OLD)
          (live_total (Files.user_id OLD)
             (with_files dk (replace_row g (Sweeper.soft_delete OLD) (files dk))))
          (users dk))).
Proof.
  intros (Hframe & HF & HT & Hle & Heq) Hne Hold Halone.
  pose proof (soft_delete_keeps_frame g OLD dk Hframe Hold) as Hframe'.
  destruct Hframe as (Hpk & _ & Hpos & _).
  pose proof (live_total_after_soft_delete g OLD (Files.user_id OLD)
                (live_total (Files.user_id OLD)
                   (with_files dk
                      (replace_row g (Sweeper.soft_delete OLD) (files dk))))
                dk Hpk Hold) as Htot.
  assert (0 <= contribution owner OLD) as Hcontr.
  { apply contribution_nonneg, (Hpos g OLD), select_In, Hold. }
  split; [exact Hframe'|]. split; [|split; [exact HT|split]].
  - simpl. rewrite select_replace_row.
    destruct (N.eqb_spec g f); [contradiction | exact HF].
  - rewrite Htot. lia.
  - intros Ha. rewrite Htot, (Heq Ha).
    rewrite contribution_other by exact (Halone Ha). lia.
Qed.

(** Sweeping a fetched task other than [t] leaves the stage as it is. *)
Lemma other_task_keeps_stage (Frow : Files.row) (Trow : ExpiryTasks.row)
    (delta : Z) (i : uuid) (T' : ExpiryTasks.row) (dk : database) :
  sweep_stage now limit f t owner Frow Trow delta d dk ->
  In (i, T') (Registry.dueTasks now limit d) ->
  i <> t ->
  (ExpiryTasks.task_type T' = "file" -> ExpiryTasks.target_id T' <> f) ->
  sweep_stage now limit f t owner Frow Trow delta d
    (Sweeper.sweep_task now (i, T') dk).
Proof.
  intros Hst Hin Hne Htarget.
  destruct (sweep_task_cases now (i, T') dk)
    as [->|(r & d1 & Hsel & Hun & Hcheck & Hd1 & Hcases)]; [exact Hst|].
  simpl in Hsel, Hcheck, Hd1, Hcases.
  pose proof (claim_other_keeps_stage Frow Trow delta i r dk Hst Hne Hsel Hcheck)
    as Hst1.
  rewrite <- Hd1 in Hst1.
  destruct Hcases as [->|[[Hfile Hup]|[_ Hup]]]; [exact Hst1| |].
  - apply update_files_cases in Hup as [[_ ->]|(OLD & Hold & _ & _ & ->)];
      [exact Hst1|].
    assert (swept_alone now limit f owner d -> Files.user_id OLD <> owner)
      as Halone.
    { intros Ha.
      destruct Hst1 as ((_ & _ & _ & _ & _ & Hown) & _).
      destruct (Hown _ OLD Hold) as (r0 & Hr0 & ->).
      apply (Ha i T' r0 Hin Hfile (Htarget Hfile) Hr0). }
    exact (soft_delete_other_keeps_stage Frow Trow delta _ OLD d1 Hst1
             (Htarget Hfile) Hold Halone).
  - apply update_shares_frame in Hup as (s & ->). exact Hst1.
Qed.

Lemma in_bigint_between (z : Z) :
  0 <= z -> z <= bigint_max -> in_bigint z = true.
Proof.
  intros H0 Hmax. unfold in_bigint.
  apply andb_true_iff. split; apply Z.leb_le; [|exact Hmax].
  unfold bigint_min. lia.
Qed.

(** The tasks table after sweeping one task: as before, or with the task's
    own row marked. *)
Lemma sweep_task_tasks (tk : uuid * ExpiryTasks.row) (dk : database) :
  expiry_tasks (Sweeper.sweep_task now tk dk) = expiry_tasks dk
  \/ exists r,
       select (fst tk) (expiry_tasks dk) = Some r
       /\ ExpiryTasks.is_processed r = Some false
       /\ expiry_tasks (Sweeper.sweep_task now tk dk)
          = replace_row (fst tk) (Sweeper.mark_processed now r) (expiry_tasks dk).
Proof.
  destruct (sweep_task_cases now tk dk)
    as [->|(r & d1 & Hsel & Hun & _ & Hd1 & Hcases)]; [left; reflexivity|].
  right. exists r. split; [exact Hsel|]. split; [exact Hun|].
  destruct Hcases as [->|[[_ Hup]|[_ Hup]]].
  - rewrite Hd1. reflexivity.
  - apply update_files_cases in Hup as [[_ ->]|(OLD & _ & _ & _ & ->)];
      rewrite Hd1; reflexivity.
  - apply update_shares_frame in Hup as (s & ->). rewrite Hd1. reflexivity.
Qed.

(** The claim of a task goes through exactly when the store takes the
    marked row. *)
Lemma claim_Applied (T : ExpiryTasks.row) (dk : database) :
  select t (expiry_tasks dk) = Some T ->
  (exists d1, Sweeper.claim now t dk = Sweeper.Applied d1) ->
  check_expiry_tasks_row t (Sweeper.mark_processed now T) dk = Ok tt.
Proof.
  intros HT (d1 & Hclaim).
  unfold Sweeper.claim, Sweeper.conditionalUpdate in Hclaim.
  rewrite HT in Hclaim.
  destruct (Registry.unprocessed T); [|discriminate].
  unfold update_expiry_tasks in Hclaim. rewrite HT in Hclaim.
  destruct (check_expiry_tasks_row t (Sweeper.mark_processed now T) dk)
    as [[]|e]; [reflexivity | discriminate].
Qed.

(** While task [t] is pending, sweeping another task leaves the claim of
    [t] open: the row it marks is of another (kind, target) pair. *)
Lemma other_task_keeps_claim (T : ExpiryTasks.row) (i : uuid)
    (T' : ExpiryTasks.row) (dk : database) :
  tasks_consistent (expiry_tasks dk) ->
  select t (expiry_tasks dk) = Some T ->
  ExpiryTasks.is_processed T = Some false ->
  check_expiry_tasks_row t (Sweeper.mark_processed now T) dk = Ok tt ->
  i <> t ->
  check_expiry_tasks_row t (Sweeper.mark_processed now T)
    (Sweeper.sweep_task now (i, T') dk) = Ok tt.
Proof.
  intros (_ & _ & Huniq) HT Hun Hclaim Hne.
  unfold check_expiry_tasks_row in *. committed.
  match goal with Hk : task_type_ok _ = true |- _ => rewrite Hk end. simpl.
  pose proof (proj1 (no_collision_spec _ _ _ _) Hclaim) as Hnc.
  assert (no_collision unique_unprocessed_task t
            (Sweeper.mark_processed now T)
            (expiry_tasks (Sweeper.sweep_task now (i, T') dk)) = true) as ->;
    [|reflexivity].
  apply no_collision_spec. intros j r' Hin Hj.
  destruct (sweep_task_tasks (i, T') dk) as [Heq|(r & Hsel & Hunr & Heq)];
    rewrite Heq in Hin; [apply (Hnc j r' Hin Hj)|].
  simpl in Hsel, Hin.
  apply In_replace_row in Hin as [(-> & -> & _)|(_ & Hin)];
    [|apply (Hnc j r' Hin Hj)].
  destruct (unique_unprocessed_task (Sweeper.mark_processed now T)
              (Sweeper.mark_processed now r)) eqn:Hc; [exfalso|reflexivity].
  unfold unique_unprocessed_task in Hc. simpl in Hc.
  apply andb_true_iff in Hc as [Hc _].
  apply andb_true_iff in Hc as [Hk Htarget].
  apply bool_decide_eq_true in Hk. apply N.eqb_eq in Htarget.
  apply Hne.
  apply (Huniq i t r T (select_In _ _ _ Hsel) (select_In _ _ _ HT)).
  apply (same_triple_collide false); congruence.
Qed.

(** Sweeping the pending task of file [f] when its claim is open: the claim
    goes through, the file is soft-deleted and the trigger leaves the
    owner's aggregate exact, what the file added to the exact sum taken
    off. *)
Lemma own_task_reaches_done (F : Files.row) (T : ExpiryTasks.row)
    (dk : database) :
  sweep_stage now limit f t owner F T 0 d dk ->
  check_expiry_tasks_row t (Sweeper.mark_processed now T) dk = Ok tt ->
  Files.user_id F = owner ->
  check_files_row F d = Ok tt ->
  ExpiryTasks.task_type T = "file" ->
  ExpiryTasks.target_id T = f ->
  ExpiryTasks.is_processed T = Some false ->
  live_total owner d <= bigint_max ->
  sweep_stage now limit f t owner (Sweeper.soft_delete F)
    (Sweeper.mark_processed now T) (contribution owner F) d
    (Sweeper.sweep_task now (t, T) dk)
  /\ storage_exact owner (Sweeper.sweep_task now (t, T) dk).
Proof.
  intros (Hframe & HF & HT & Hle & Heq) Hclaim Hown HcheckF Hty Htg Hun Hmax.
  pose proof Hframe as (Hpk & Htc & Hpos & Hu & Hfo & Howners).
  (* the constraints of the soft-deleted row *)
  assert (check_files_row (Sweeper.soft_delete F)
            (with_expiry_tasks dk
               (replace_row t (Sweeper.mark_processed now T) (expiry_tasks dk)))
          = Ok tt) as HcheckF'.
  { unfold check_files_row in *. simpl. committed.
    change (positive_file_size (Sweeper.soft_delete F))
      with (positive_file_size F).
    rewrite Hown, Hu, Hfo.
    repeat match goal with H : _ = true |- _ => rewrite H end. reflexivity. }
  assert (0 < Files.size F) as Hsize by (apply (Hpos f F), select_In, HF).
  pose proof (contribution_nonneg owner F Hsize) as Hcontr.
  assert (forall X : database,
            files X = replace_row f (Sweeper.soft_delete F) (files dk) ->
            live_total owner X = live_total owner dk - contribution owner F)
    as Htot.
  { intros X HX. rewrite !live_total_table, HX.
    rewrite (table_total_replace owner f F) by assumption.
    rewrite contribution_soft_delete. lia. }
  assert (in_bigint
            (live_total owner
               (with_files dk (replace_row f (Sweeper.soft_delete F) (files dk))))
          = true) as Hrange.
  { apply in_bigint_between.
    - rewrite live_total_table. apply table_total_nonneg. simpl.
      intros id r Hin.
      apply In_replace_row in Hin as [(_ & -> & _)|(_ & Hin)];
        [exact Hsize | apply (Hpos id r Hin)].
    - rewrite Htot by reflexivity. lia. }
  (* what the sweep of the task computes *)
  assert (Sweeper.sweep_task now (t, T) dk
          = with_users
              (with_files
                 (with_expiry_tasks dk
                    (replace_row t (Sweeper.mark_processed now T)
                       (expiry_tasks dk)))
                 (replace_row f (Sweeper.soft_delete F) (files dk)))
              (set_storage_used owner
                 (live_total owner
                    (with_files dk
                       (replace_row f (Sweeper.soft_delete F) (files dk))))
                 (users dk))) as ->.
  { unfold Sweeper.sweep_task, Sweeper.claim, Sweeper.conditionalUpdate. simpl.
    rewrite HT. unfold Registry.unprocessed.
    rewrite bool_decide_eq_true_2 by exact Hun.
    unfold update_expiry_tasks. rewrite HT, Hclaim. simpl.
    rewrite bool_decide_eq_true_2 by exact Hty. rewrite Htg.
    rewrite (update_files_runs f Sweeper.soft_delete F); simpl;
      [rewrite Hown; reflexivity | exact HF | exact HcheckF'
      |rewrite Hown; exact Hrange]. }
  (* the stage reached *)
  assert (sweep_frame owner d
            (with_expiry_tasks dk
               (replace_row t (Sweeper.mark_processed now T) (expiry_tasks dk))))
    as Hframe1.
  { split; [exact Hpk|]. split; [|repeat split; assumption].
    apply (update_keeps_tasks_consistent t (Sweeper.mark_processed now) dk _ Htc).
    unfold update_expiry_tasks. rewrite HT, Hclaim. reflexivity. }
  pose proof (soft_delete_keeps_frame f F _ Hframe1 HF) as Hframe2.
  pose proof (soft_delete_keeps_exact f F
                (with_expiry_tasks dk
                   (replace_row t (Sweeper.mark_processed now T)
                      (expiry_tasks dk)))
                Hpk Hu HF (or_introl Hown)) as Hexact2.
  rewrite Hown in Hframe2, Hexact2.
  split; [|exact Hexact2].
  split; [exact Hframe2|]. split; [|split; [|split]].
  - simpl. rewrite select_replace_row, N.eqb_refl, HF. reflexivity.
  - simpl. rewrite select_replace_row, N.eqb_refl, HT. reflexivity.
  - rewrite Htot by reflexivity. lia.
  - intros Ha. rewrite Htot by reflexivity; rewrite (Heq Ha). lia.
Qed.

End SweepOneFile.

Lemma primary_key_filter {R} (keep : uuid * R -> bool) (t : table R) :
  primary_key t -> primary_key (List.filter keep t).
Proof.
  unfold primary_key.
  induction t as [|[k r] t IH]; simpl; [intros; constructor|].
  intros Hnd. apply NoDup_cons in Hnd as [Hk Hnd].
  destruct (keep (k, r)); [|apply IH, Hnd].
  simpl. apply NoDup_cons. split; [|apply IH, Hnd].
  intros Hin. apply Hk. apply list_elem_of_In in Hin. apply list_elem_of_In.
  apply in_map_iff in Hin as ([k1 r1] & Hk1 & Hin). simpl in Hk1. subst k1.
  apply filter_In in Hin as [Hin _]. apply (key_In k r1 t Hin).
Qed.

Lemma dueTasks_primary_key (now : timestamptz) (limit : nat) (d : database) :
  primary_key (expiry_tasks d) -> primary_key (Registry.dueTasks now limit d).
Proof.
  intros Hpk. unfold Registry.dueTasks, primary_key.
  apply (sublist_NoDup _
           (map fst (merge_sort Registry.due_order
                       (List.filter (Registry.due now) (expiry_tasks d))))).
  - assert (map fst (merge_sort Registry.due_order
                       (List.filter (Registry.due now) (expiry_tasks d)))
            ≡ₚ map fst (List.filter (Registry.due now) (expiry_tasks d))) as ->.
    { apply Permutation_map, merge_sort_Permutation. }
    apply (primary_key_filter _ _ Hpk).
  - apply (fmap_sublist fst), sublist_take.
Qed.

Lemma split_at_key {R} (k : uuid) (r : R) (l : table R) :
  primary_key l -> In (k, r) l ->
  exists l1 l2, l = l1 ++ (k, r) :: l2
                /\ (forall j r', In (j, r') l1 -> j <> k)
                /\ (forall j r', In (j, r') l2 -> j <> k).
Proof.
  intros Hpk Hin. apply in_split in Hin as (l1 & l2 & ->).
  exists l1, l2. split; [reflexivity|].
  unfold primary_key in Hpk. rewrite map_app in Hpk. simpl in Hpk.
  apply NoDup_app in Hpk as (_ & Hdisj & Hnd).
  apply NoDup_cons in Hnd as [Hk _].
  split; intros j r' Hj ->.
  - apply (Hdisj k); [|left].
    apply list_elem_of_In. apply (key_In k r' l1 Hj).
  - apply Hk. apply list_elem_of_In. apply (key_In k r' l2 Hj).
Qed.

Section SweepCycle.
Variables (now : timestamptz) (limit : nat) (f t owner : uuid) (d : database).
Variables (F : Files.row) (T : ExpiryTasks.row).
Hypothesis Hconsistent : tasks_consistent (expiry_tasks d).
Hypothesis HT : select t (expiry_tasks d) = Some T.
Hypothesis Hty : ExpiryTasks.task_type T = "file".
Hypothesis Htg : ExpiryTasks.target_id T = f.
Hypothesis Hun : ExpiryTasks.is_processed T = Some false.

(** A fetched task other than [t] is not a file task of [f]: the table holds
    one unprocessed task per target. *)
Lemma fetched_other_targets_other (i : uuid) (T' : ExpiryTasks.row) :
  In (i, T') (Registry.dueTasks now limit d) ->
  i <> t ->
  ExpiryTasks.task_type T' = "file" -> ExpiryTasks.target_id T' <> f.
Proof.
  intros Hin Hne Hfile Htarget.
  apply In_dueTasks in Hin as (Hin & Hun' & _).
  destruct Hconsistent as (_ & _ & Huniq).
  apply Hne. apply (Huniq i t T' T Hin (select_In _ _ _ HT)).
  apply (same_triple_collide false); congruence.
Qed.

Lemma others_keep_pending (l : list (uuid * ExpiryTasks.row)) (dk : database) :
  (forall i T', In (i, T') l ->
     In (i, T') (Registry.dueTasks now limit d) /\ i <> t) ->
  sweep_stage now limit f t owner F T 0 d dk ->
  check_expiry_tasks_row t (Sweeper.mark_processed now T) dk = Ok tt ->
  sweep_stage now limit f t owner F T 0 d
    (foldl (fun d' x => Sweeper.sweep_task now x d') dk l)
  /\ check_expiry_tasks_row t (Sweeper.mark_processed now T)
       (foldl (fun d' x => Sweeper.sweep_task now x d') dk l) = Ok tt.
Proof.
  revert dk. induction l as [|[i T'] l IH]; simpl; intros dk Hl Hst Hclaim;
    [split; assumption|].
  destruct (Hl i T' (or_introl eq_refl)) as [Hin Hne].
  apply IH.
  - intros j T'' Hj. apply Hl. right. exact Hj.
  - apply other_task_keeps_stage; try assumption.
    apply (fetched_other_targets_other i T' Hin Hne).
  - destruct Hst as ((_ & Htc & _) & _ & HTk & _).
    apply (other_task_keeps_claim now t T i T' dk); assumption.
Qed.

Lemma others_keep_done (Frow : Files.row) (Trow : ExpiryTasks.row) (delta : Z)
    (l : list (uuid * ExpiryTasks.row)) (dk : database) :
  (forall i T', In (i, T') l ->
     In (i, T') (Registry.dueTasks now limit d) /\ i <> t) ->
  sweep_stage now limit f t owner Frow Trow delta d dk ->
  storage_exact owner dk ->
  sweep_stage now limit f t owner Frow Trow delta d
    (foldl (fun d' x => Sweeper.sweep_task now x d') dk l)
  /\ storage_exact owner (foldl (fun d' x => Sweeper.sweep_task now x d') dk l).
Proof.
  revert dk. induction l as [|[i T'] l IH]; simpl; intros dk Hl Hst Hex;
    [split; assumption|].
  destruct (Hl i T' (or_introl eq_refl)) as [Hin Hne].
  apply IH.
  - intros j T'' Hj. apply Hl. right. exact Hj.
  - apply other_task_keeps_stage; try assumption.
    apply (fetched_other_targets_other i T' Hin Hne).
  - destruct Hst as ((Hpk & _ & _ & Hu & _) & _).
    apply sweep_task_keeps_exact; assumption.
Qed.

End SweepCycle.

Lemma storage_exact_in_range (u : uuid) (d : database) :
  store_consistent d -> storage_exact u d -> live_total u d <= bigint_max.
Proof.
  intros (_ & _ & _ & Htyped) Hex. unfold storage_exact, storage_used_of in Hex.
  destruct (select u (users d)) as [r|] eqn:Hsel; [|discriminate].
  simpl in Hex. injection Hex as Hex.
  pose proof (Htyped u r _ Hsel Hex) as Hb. unfold in_bigint in Hb.
  apply andb_true_iff in Hb as [_ Hb]. apply Z.leb_le in Hb. exact Hb.
Qed.

Lemma checked_row_facts (r : Files.row) (d : database) :
  check_files_row r d = Ok tt ->
  0 < Files.size r /\ has_key (Files.user_id r) (users d) = true.
Proof.
  unfold check_files_row. intros H. committed.
  split; [apply Z.ltb_lt|]; assumption.
Qed.

Lemma tasks_consistentb_sound (t : table ExpiryTasks.row) :
  tasks_consistentb t = true -> tasks_consistent t.
Proof.
  unfold tasks_consistentb. intros H.
  apply andb_true_iff in H as [H Huniq]. apply andb_true_iff in H as [Hpk Hty].
  apply bool_decide_eq_true in Hpk.
  rewrite forallb_forall in Hty. rewrite forallb_forall in Huniq.
  split; [exact Hpk|]. split.
  - intros i r Hin. apply (Hty (i, r) Hin).
  - intros i j r r' Hi Hj Hc.
    destruct (N.eq_dec j i) as [->|Hne]; [reflexivity|].
    pose proof (Huniq (i, r) Hi) as Hnc. simpl in Hnc.
    rewrite no_collision_spec in Hnc. rewrite (Hnc j r' Hj Hne) in Hc.
    discriminate.
Qed.

Lemma store_consistentb_sound (d : database) :
  store_consistentb d = true -> store_consistent d.
Proof.
  unfold store_consistentb. intros H.
  apply andb_true_iff in H as [H Htyped]. apply andb_true_iff in H as [H Htc].
  apply andb_true_iff in H as [Hpk Hrows].
  apply bool_decide_eq_true in Hpk.
  rewrite forallb_forall in Hrows. rewrite forallb_forall in Htyped.
  split; [exact Hpk|]. split; [|split; [apply tasks_consistentb_sound, Htc|]].
  - intros id r Hin. specialize (Hrows (id, r) Hin). simpl in Hrows.
    destruct (check_files_row r d) as [[]|]; [reflexivity | discriminate].
  - intros u r v Hsel Hv. specialize (Htyped (u, r) (select_In _ _ _ Hsel)).
    simpl in Htyped. rewrite Hv in Htyped. exact Htyped.
Qed.

(** The spec's scenario: one second before the expiration the sweep does
    nothing; one second after it the file is deleted, the task processed and
    the owner's aggregate down from 1000 to 0. *)
Lemma sweep_scenario_file_A :
  Sweeper.sweep_cycle 499 10 file_A_expiring = file_A_expiring
  /\ Sweeper.sweep_cycle 501 10 file_A_expiring
     = {| users := [(1%N, {| Users.storage_used := Some 0;
                             Users.storage_limit := Some 5368709120 |});
                    (2%N, new_user)];
          folders := [];
          files := [(10%N, Sweeper.soft_delete (new_file 1%N 1000 (Some 500)))];
          shares := [];
          expiry_tasks :=
            [(100%N, Sweeper.mark_processed 501 (new_task "file" 10%N 500))] |}.
Proof. split; vm_compute; reflexivity. Qed.

(** ** The store's constraints and the accounting invariant along scripts *)

Lemma check_files_row_frame (r : Files.row) (d d' : database) :
  (forall k, has_key k (users d') = has_key k (users d)) ->
  (forall k, has_key k (folders d) = true -> has_key k (folders d') = true) ->
  check_files_row r d = Ok tt -> check_files_row r d' = Ok tt.
Proof.
  intros Hu Hf H. unfold check_files_row in *. committed.
  rewrite Hu.
  assert (references (Files.folder_id r) (folders d') = true) as ->.
  { unfold references in *. destruct (Files.folder_id r); [apply Hf|]; assumption. }
  repeat match goal with Hb : _ = true |- _ => rewrite Hb end. reflexivity.
Qed.

Lemma users_typed_after_recompute (k : uuid) (v : Z) (t : table Users.row) :
  in_bigint v = true ->
  (forall u r w, select u t = Some r -> Users.storage_used r = Some w ->
                 in_bigint w = true) ->
  forall u r w, select u (set_storage_used k v t) = Some r ->
                Users.storage_used r = Some w -> in_bigint w = true.
Proof.
  intros Hv Htyped u r w Hsel Hw. rewrite select_set_storage_used in Hsel.
  destruct (N.eqb k u); [|apply (Htyped u r w Hsel Hw)].
  destruct (select u t) as [r0|]; [|discriminate].
  simpl in Hsel. injection Hsel as <-. simpl in Hw. congruence.
Qed.

Lemma has_key_app {R} (k : uuid) (t1 t2 : table R) :
  has_key k t1 = true -> has_key k (t1 ++ t2) = true.
Proof.
  unfold has_key. rewrite select_app.
  destruct (select k t1); [reflexivity | discriminate].
Qed.

(** Every statement that commits keeps the constraints of the store. *)
Lemma execute_keeps_store_consistent (st : statement) (d d' : database) :
  store_consistent d -> execute st d = Ok d' -> store_consistent d'.
Proof.
  intros Hcons Hex.
  pose proof (execute_keeps_tasks_consistent st d d') as Htasks.
  pose proof Hcons as (Hpk & Hrows & Htc & Htyped).
  specialize (Htasks Htc Hex).
  destruct st; simpl in Hex.
  - (* INSERT INTO files *)
    unfold insert_into_files in Hex. committed.
    match goal with Hk : negb _ = true |- _ => apply negb_true_iff in Hk end.
    match goal with Hu : check_files_row r d = Ok ?u |- _ => destruct u end.
    apply trigger_effect in Hex as [Hb ->].
    split; [simpl; apply primary_key_insert; assumption|].
    split; [|split; [exact Htasks|]].
    + simpl. intros i r0 Hin.
      apply (check_files_row_frame r0 d);
        [intros k; apply has_key_set_storage_used | auto |].
      apply in_app_or in Hin as [Hin|[[= <- <-]|[]]];
        [apply (Hrows i r0 Hin) | assumption].
    + simpl. apply users_typed_after_recompute; assumption.
  - (* UPDATE files *)
    unfold update_files in Hex.
    destruct (select id (files d)) as [OLD|] eqn:Hsel;
      [|injection Hex as <-; exact Hcons].
    committed.
    match goal with Hu : check_files_row _ d = Ok ?u |- _ => destruct u end.
    apply trigger_effect in Hex as [Hb ->].
    split; [unfold primary_key; simpl; rewrite keys_replace_row; exact Hpk|].
    split; [|split; [exact Htasks|]].
    + simpl. intros i r0 Hin.
      apply (check_files_row_frame r0 d);
        [intros k; apply has_key_set_storage_used | auto |].
      apply In_replace_row in Hin as [(_ & -> & _)|(_ & Hin)];
        [assumption | apply (Hrows i r0 Hin)].
    + simpl. apply users_typed_after_recompute; assumption.
  - (* DELETE FROM files *)
    unfold delete_from_files in Hex.
    destruct (select id (files d)) as [OLD|] eqn:Hsel;
      [|injection Hex as <-; exact Hcons].
    apply trigger_effect in Hex as [Hb ->].
    split; [simpl; apply primary_key_remove_row, Hpk|].
    split; [|split; [exact Htasks|]].
    + simpl. intros i r0 Hin. apply In_remove_row in Hin as [Hin _].
      apply (check_files_row_frame r0 d);
        [intros k; apply has_key_set_storage_used | auto |].
      apply (Hrows i r0 Hin).
    + simpl. apply users_typed_after_recompute; assumption.
  - (* INSERT INTO folders *)
    unfold insert_into_folders in Hex. committed. injection Hex as <-.
    split; [exact Hpk|]. split; [|split; [exact Htasks | exact Htyped]].
    simpl. intros i r0 Hin.
    apply (check_files_row_frame r0 d); [reflexivity | | apply (Hrows i r0 Hin)].
    simpl. intros k. apply has_key_app.
  - unfold insert_into_shares in Hex. committed. injection Hex as <-.
    split; [exact Hpk|]. split; [exact Hrows|]. split; assumption.
  - unfold update_shares in Hex. destruct (select id (shares d));
      [|injection Hex as <-; exact Hcons].
    committed. injection Hex as <-.
    split; [exact Hpk|]. split; [exact Hrows|]. split; assumption.
  - unfold delete_from_shares in Hex. injection Hex as <-.
    split; [exact Hpk|]. split; [exact Hrows|]. split; assumption.
  - unfold insert_into_expiry_tasks in Hex. committed. injection Hex as <-.
    split; [exact Hpk|]. split; [exact Hrows|]. split; assumption.
  - unfold update_expiry_tasks in Hex.
    destruct (select id (expiry_tasks d));
      [|injection Hex as <-; exact Hcons].
    committed. injection Hex as <-.
    split; [exact Hpk|]. split; [exact Hrows|]. split; assumption.
  - unfold delete_from_expiry_tasks in Hex. injection Hex as <-.
    split; [exact Hpk|]. split; [exact Hrows|]. split; assumption.
Qed.

Lemma reachable_store_consistent (d0 d : database) :
  store_consistent d0 -> reachable d0 d -> store_consistent d.
Proof.
  intros H0 Hr. induction Hr as [|d st d' Hr IH Hex]; [exact H0|].
  apply (execute_keeps_store_consistent st d d' IH Hex).
Qed.

(** ** The exact totals along scripts *)

(** Every statement that commits keeps each user's exact total within
    [BIGINT]: the trigger stores the total of the row's owner, which the
    column type bounds, and no other total grows. *)
Lemma execute_keeps_totals_in_range (st : statement) (d d' : database) :
  store_consistent d ->
  (forall u, live_total u d <= bigint_max) ->
  execute st d = Ok d' ->
  forall u, live_total u d' <= bigint_max.
Proof.
  intros Hcons Hmax Hex u.
  pose proof Hcons as (Hpk & Hrows & _ & _).
  pose proof (Hmax u) as Hu. rewrite live_total_table in Hu.
  assert (forall v X, in_bigint (live_total v X) = true ->
                      live_total v X <= bigint_max) as Hin.
  { intros v X Hb. unfold in_bigint in Hb.
    apply andb_true_iff in Hb as [_ Hb]. apply Z.leb_le, Hb. }
  destruct st; simpl in Hex.
  - unfold insert_into_files in Hex. committed.
    apply trigger_effect in Hex as [Hb ->]. simpl in Hb.
    destruct (N.eq_dec (Files.user_id r) u) as [<-|Hne];
      [apply (Hin _ _ Hb)|].
    rewrite live_total_table. simpl.
    rewrite table_total_app, table_total_cons.
    rewrite contribution_other by exact Hne.
    change (table_total u []) with 0. lia.
  - unfold update_files in Hex.
    destruct (select id (files d)) as [OLD|] eqn:Hsel;
      [|injection Hex as <-; apply Hmax].
    committed. apply trigger_effect in Hex as [Hb ->]. simpl in Hb.
    destruct (N.eq_dec (Files.user_id (set OLD)) u) as [<-|Hne];
      [apply (Hin _ _ Hb)|].
    rewrite live_total_table. simpl.
    rewrite (table_total_replace u id OLD) by assumption.
    rewrite (contribution_other u (set OLD)) by exact Hne.
    assert (0 <= contribution u OLD).
    { apply contribution_nonneg.
      apply (checked_row_facts OLD d (Hrows id OLD (select_In _ _ _ Hsel))). }
    lia.
  - unfold delete_from_files in Hex.
    destruct (select id (files d)) as [OLD|] eqn:Hsel;
      [|injection Hex as <-; apply Hmax].
    apply trigger_effect in Hex as [Hb ->].
    rewrite live_total_table. simpl.
    rewrite (table_total_remove u id OLD) by assumption.
    assert (0 <= contribution u OLD).
    { apply contribution_nonneg.
      apply (checked_row_facts OLD d (Hrows id OLD (select_In _ _ _ Hsel))). }
    lia.
  - unfold insert_into_folders in Hex. committed. injection Hex as <-.
    apply Hmax.
  - unfold insert_into_shares in Hex. committed. injection Hex as <-.
    apply Hmax.
  - unfold update_shares in Hex. destruct (select id (shares d));
      [|injection Hex as <-; apply Hmax].
    committed. injection Hex as <-. apply Hmax.
  - unfold delete_from_shares in Hex. injection Hex as <-. apply Hmax.
  - unfold insert_into_expiry_tasks in Hex. committed. injection Hex as <-.
    apply Hmax.
  - unfold update_expiry_tasks in Hex.
    destruct (select id (expiry_tasks d));
      [|injection Hex as <-; apply Hmax].
    committed. injection Hex as <-. apply Hmax.
  - unfold delete_from_expiry_tasks in Hex. injection Hex as <-. apply Hmax.
Qed.

Lemma reachable_totals_in_range (d0 d : database) :
  store_consistent d0 -> files d0 = [] -> reachable d0 d ->
  forall u, live_total u d <= bigint_max.
Proof.
  intros H0 Hempty Hr.
  assert (store_consistent d /\ forall u, live_total u d <= bigint_max)
    as [_ H]; [|exact H].
  induction Hr as [|d st d' Hr [IHc IH] Hex].
  - split; [exact H0|]. intros u. rewrite live_total_table, Hempty.
    change (table_total u []) with 0. unfold bigint_max. lia.
  - split.
    + apply (execute_keeps_store_consistent st d d' IHc Hex).
    + apply (execute_keeps_totals_in_range st d d' IHc IH Hex).
Qed.

(** ** One sweep cycle *)

(** Before the expiration nothing happens to the file: a sweep cycle whose
    [now] is earlier than the due instant of the file's pending task leaves
    the file and the task as they are. *)
Lemma sweep_cycle_before_expiry
    (now : timestamptz) (limit : nat) (f t : uuid)
    (F : Files.row) (T : ExpiryTasks.row) (d : database) :
  store_consistent d ->
  select f (files d) = Some F ->
  select t (expiry_tasks d) = Some T ->
  ExpiryTasks.task_type T = "file" ->
  ExpiryTasks.target_id T = f ->
  ExpiryTasks.is_processed T = Some false ->
  storage_exact (Files.user_id F) d ->
  now < ExpiryTasks.expires_at T ->
  select f (files (Sweeper.sweep_cycle now limit d)) = Some F
  /\ select t (expiry_tasks (Sweeper.sweep_cycle now limit d)) = Some T
  /\ storage_exact (Files.user_id F) (Sweeper.sweep_cycle now limit d).
Proof.
  intros Hcons HF HT Hty Htg Hun Hexact Hearly.
  pose proof Hcons as (Hpk & Hrows & Htc & Htyped).
  pose proof (Hrows f F (select_In _ _ _ HF)) as HcheckF.
  destruct (checked_row_facts F d HcheckF) as [_ Hu].
  assert (sweep_stage now limit f t (Files.user_id F) F T 0 d d) as Hstart.
  { split; [|split; [exact HF|split; [exact HT|split; [lia|intros _; lia]]]].
    split; [exact Hpk|]. split; [exact Htc|]. split.
    { intros id r Hin. apply (checked_row_facts r d (Hrows id r Hin)). }
    split; [exact Hu|]. split; [reflexivity|].
    intros g r Hsel. exists r. auto. }
  assert (forall i T', In (i, T') (Registry.dueTasks now limit d) ->
            In (i, T') (Registry.dueTasks now limit d) /\ i <> t) as Hbatch.
  { intros i T' Hin. split; [exact Hin|]. intros ->.
    apply In_dueTasks in Hin as (Hin & _ & Hdue).
    destruct Htc as (Htpk & _).
    rewrite (same_key_same_row _ t T' T Htpk Hin (select_In _ _ _ HT)) in Hdue.
    lia. }
  destruct (others_keep_done now limit f t (Files.user_id F) d T
              Htc HT Hty Htg Hun F T 0 _ d Hbatch Hstart Hexact)
    as [(_ & HF' & HT' & _) Hex].
  unfold Sweeper.sweep_cycle. auto.
Qed.

Lemma scenarios_reachable :
  reachable two_users file_A_expiring
  /\ reachable two_users two_files_due
  /\ reachable two_users two_files_one_owner
  /\ reachable two_users file_with_history
  /\ reachable two_users already_deleted
  /\ reachable two_users stale_owner.
Proof.
  repeat split.
  - apply (reachable_run file_A_expiring_script two_users two_users);
      [apply reachable_start | vm_compute; reflexivity].
  - apply (reachable_run two_files_due_script two_users two_users);
      [apply reachable_start | vm_compute; reflexivity].
  - apply (reachable_run two_files_one_owner_script two_users two_users);
      [apply reachable_start | vm_compute; reflexivity].
  - apply (reachable_run file_with_history_script two_users two_users);
      [apply reachable_start | vm_compute; reflexivity].
  - apply (reachable_run already_deleted_script two_users two_users);
      [apply reachable_start | vm_compute; reflexivity].
  - apply (reachable_run stale_owner_script two_users two_users);
      [apply reachable_start | vm_compute; reflexivity].
Qed.

(** C3, as stated, fails, in a store filled by committed statements.  A
    cycle capped at one task leaves the second due file undeleted although
    [now] is past its expiration.  A cycle that sweeps two files of one
    owner lowers the aggregate by both sizes, not by the size of either
    file.  A file its owner had soft-deleted before the expiration takes
    nothing off the aggregate.  An aggregate left too high by an earlier
    change of owner goes down by more than the file's size.  And a pending
    task whose file has a processed task from an earlier expiration cannot
    be claimed, so the cycle skips it and the file stays undeleted. *)
Lemma C3_counterexample :
  ~ (forall now limit d0 d f F E,
       store_consistent d0 -> files d0 = [] -> reachable d0 d ->
       select f (files d) = Some F ->
       Files.expires_at F = Some E ->
       E <= now ->
       (Files.is_deleted <$> select f (files (Sweeper.sweep_cycle now limit d)))
       = Some (Some true))
  /\ (reachable two_users two_files_due
      /\ (Files.is_deleted
            <$> select 11%N (files (Sweeper.sweep_cycle 600 1 two_files_due)))
         = Some (Some false))
  /\ (reachable two_users two_files_one_owner
      /\ storage_used_of 1%N two_files_one_owner = Some (Some 1500)
      /\ storage_used_of 1%N (Sweeper.sweep_cycle 600 5 two_files_one_owner)
         = Some (Some 0)
      /\ (Files.size <$> select 10%N (files two_files_one_owner)) = Some 1000)
  /\ (reachable two_users already_deleted
      /\ (Files.size <$> select 10%N (files already_deleted)) = Some 1000
      /\ storage_used_of 1%N already_deleted = Some (Some 0)
      /\ storage_used_of 1%N (Sweeper.sweep_cycle 600 5 already_deleted)
         = Some (Some 0))
  /\ (reachable two_users stale_owner
      /\ (Files.size <$> select 12%N (files stale_owner)) = Some 500
      /\ storage_used_of 1%N stale_owner = Some (Some 1500)
      /\ storage_used_of 1%N (Sweeper.sweep_cycle 600 5 stale_owner)
         = Some (Some 0))
  /\ (reachable two_users file_with_history
      /\ Sweeper.sweep_cycle 600 5 file_with_history = file_with_history
      /\ (Files.is_deleted <$> select 10%N (files file_with_history))
         = Some (Some false)
      /\ Sweeper.claim 600 100%N file_with_history
         = Sweeper.Failed (Sweeper.ConstraintViolation unique_violation)).
Proof.
  destruct scenarios_reachable as (_ & Hr1 & Hr2 & Hr3 & Hr4 & Hr5).
  assert ((Files.is_deleted
             <$> select 11%N (files (Sweeper.sweep_cycle 600 1 two_files_due)))
          = Some (Some false)) as Hcap by (vm_compute; reflexivity).
  split; [|split; [split; [exact Hr1|exact Hcap]|]].
  - intros Hall.
    specialize (Hall 600 1%nat two_users two_files_due 11%N
                  (new_file 2%N 2000 (Some 500)) 500).
    rewrite Hcap in Hall.
    assert (Some (Some false) = Some (Some true)) as Habs; [|discriminate].
    apply Hall; [|reflexivity|exact Hr1|reflexivity|reflexivity|lia].
    apply store_consistentb_sound. vm_compute. reflexivity.
  - split; [split; [exact Hr2|repeat split; vm_compute; reflexivity]|].
    split; [split; [exact Hr4|repeat split; vm_compute; reflexivity]|].
    split; [split; [exact Hr5|repeat split; vm_compute; reflexivity]|].
    split; [exact Hr3|repeat split; vm_compute; reflexivity].
Qed.

(** C3, amended. In a store filled by committed statements, take a file
    whose expiration instant is the due instant of its pending task, and a
    sweep cycle that fetches the task (so [now] is at or past the
    expiration, and the task is among the cycle's first [limit] due tasks)
    and whose claim of the task succeeds.  After the cycle the file's
    [is_deleted] is true, the task's [is_processed] is true, and the owner's
    [storage_used] is the exact sum of the owner's remaining files.  If the
    file was not deleted before, that sum is lower than the exact sum before
    the cycle by at least the file's size, and by exactly the file's size
    when the cycle sweeps no other file of that owner; [storage_used] has
    then decreased by the file's size if it was exact before the cycle.
    Whatever sweep cycles follow, the file stays deleted and the task
    processed, and re-sweeping the task changes nothing. *)
Theorem C3_sweep_cycle_expires_fetched_file
    (now : timestamptz) (limit : nat) (f t : uuid)
    (F : Files.row) (T : ExpiryTasks.row) (d0 d : database) :
  store_consistent d0 ->
  files d0 = [] ->
  reachable d0 d ->
  select f (files d) = Some F ->
  Files.expires_at F = Some (ExpiryTasks.expires_at T) ->
  select t (expiry_tasks d) = Some T ->
  ExpiryTasks.task_type T = "file" ->
  ExpiryTasks.target_id T = f ->
  In (t, T) (Registry.dueTasks now limit d) ->
  (exists d1, Sweeper.claim now t d = Sweeper.Applied d1) ->
  ExpiryTasks.expires_at T <= now
  /\ (Files.is_deleted <$> select f (files (Sweeper.sweep_cycle now limit d)))
     = Some (Some true)
  /\ (ExpiryTasks.is_processed
        <$> select t (expiry_tasks (Sweeper.sweep_cycle now limit d)))
     = Some (Some true)
  /\ storage_exact (Files.user_id F) (Sweeper.sweep_cycle now limit d)
  /\ (Files.is_deleted F = Some false ->
      live_total (Files.user_id F) (Sweeper.sweep_cycle now limit d)
      <= live_total (Files.user_id F) d - Files.size F)
  /\ (Files.is_deleted F = Some false ->
      swept_alone now limit f (Files.user_id F) d ->
      live_total (Files.user_id F) (Sweeper.sweep_cycle now limit d)
      = live_total (Files.user_id F) d - Files.size F)
  /\ (Files.is_deleted F = Some false ->
      swept_alone now limit f (Files.user_id F) d ->
      forall v, storage_used_of (Files.user_id F) d = Some (Some v) ->
        storage_exact (Files.user_id F) d ->
        storage_used_of (Files.user_id F) (Sweeper.sweep_cycle now limit d)
        = Some (Some (v - Files.size F)))
  /\ (forall cycles,
        expired f t (sweep_cycles cycles (Sweeper.sweep_cycle now limit d)))
  /\ (forall cycles now' T',
        Sweeper.sweep_task now' (t, T')
          (sweep_cycles cycles (Sweeper.sweep_cycle now limit d))
        = sweep_cycles cycles (Sweeper.sweep_cycle now limit d)).
Proof.
  intros Hcons0 Hempty Hreach HF _ HT Hty Htg Hfetched Hclaim.
  pose proof (reachable_store_consistent d0 d Hcons0 Hreach) as Hcons.
  pose proof (reachable_totals_in_range d0 d Hcons0 Hempty Hreach
                (Files.user_id F)) as Hmax.
  pose proof Hcons as (Hpk & Hrows & Htc & Htyped).
  pose proof (Hrows f F (select_In _ _ _ HF)) as HcheckF.
  destruct (checked_row_facts F d HcheckF) as [_ Hu].
  assert (ExpiryTasks.is_processed T = Some false) as Hun
    by (apply In_dueTasks in Hfetched; tauto).
  pose proof (claim_Applied now t T d HT Hclaim) as Hopen.
  assert (Files.is_deleted F = Some false ->
          contribution (Files.user_id F) F = Files.size F) as Hlive
    by apply contribution_live.
  set (owner := Files.user_id F) in *.
  (* the stage at the start of the cycle *)
  assert (sweep_stage now limit f t owner F T 0 d d) as Hstart.
  { split; [|split; [exact HF|split; [exact HT|split; [lia|intros _; lia]]]].
    split; [exact Hpk|]. split; [exact Htc|]. split.
    { intros id r Hin. apply (checked_row_facts r d (Hrows id r Hin)). }
    split; [exact Hu|]. split; [reflexivity|].
    intros g r Hsel. exists r. auto. }
  (* the batch around the task *)
  destruct Htc as (Htpk & _).
  destruct (split_at_key t T (Registry.dueTasks now limit d)
              (dueTasks_primary_key now limit d Htpk) Hfetched)
    as (l1 & l2 & Hbatch & Hl1 & Hl2).
  assert (forall i T', In (i, T') l1 ->
            In (i, T') (Registry.dueTasks now limit d) /\ i <> t) as Hl1'.
  { intros i T' Hin. split; [|apply (Hl1 i T' Hin)].
    rewrite Hbatch. apply in_or_app. left. exact Hin. }
  assert (forall i T', In (i, T') l2 ->
            In (i, T') (Registry.dueTasks now limit d) /\ i <> t) as Hl2'.
  { intros i T' Hin. split; [|apply (Hl2 i T' Hin)].
    rewrite Hbatch. apply in_or_app. right. right. exact Hin. }
  destruct Hcons as (_ & _ & Htc & _).
  destruct (others_keep_pending now limit f t owner d F T Htc HT Hty Htg Hun
              l1 d Hl1' Hstart Hopen) as [Hpending Hopen1].
  destruct (own_task_reaches_done now limit f t owner d F T _ Hpending Hopen1
              eq_refl HcheckF Hty Htg Hun Hmax) as [Hdone Hexact1].
  destruct (others_keep_done now limit f t owner d T Htc HT Hty Htg Hun
              _ _ _ l2 _ Hl2' Hdone Hexact1) as [Hend Hex'].
  assert (Sweeper.sweep_cycle now limit d
          = foldl (fun d' x => Sweeper.sweep_task now x d')
              (Sweeper.sweep_task now (t, T)
                 (foldl (fun d' x => Sweeper.sweep_task now x d') d l1)) l2)
    as Hcycle.
  { unfold Sweeper.sweep_cycle. rewrite Hbatch, foldl_app. reflexivity. }
  rewrite <- Hcycle in Hend, Hex'.
  destruct Hend as (_ & HF' & HT' & Hle' & Heq').
  assert (expired f t (Sweeper.sweep_cycle now limit d)) as Hexpired.
  { split; eexists; split; try eassumption; reflexivity. }
  split; [apply In_dueTasks in Hfetched; tauto|].
  split; [rewrite HF'; reflexivity|].
  split; [rewrite HT'; reflexivity|].
  split; [exact Hex'|].
  split; [intros Hl; rewrite <- (Hlive Hl); exact Hle'|].
  split; [intros Hl Ha; rewrite <- (Hlive Hl); exact (Heq' Ha)|].
  split.
  { intros Hl Ha v Hv Hexact. unfold storage_exact in Hexact.
    rewrite Hv in Hexact. injection Hexact as ->.
    rewrite Hex', (Heq' Ha), (Hlive Hl). reflexivity. }
  split.
  - intros cycles. apply sweep_cycles_keep_expired, Hexpired.
  - intros cycles now' T'.
    destruct (sweep_cycles_keep_expired cycles f t _ Hexpired)
      as [_ (r & Hr & Hproc)].
    apply (sweep_task_processed_noop now' t T' r _ Hr Hproc).
Qed.

(** The spec's scenario, file A of 1000 bytes swept one second after its
    expiration. *)
Lemma C3_witness :
  500 <= 501
  /\ (Files.is_deleted
        <$> select 10%N (files (Sweeper.sweep_cycle 501 10 file_A_expiring)))
     = Some (Some true)
  /\ (ExpiryTasks.is_processed
        <$> select 100%N
              (expiry_tasks (Sweeper.sweep_cycle 501 10 file_A_expiring)))
     = Some (Some true)
  /\ storage_exact 1%N (Sweeper.sweep_cycle 501 10 file_A_expiring)
  /\ (Files.is_deleted (new_file 1%N 1000 (Some 500)) = Some false ->
      live_total 1%N (Sweeper.sweep_cycle 501 10 file_A_expiring)
      <= live_total 1%N file_A_expiring - 1000)
  /\ (Files.is_deleted (new_file 1%N 1000 (Some 500)) = Some false ->
      swept_alone 501 10 10%N 1%N file_A_expiring ->
      live_total 1%N (Sweeper.sweep_cycle 501 10 file_A_expiring)
      = live_total 1%N file_A_expiring - 1000)
  /\ (Files.is_deleted (new_file 1%N 1000 (Some 500)) = Some false ->
      swept_alone 501 10 10%N 1%N file_A_expiring ->
      forall v, storage_used_of 1%N file_A_expiring = Some (Some v) ->
        storage_exact 1%N file_A_expiring ->
        storage_used_of 1%N (Sweeper.sweep_cycle 501 10 file_A_expiring)
        = Some (Some (v - 1000)))
  /\ (forall cycles,
        expired 10%N 100%N
          (sweep_cycles cycles (Sweeper.sweep_cycle 501 10 file_A_expiring)))
  /\ (forall cycles now' T',
        Sweeper.sweep_task now' (100%N, T')
          (sweep_cycles cycles (Sweeper.sweep_cycle 501 10 file_A_expiring))
        = sweep_cycles cycles (Sweeper.sweep_cycle 501 10 file_A_expiring)).
Proof.
  apply (C3_sweep_cycle_expires_fetched_file 501 10 10%N 100%N
           (new_file 1%N 1000 (Some 500)) (new_task "file" 10%N 500)
           two_users file_A_expiring).
  - apply store_consistentb_sound. vm_compute. reflexivity.
  - reflexivity.
  - apply (reachable_run file_A_expiring_script two_users two_users);
      [apply reachable_start | vm_compute; reflexivity].
  - reflexivity.
  - reflexivity.
  - reflexivity.
  - reflexivity.
  - reflexivity.
  - vm_compute. left. reflexivity.
  - eexists. vm_compute. reflexivity.
Defined.

Lemma storage_exact_frame (u : uuid) (d d' : database) :
  storage_used_of u d' = storage_used_of u d ->
  live_total u d' = live_total u d ->
  storage_exact u d -> storage_exact u d'.
Proof. unfold storage_exact. intros -> ->. auto. Qed.

(** The accounting invariant, for every user at once: a statement that does
    not hand a file to another user takes a consistent store in which every
    aggregate is exact to one in which every aggregate is exact. *)
Lemma execute_keeps_all_exact (st : statement) (d d' : database) :
  store_consistent d -> all_exact d -> keeps_owner st d ->
  execute st d = Ok d' -> all_exact d'.
Proof.
  intros (Hpk & Hrows & _ & _) Hall Hkeep Hex u Hu.
  destruct st; simpl in Hex, Hkeep.
  - (* INSERT INTO files *)
    destruct (N.eq_dec (Files.user_id r) u) as [<-|Hne];
      [apply (insert_recomputes_owner id r d d' Hex)|].
    unfold insert_into_files in Hex. committed.
    apply trigger_effect in Hex as [_ ->].
    simpl in Hu. rewrite has_key_set_storage_used in Hu.
    apply (storage_exact_frame u d); [| |apply (Hall u Hu)].
    + unfold storage_used_of. simpl. rewrite select_set_storage_used.
      destruct (N.eqb_spec (Files.user_id r) u); [contradiction | reflexivity].
    + rewrite !live_total_table. simpl.
      rewrite table_total_app, table_total_cons.
      rewrite contribution_other by exact Hne. unfold table_total. simpl. lia.
  - (* UPDATE files *)
    unfold update_files in Hex.
    destruct (select id (files d)) as [OLD|] eqn:Hsel;
      [|injection Hex as <-; apply (Hall u Hu)].
    specialize (Hkeep OLD eq_refl).
    destruct (N.eq_dec (Files.user_id (set OLD)) u) as [<-|Hne].
    { apply (update_recomputes_new_owner id set OLD d d' Hsel).
      unfold update_files. rewrite Hsel. exact Hex. }
    committed. apply trigger_effect in Hex as [_ ->].
    simpl in Hu. rewrite has_key_set_storage_used in Hu.
    apply (storage_exact_frame u d); [| |apply (Hall u Hu)].
    + unfold storage_used_of. simpl. rewrite select_set_storage_used.
      destruct (N.eqb_spec (Files.user_id (set OLD)) u);
        [contradiction | reflexivity].
    + rewrite !live_total_table. simpl.
      rewrite (table_total_replace u id OLD) by assumption.
      rewrite (contribution_other u (set OLD)) by exact Hne.
      rewrite (contribution_other u OLD) by (rewrite <- Hkeep; exact Hne). lia.
  - (* DELETE FROM files *)
    unfold delete_from_files in Hex.
    destruct (select id (files d)) as [OLD|] eqn:Hsel;
      [|injection Hex as <-; apply (Hall u Hu)].
    destruct (N.eq_dec (Files.user_id OLD) u) as [<-|Hne].
    { apply (delete_recomputes_owner id OLD d d' Hsel).
      - apply (checked_row_facts OLD d), (Hrows id OLD), select_In, Hsel.
      - unfold delete_from_files. rewrite Hsel. exact Hex. }
    apply trigger_effect in Hex as [_ ->].
    simpl in Hu. rewrite has_key_set_storage_used in Hu.
    apply (storage_exact_frame u d); [| |apply (Hall u Hu)].
    + unfold storage_used_of. simpl. rewrite select_set_storage_used.
      destruct (N.eqb_spec (Files.user_id OLD) u); [contradiction | reflexivity].
    + rewrite !live_total_table. simpl.
      rewrite (table_total_remove u id OLD) by assumption.
      rewrite (contribution_other u OLD) by exact Hne. lia.
  - unfold insert_into_folders in Hex. committed. injection Hex as <-.
    apply (Hall u Hu).
  - unfold insert_into_shares in Hex. committed. injection Hex as <-.
    apply (Hall u Hu).
  - unfold update_shares in Hex. destruct (select id (shares d));
      [|injection Hex as <-; apply (Hall u Hu)].
    committed. injection Hex as <-. apply (Hall u Hu).
  - unfold delete_from_shares in Hex. injection Hex as <-. apply (Hall u Hu).
  - unfold insert_into_expiry_tasks in Hex. committed. injection Hex as <-.
    apply (Hall u Hu).
  - unfold update_expiry_tasks in Hex.
    destruct (select id (expiry_tasks d));
      [|injection Hex as <-; apply (Hall u Hu)].
    committed. injection Hex as <-. apply (Hall u Hu).
  - unfold delete_from_expiry_tasks in Hex. injection Hex as <-.
    apply (Hall u Hu).
Qed.

(** When the batch limit covers every due task, every due task is fetched. *)
Lemma fetched_within_limit (now : timestamptz) (limit : nat) (t : uuid)
    (T : ExpiryTasks.row) (d : database) :
  In (t, T) (expiry_tasks d) ->
  ExpiryTasks.is_processed T = Some false ->
  ExpiryTasks.expires_at T <= now ->
  (length (List.filter (Registry.due now) (expiry_tasks d)) <= limit)%nat ->
  In (t, T) (Registry.dueTasks now limit d).
Proof.
  intros Hin Hun Hdue Hlen. unfold Registry.dueTasks.
  rewrite take_ge.
  - apply list_elem_of_In. rewrite merge_sort_Permutation.
    apply list_elem_of_In. apply In_due. auto.
  - rewrite (Permutation_length
               (merge_sort_Permutation Registry.due_order
                  (List.filter (Registry.due now) (expiry_tasks d)))).
    exact Hlen.
Qed.

(** * Further facts: the rest of the migration and of the client *)

(** ** The accounting trigger along scripts *)

Lemma owner_preserving_keeps_owner (st : statement) (d : database) :
  owner_preserving st -> keeps_owner st d.
Proof. destruct st; simpl; auto. Qed.

(** X1. A script none of whose statements assigns [files.user_id], run on a
    store that satisfies its constraints and in which every user's
    [storage_used] is exact, ends, if it commits, in a store that still
    satisfies its constraints and in which every user's [storage_used] is
    the exact sum of the sizes of that user's non-deleted files. *)
Theorem X1_scripts_without_owner_change_keep_aggregates_exact
    (script : list statement) (d d' : database) :
  Forall owner_preserving script ->
  store_consistent d ->
  all_exact d ->
  run script d = Ok d' ->
  all_exact d' /\ store_consistent d'.
Proof.
  intros Hscript. revert d.
  induction Hscript as [|st script Hst _ IH]; simpl; intros d Hcons Hall Hrun.
  - injection Hrun as <-. split; assumption.
  - apply bind_Ok in Hrun as (d1 & Hex & Hrun).
    apply (IH d1); [| |exact Hrun].
    + apply (execute_keeps_store_consistent st d d1 Hcons Hex).
    + apply (execute_keeps_all_exact st d d1 Hcons Hall); [|exact Hex].
      apply owner_preserving_keeps_owner, Hst.
Qed.

Lemma two_users_all_exact : all_exact two_users.
Proof.
  intros u Hu. apply has_key_select in Hu as (r & Hr). apply select_In in Hr.
  destruct Hr as [[= <- <-]|[[= <- <-]|[]]]; reflexivity.
Qed.

(** The life of file 10 brings [two_users] back to itself. *)
Lemma X1_witness : all_exact two_users /\ store_consistent two_users.
Proof.
  apply (X1_scripts_without_owner_change_keep_aggregates_exact
           life_of_a_file two_users two_users).
  - repeat constructor.
  - apply store_consistentb_sound. vm_compute. reflexivity.
  - exact two_users_all_exact.
  - vm_compute. reflexivity.
Defined.

Lemma remove_row_app {R} (k : uuid) (t1 t2 : table R) :
  remove_row k (t1 ++ t2) = remove_row k t1 ++ remove_row k t2.
Proof.
  induction t1 as [|[k' r'] t1 IH]; simpl; [reflexivity|].
  destruct (N.eqb k' k); simpl; rewrite IH; reflexivity.
Qed.

Lemma remove_row_insert_fresh {R} (k : uuid) (r : R) (t : table R) :
  has_key k t = false -> remove_row k (t ++ [(k, r)]) = t.
Proof.
  intros Hk. rewrite remove_row_app.
  rewrite (remove_row_absent k t) by (apply has_key_false, Hk).
  simpl. rewrite N.eqb_refl. apply app_nil_r.
Qed.

Lemma select_insert_fresh {R} (k : uuid) (r : R) (t : table R) :
  has_key k t = false -> select k (t ++ [(k, r)]) = Some r.
Proof.
  unfold has_key. intros Hk. rewrite select_app.
  destruct (select k t); [discriminate|]. simpl. rewrite N.eqb_refl. reflexivity.
Qed.

Lemma cascade_shares_none (id : uuid) (t : table Shares.row) :
  (forall i s, In (i, s) t -> Shares.file_id s <> id) ->
  cascade_shares id t = t.
Proof.
  unfold cascade_shares. induction t as [|[i s] t IH]; simpl; [reflexivity|].
  intros Hno. destruct (N.eqb_spec (Shares.file_id s) id) as [Heq|_]; simpl.
  - exfalso. apply (Hno i s); [left; reflexivity | exact Heq].
  - rewrite IH; [reflexivity|]. intros j s' Hin. apply (Hno j s'). right. exact Hin.
Qed.

Lemma set_storage_used_twice (k : uuid) (v v' : Z) (t : table Users.row) :
  set_storage_used k v (set_storage_used k v' t) = set_storage_used k v t.
Proof.
  induction t as [|[k' r'] t IH]; simpl; [reflexivity|].
  rewrite IH. destruct (N.eqb k' k) eqn:Hk; simpl; rewrite Hk; reflexivity.
Qed.

Lemma set_storage_used_absent (k : uuid) (v : Z) (t : table Users.row) :
  ~ In k (map fst t) -> set_storage_used k v t = t.
Proof.
  induction t as [|[k' r'] t IH]; simpl; [reflexivity|].
  intros Hk. destruct (N.eqb_spec k' k) as [->|_]; [tauto|].
  rewrite IH; [reflexivity | tauto].
Qed.

Lemma set_storage_used_same (k : uuid) (v : Z) (t : table Users.row)
    (r : Users.row) :
  primary_key t -> select k t = Some r -> Users.storage_used r = Some v ->
  set_storage_used k v t = t.
Proof.
  unfold primary_key. induction t as [|[k' r'] t IH]; simpl; [discriminate|].
  intros Hnd Hsel Hv. apply NoDup_cons in Hnd as [Hk Hnd].
  destruct (N.eqb_spec k' k) as [->|Hne].
  - injection Hsel as ->. rewrite set_storage_used_absent.
    + destruct r as [used lim]. simpl in Hv. subst used. reflexivity.
    + intros Hin. apply Hk, list_elem_of_In, Hin.
  - rewrite IH by assumption. reflexivity.
Qed.

Lemma database_eta (d : database) :
  {| users := users d; folders := folders d; files := files d;
     shares := shares d; expiry_tasks := expiry_tasks d |} = d.
Proof. destruct d; reflexivity. Qed.

Lemma delete_from_files_runs (id : uuid) (OLD : Files.row) (d : database) :
  select id (files d) = Some OLD ->
  in_bigint (live_total (Files.user_id OLD)
               (with_files d (remove_row id (files d)))) = true ->
  delete_from_files id d
  = Ok (with_users
          (with_shares (with_files d (remove_row id (files d)))
             (cascade_shares id (shares d)))
          (set_storage_used (Files.user_id OLD)
             (live_total (Files.user_id OLD)
                (with_files d (remove_row id (files d))))
             (users d))).
Proof.
  intros Hsel Hb. unfold delete_from_files. rewrite Hsel.
  exact (trigger_runs (TG_DELETE OLD)
           (with_shares (with_files d (remove_row id (files d)))
              (cascade_shares id (shares d))) Hb).
Qed.

Lemma insert_into_files_runs (id : uuid) (r : Files.row) (d : database) :
  has_key id (files d) = false ->
  check_files_row r d = Ok tt ->
  in_bigint (live_total (Files.user_id r)
               (with_files d (files d ++ [(id, r)]))) = true ->
  insert_into_files id r d
  = Ok (with_users
          (with_files d (files d ++ [(id, r)]))
          (set_storage_used (Files.user_id r)
             (live_total (Files.user_id r)
                (with_files d (files d ++ [(id, r)])))
             (users d))).
Proof.
  intros Hfresh Hcheck Hb. unfold insert_into_files.
  rewrite Hfresh, Hcheck. simpl.
  exact (trigger_runs (TG_INSERT r) _ Hb).
Qed.

(** Upload and removal are a round trip on the rows.  In a store that
    satisfies its constraints, with the owner's aggregate exact, an [INSERT]
    of a file followed by the [DELETE] of that file commits and gives back
    the tables the [INSERT] started from: the trigger's second recompute
    undoes the first, and no share is lost to the cascade. *)
Lemma insert_then_delete_restores_rows
    (id : uuid) (r : Files.row) (d d1 : database) :
  primary_key (users d) ->
  store_consistent d ->
  shares_reference_files d ->
  storage_exact (Files.user_id r) d ->
  insert_into_files id r d = Ok d1 ->
  delete_from_files id d1 = Ok d.
Proof.
  intros Hupk (_ & _ & _ & Htyped) Hfk Hexact Hins.
  unfold insert_into_files in Hins. committed.
  match goal with Hk : negb _ = true |- _ => apply negb_true_iff in Hk;
    rename Hk into Hfresh end.
  apply trigger_effect in Hins as [_ ->].
  unfold storage_exact, storage_used_of in Hexact.
  destruct (select (Files.user_id r) (users d)) as [urow|] eqn:Hu;
    [|discriminate].
  simpl in Hexact. injection Hexact as Hused.
  pose proof (Htyped _ _ _ Hu Hused) as Hrange.
  assert (live_total (Files.user_id r) d = table_total (Files.user_id r) (files d))
    as Htot by reflexivity.
  rewrite (delete_from_files_runs id r); simpl.
  - rewrite (remove_row_insert_fresh id r (files d) Hfresh).
    rewrite (cascade_shares_none id (shares d)).
    2:{ intros i s Hin Heq. pose proof (Hfk i s Hin) as Hkey.
        rewrite Heq in Hkey. congruence. }
    f_equal. unfold with_users, with_shares, with_files. simpl.
    rewrite set_storage_used_twice.
    match goal with
    | |- context [set_storage_used ?u (live_total ?u ?X) (users d)] =>
        change (live_total u X) with (live_total u d)
    end.
    rewrite (set_storage_used_same _ _ _ urow Hupk Hu Hused).
    apply database_eta.
  - apply select_insert_fresh, Hfresh.
  - rewrite (remove_row_insert_fresh id r (files d) Hfresh). exact Hrange.
Qed.

Lemma replace_row_twice {R} (k : uuid) (a b : R) (t : table R) :
  replace_row k b (replace_row k a t) = replace_row k b t.
Proof.
  induction t as [|[k' r] t IH]; simpl; [reflexivity|].
  destruct (N.eqb k' k) eqn:Hk; simpl; rewrite Hk, IH; reflexivity.
Qed.

(** X2. Upload and removal are a round trip but for one column.  In a store
    that satisfies its constraints, with the owner's aggregate exact, an
    [INSERT] of a file followed by the [DELETE] of that file commits and
    gives back the tables the [INSERT] started from, [storage_used]
    included: the trigger's second recompute undoes the first, and no share
    is lost to the cascade.  What is not restored is [updated_at] of the
    owner's row in [users]: each of the two recomputes is an [UPDATE users],
    whose [BEFORE UPDATE] trigger sets the column to [NOW()], so it holds
    the instant of the [DELETE]. *)
Theorem X2_insert_then_delete_restores_all_but_updated_at
    (now1 now2 : timestamptz) (id : uuid) (r : Files.row) (s s1 : stamped) :
  primary_key (users (rows s)) ->
  store_consistent (rows s) ->
  shares_reference_files (rows s) ->
  storage_exact (Files.user_id r) (rows s) ->
  execute_at now1 (INSERT_INTO_files id r) s = Ok s1 ->
  execute_at now2 (DELETE_FROM_files id) s1
  = Ok {| rows := rows s;
          users_updated_at :=
            update_updated_at_column now2 (Files.user_id r)
              (users_updated_at s) |}.
Proof.
  intros Hupk Hcons Hfk Hexact Hins.
  unfold execute_at in Hins. apply bind_Ok in Hins as (d1 & Hex & Hins).
  injection Hins as <-.
  change (insert_into_files id r (rows s) = Ok d1) in Hex.
  pose proof (insert_then_delete_restores_rows id r (rows s) d1
                Hupk Hcons Hfk Hexact Hex) as Hdel.
  assert (select id (files d1) = Some r) as Hsel.
  { unfold insert_into_files in Hex. committed.
    match goal with Hk : negb _ = true |- _ => apply negb_true_iff in Hk;
      rename Hk into Hfresh end.
    apply trigger_effect in Hex as [_ ->]. simpl.
    apply select_insert_fresh, Hfresh. }
  unfold execute_at. cbn [rows users_updated_at execute fired].
  rewrite Hdel, Hsel. unfold update_updated_at_column. simpl.
  rewrite replace_row_twice. reflexivity.
Qed.

(** The upload to [two_users] at instant 10 and its removal at instant 20:
    the tables are those of [two_users], and the row of user 1 was last
    updated at 20. *)
Lemma X2_witness :
  execute_at 20 (DELETE_FROM_files 10%N)
    {| rows := after_upload; users_updated_at := [(1%N, 10); (2%N, 5)] |}
  = Ok {| rows := two_users; users_updated_at := [(1%N, 20); (2%N, 5)] |}.
Proof.
  apply (X2_insert_then_delete_restores_all_but_updated_at 10 20
           10%N (new_file 1%N 1000 None) two_users_stamped
           {| rows := after_upload;
              users_updated_at := [(1%N, 10); (2%N, 5)] |}).
  - apply (bool_decide_unpack _). vm_compute. exact I.
  - apply store_consistentb_sound. vm_compute. reflexivity.
  - intros i s [].
  - reflexivity.
  - vm_compute. reflexivity.
Defined.

(** X3. An [UPDATE] of a file that keeps its owner, on a store where the
    owner's aggregate is exact, moves [storage_used] by exactly what the row
    counted for after the update less what it counted for before: the size of
    a row whose [is_deleted] is false, nothing otherwise.  So a soft delete
    takes the size off, a restore puts it back and a resize changes the
    aggregate by the difference. *)
Theorem X3_update_moves_aggregate_by_difference
    (id : uuid) (set : Files.row -> Files.row) (OLD : Files.row)
    (d d' : database) :
  primary_key (files d) ->
  select id (files d) = Some OLD ->
  Files.user_id (set OLD) = Files.user_id OLD ->
  storage_exact (Files.user_id OLD) d ->
  update_files id set d = Ok d' ->
  storage_used_of (Files.user_id OLD) d'
  = Some (Some (live_total (Files.user_id OLD) d
                - contribution (Files.user_id OLD) OLD
                + contribution (Files.user_id OLD) (set OLD)))
  /\ select id (files d') = Some (set OLD).
Proof.
  intros Hpk Hsel Hkeep Hexact Hupd.
  pose proof (update_recomputes_new_owner id set OLD d d' Hsel Hupd) as Hnew.
  rewrite Hkeep in Hnew. unfold storage_exact in Hnew. rewrite Hnew.
  apply update_files_cases in Hupd as [[Hnone _]|(OLD' & Hsel' & _ & _ & ->)];
    [congruence|].
  rewrite Hsel in Hsel'. injection Hsel' as <-.
  split.
  - rewrite !live_total_table. simpl.
    rewrite (table_total_replace _ id OLD) by assumption. reflexivity.
  - simpl. rewrite select_replace_row, N.eqb_refl, Hsel. reflexivity.
Qed.

(** Resizing the upload of [after_upload] from 1000 to 2500 bytes. *)
Lemma X3_witness :
  storage_used_of 1%N
    (with_users (with_files after_upload [(10%N, new_file 1%N 2500 None)])
       [(1%N, {| Users.storage_used := Some 2500;
                 Users.storage_limit := Some 5368709120 |});
        (2%N, new_user)])
  = Some (Some (live_total 1%N after_upload
                - contribution 1%N (new_file 1%N 1000 None)
                + contribution 1%N (set_size 2500 (new_file 1%N 1000 None))))
  /\ select 10%N
       (files
          (with_users (with_files after_upload [(10%N, new_file 1%N 2500 None)])
             [(1%N, {| Users.storage_used := Some 2500;
                       Users.storage_limit := Some 5368709120 |});
              (2%N, new_user)]))
     = Some (set_size 2500 (new_file 1%N 1000 None)).
Proof.
  apply (X3_update_moves_aggregate_by_difference 10%N (set_size 2500)
           (new_file 1%N 1000 None) after_upload).
  - apply (bool_decide_unpack _). vm_compute. exact I.
  - reflexivity.
  - reflexivity.
  - reflexivity.
  - vm_compute. reflexivity.
Defined.

(** X4. Whether an [INSERT] of a valid file row commits is decided by the
    [BIGINT] range of the owner's new total alone; [storage_limit] is never
    consulted.  If the new total fits, the row is stored, [storage_used]
    becomes the new total and [storage_limit] stays as it was, also when the
    new total is above the limit; if it does not fit, the statement raises
    [numeric_value_out_of_range]. *)
Theorem X4_insert_bounded_by_bigint_not_by_storage_limit
    (id : uuid) (r : Files.row) (d : database) :
  has_key id (files d) = false ->
  check_files_row r d = Ok tt ->
  if in_bigint (live_total (Files.user_id r) d
                + contribution (Files.user_id r) r)
  then exists d',
         insert_into_files id r d = Ok d'
         /\ select id (files d') = Some r
         /\ storage_used_of (Files.user_id r) d'
            = Some (Some (live_total (Files.user_id r) d
                          + contribution (Files.user_id r) r))
         /\ storage_limit_of (Files.user_id r) d'
            = storage_limit_of (Files.user_id r) d
  else insert_into_files id r d = Err numeric_value_out_of_range.
Proof.
  intros Hfresh Hcheck.
  assert (live_total (Files.user_id r) (with_files d (files d ++ [(id, r)]))
          = live_total (Files.user_id r) d + contribution (Files.user_id r) r)
    as Htot.
  { rewrite !live_total_table. simpl.
    rewrite table_total_app, table_total_cons. unfold table_total at 2. simpl.
    lia. }
  destruct (checked_row_facts r d Hcheck) as [_ Hu].
  apply has_key_select in Hu as (urow & Hu).
  destruct (in_bigint _) eqn:Hb.
  - eexists. split; [apply insert_into_files_runs; try assumption|].
    + rewrite Htot. exact Hb.
    + split; [simpl; apply select_insert_fresh, Hfresh|].
      unfold storage_used_of, storage_limit_of. simpl.
      rewrite select_set_storage_used, N.eqb_refl, Hu, Htot. simpl. auto.
  - unfold insert_into_files. rewrite Hfresh, Hcheck. simpl.
    unfold calculate_user_storage_usage. rewrite COALESCE_SUM.
    change (foldr Z.add 0
              (live_sizes (Files.user_id r)
                 (with_files d (files d ++ [(id, r)]))))
      with (live_total (Files.user_id r) (with_files d (files d ++ [(id, r)]))).
    rewrite Htot, Hb. reflexivity.
Qed.

(** A second file of one byte does not fit beside the file of [full_store]. *)
Lemma X4_witness :
  if in_bigint (live_total 1%N full_store
                + contribution 1%N (new_file 1%N 1 None))
  then exists d',
         insert_into_files 11%N (new_file 1%N 1 None) full_store = Ok d'
         /\ select 11%N (files d') = Some (new_file 1%N 1 None)
         /\ storage_used_of 1%N d'
            = Some (Some (live_total 1%N full_store
                          + contribution 1%N (new_file 1%N 1 None)))
         /\ storage_limit_of 1%N d' = storage_limit_of 1%N full_store
  else insert_into_files 11%N (new_file 1%N 1 None) full_store
       = Err numeric_value_out_of_range.
Proof.
  apply (X4_insert_bounded_by_bigint_not_by_storage_limit
           11%N (new_file 1%N 1 None) full_store).
  - reflexivity.
  - reflexivity.
Defined.

(** An upload of 6 GB by a user limited to 5 GB commits. *)
Lemma over_quota_upload_commits :
  exists d',
    insert_into_files 10%N (new_file 1%N 6442450944 None) two_users = Ok d'
    /\ storage_used_of 1%N d' = Some (Some 6442450944)
    /\ storage_limit_of 1%N d' = Some (Some 5368709120).
Proof. eexists. split; [vm_compute; reflexivity|]. split; reflexivity. Qed.

(** ** Foreign keys and unique constraints along scripts *)

Lemma select_remove_row {R} (k k0 : uuid) (t : table R) :
  select k0 (remove_row k t) = if N.eqb k k0 then None else select k0 t.
Proof.
  induction t as [|[k' r'] t IH]; simpl.
  - destruct (N.eqb k k0); reflexivity.
  - destruct (N.eqb_spec k' k) as [->|Hne]; simpl.
    + rewrite IH. destruct (N.eqb k k0); reflexivity.
    + destruct (N.eqb_spec k' k0) as [->|Hne0]; [|exact IH].
      destruct (N.eqb_spec k k0); [congruence | reflexivity].
Qed.

Lemma has_key_replace_row {R} (k k0 : uuid) (new : R) (t : table R) :
  has_key k0 (replace_row k new t) = has_key k0 t.
Proof.
  unfold has_key. rewrite select_replace_row.
  destruct (N.eqb k k0), (select k0 t); reflexivity.
Qed.

Lemma execute_keeps_shares_reference_files (st : statement) (d d' : database) :
  shares_reference_files d -> execute st d = Ok d' -> shares_reference_files d'.
Proof.
  intros Hfk Hex. destruct st; simpl in Hex.
  - unfold insert_into_files in Hex. committed.
    apply trigger_effect in Hex as [_ ->].
    intros i s Hin. simpl. apply has_key_app. apply (Hfk i s Hin).
  - unfold update_files in Hex. destruct (select id (files d));
      [|injection Hex as <-; exact Hfk].
    committed. apply trigger_effect in Hex as [_ ->].
    intros i s Hin. simpl. rewrite has_key_replace_row. apply (Hfk i s Hin).
  - unfold delete_from_files in Hex. destruct (select id (files d));
      [|injection Hex as <-; exact Hfk].
    apply trigger_effect in Hex as [_ ->].
    intros i s Hin. simpl in *. unfold cascade_shares in Hin.
    apply filter_In in Hin as [Hin Hne]. simpl in Hne.
    apply negb_true_iff in Hne.
    unfold has_key. rewrite select_remove_row.
    rewrite N.eqb_sym, Hne. apply (Hfk i s Hin).
  - unfold insert_into_folders in Hex. committed. injection Hex as <-. exact Hfk.
  - unfold insert_into_shares, check_shares_row in Hex. committed.
    injection Hex as <-. intros i s Hin. simpl in *.
    apply in_app_or in Hin as [Hin|[[= <- <-]|[]]];
      [apply (Hfk i s Hin) | assumption].
  - unfold update_shares in Hex. destruct (select id (shares d)) as [OLD|];
      [|injection Hex as <-; exact Hfk].
    unfold check_shares_row in Hex. committed. injection Hex as <-.
    intros i s Hin. simpl in *.
    apply In_replace_row in Hin as [(_ & -> & _)|(_ & Hin)];
      [assumption | apply (Hfk i s Hin)].
  - unfold delete_from_shares in Hex. injection Hex as <-.
    intros i s Hin. simpl in *. apply In_remove_row in Hin as [Hin _].
    apply (Hfk i s Hin).
  - unfold insert_into_expiry_tasks in Hex. committed. injection Hex as <-.
    exact Hfk.
  - unfold update_expiry_tasks in Hex. destruct (select id (expiry_tasks d));
      [|injection Hex as <-; exact Hfk].
    committed. injection Hex as <-. exact Hfk.
  - unfold delete_from_expiry_tasks in Hex. injection Hex as <-. exact Hfk.
Qed.

(** X5. No share link dangles.  In every state reached from a store without
    shares, each share's [file_id] is the key of a row of [files]; and a
    [DELETE] of a file removes exactly the shares of that file, every other
    share staying as it is ([ON DELETE CASCADE]). *)
Theorem X5_shares_always_reference_a_file (d0 d : database) :
  shares d0 = [] ->
  reachable d0 d ->
  shares_reference_files d
  /\ forall id d', delete_from_files id d = Ok d' ->
       select id (files d') = None
       /\ forall i s, In (i, s) (shares d') <->
                      In (i, s) (shares d) /\ Shares.file_id s <> id.
Proof.
  intros Hempty Hr.
  assert (shares_reference_files d) as Hfk.
  { induction Hr as [|d st d' Hr IH Hex].
    - intros i s Hin. rewrite Hempty in Hin. destruct Hin.
    - apply (execute_keeps_shares_reference_files st d d' IH Hex). }
  split; [exact Hfk|]. intros id d' Hdel.
  unfold delete_from_files in Hdel.
  destruct (select id (files d)) as [OLD|] eqn:Hsel.
  - apply trigger_effect in Hdel as [_ ->]. simpl. split.
    + rewrite select_remove_row, N.eqb_refl. reflexivity.
    + intros i s. unfold cascade_shares. rewrite filter_In. simpl.
      rewrite negb_true_iff, N.eqb_neq. tauto.
  - injection Hdel as <-. split; [exact Hsel|].
    intros i s. split; [|tauto]. intros Hin. split; [exact Hin|].
    intros Heq. pose proof (Hfk i s Hin) as Hkey. rewrite Heq in Hkey.
    unfold has_key in Hkey. rewrite Hsel in Hkey. discriminate.
Qed.

Lemma X5_witness :
  shares_reference_files shared_upload
  /\ forall id d', delete_from_files id shared_upload = Ok d' ->
       select id (files d') = None
       /\ forall i s, In (i, s) (shares d') <->
                      In (i, s) (shares shared_upload) /\ Shares.file_id s <> id.
Proof.
  apply (X5_shares_always_reference_a_file after_upload shared_upload).
  - reflexivity.
  - apply (reachable_commit after_upload after_upload
             (INSERT_INTO_shares 50%N (new_share 10%N 1%N "tok" None))).
    + apply reachable_start.
    + vm_compute. reflexivity.
Defined.

Lemma unique_token_sym (s s' : Shares.row) : unique_token s s' = unique_token s' s.
Proof. unfold unique_token. apply bool_decide_ext. split; congruence. Qed.

Lemma execute_keeps_shares_consistent (st : statement) (d d' : database) :
  shares_consistent (shares d) -> execute st d = Ok d' ->
  shares_consistent (shares d').
Proof.
  intros Hc Hex. pose proof Hc as [Hpk Huniq]. destruct st; simpl in Hex.
  - unfold insert_into_files in Hex. committed.
    apply trigger_effect in Hex as [_ ->]. exact Hc.
  - unfold update_files in Hex. destruct (select id (files d));
      [|injection Hex as <-; exact Hc].
    committed. apply trigger_effect in Hex as [_ ->]. exact Hc.
  - unfold delete_from_files in Hex. destruct (select id (files d));
      [|injection Hex as <-; exact Hc].
    apply trigger_effect in Hex as [_ ->]. simpl. unfold cascade_shares.
    split; [apply primary_key_filter, Hpk|].
    intros i j s s' Hi Hj. apply filter_In in Hi as [Hi _].
    apply filter_In in Hj as [Hj _]. apply (Huniq i j s s' Hi Hj).
  - unfold insert_into_folders in Hex. committed. injection Hex as <-. exact Hc.
  - unfold insert_into_shares, check_shares_row in Hex. committed.
    injection Hex as <-. simpl.
    match goal with
    | Hk : negb (has_key _ _) = true |- _ => apply negb_true_iff in Hk;
        pose proof (has_key_false _ _ Hk) as Hfresh; rename Hk into Hkey
    end.
    match goal with
    | Hn : no_collision _ _ _ _ = true |- _ =>
        pose proof (proj1 (no_collision_spec _ _ _ _) Hn) as Hnc
    end.
    split; [apply primary_key_insert; assumption|].
    intros i j s s' Hi Hj Htok.
    apply in_app_or in Hi as [Hi|[[= <- <-]|[]]];
      apply in_app_or in Hj as [Hj|[[= <- <-]|[]]].
    + apply (Huniq i j s s' Hi Hj Htok).
    + destruct (N.eq_dec i id) as [->|Hne]; [reflexivity|].
      pose proof (Hnc i s Hi Hne) as Hno. unfold unique_token in Hno.
      apply bool_decide_eq_false in Hno. congruence.
    + destruct (N.eq_dec j id) as [->|Hne]; [reflexivity|].
      pose proof (Hnc j s' Hj Hne) as Hno. unfold unique_token in Hno.
      apply bool_decide_eq_false in Hno. congruence.
    + reflexivity.
  - unfold update_shares in Hex. destruct (select id (shares d)) as [OLD|];
      [|injection Hex as <-; exact Hc].
    unfold check_shares_row in Hex. committed. injection Hex as <-. simpl.
    match goal with
    | Hn : no_collision _ _ _ _ = true |- _ =>
        pose proof (proj1 (no_collision_spec _ _ _ _) Hn) as Hnc
    end.
    split; [unfold primary_key; rewrite keys_replace_row; exact Hpk|].
    intros i j s s' Hi Hj Htok.
    apply In_replace_row in Hi as [(-> & -> & _)|(Hi' & Hi)];
      apply In_replace_row in Hj as [(-> & -> & _)|(Hj' & Hj)].
    + reflexivity.
    + pose proof (Hnc j s' Hj Hj') as Hno. unfold unique_token in Hno.
      apply bool_decide_eq_false in Hno. congruence.
    + pose proof (Hnc i s Hi Hi') as Hno. unfold unique_token in Hno.
      apply bool_decide_eq_false in Hno. congruence.
    + apply (Huniq i j s s' Hi Hj Htok).
  - unfold delete_from_shares in Hex. injection Hex as <-. simpl.
    split; [apply primary_key_remove_row, Hpk|].
    intros i j s s' Hi Hj. apply In_remove_row in Hi as [Hi _].
    apply In_remove_row in Hj as [Hj _]. apply (Huniq i j s s' Hi Hj).
  - unfold insert_into_expiry_tasks in Hex. committed. injection Hex as <-.
    exact Hc.
  - unfold update_expiry_tasks in Hex. destruct (select id (expiry_tasks d));
      [|injection Hex as <-; exact Hc].
    committed. injection Hex as <-. exact Hc.
  - unfold delete_from_expiry_tasks in Hex. injection Hex as <-. exact Hc.
Qed.

(** X6. A token names at most one share.  In every state reached from a
    store without shares, two rows of [shares] with the same token are the
    same row, and no identity occurs twice. *)
Theorem X6_share_tokens_are_unique (d0 d : database) :
  shares d0 = [] ->
  reachable d0 d ->
  primary_key (shares d)
  /\ forall i j s s', In (i, s) (shares d) -> In (j, s') (shares d) ->
       Shares.token s = Shares.token s' -> i = j /\ s = s'.
Proof.
  intros Hempty Hr.
  assert (shares_consistent (shares d)) as [Hpk Huniq].
  { induction Hr as [|d st d' Hr IH Hex].
    - rewrite Hempty. split; [constructor|]. intros i j s s' [].
    - apply (execute_keeps_shares_consistent st d d' IH Hex). }
  split; [exact Hpk|]. intros i j s s' Hi Hj Htok.
  pose proof (Huniq i j s s' Hi Hj Htok) as ->.
  split; [reflexivity|]. apply (same_key_same_row _ j s s' Hpk Hi Hj).
Qed.

Lemma X6_witness :
  primary_key (shares shared_upload)
  /\ forall i j s s', In (i, s) (shares shared_upload) ->
       In (j, s') (shares shared_upload) ->
       Shares.token s = Shares.token s' -> i = j /\ s = s'.
Proof.
  apply (X6_share_tokens_are_unique after_upload shared_upload).
  - reflexivity.
  - apply (reachable_commit after_upload after_upload
             (INSERT_INTO_shares 50%N (new_share 10%N 1%N "tok" None))).
    + apply reachable_start.
    + vm_compute. reflexivity.
Defined.

(** ** Downloads through a share link *)









(** The sweep runs statements of the service: whatever those statements
    keep, a sweep cycle keeps. *)
Lemma sweep_task_by_statements (P : database -> Prop) (now : timestamptz)
    (t : uuid * ExpiryTasks.row) (d : database) :
  (forall st d d', P d -> Downloads.service_statement st ->
                   execute st d = Ok d' -> P d') ->
  P d -> P (Sweeper.sweep_task now t d).
Proof.
  intros Hstep HP.
  destruct (sweep_task_cases now t d)
    as [->|(r & d1 & Hsel & Hun & Hcheck & Hd1 & Hcases)]; [exact HP|].
  assert (P d1) as HP1.
  { apply (Hstep (UPDATE_expiry_tasks (fst t) (Sweeper.mark_processed now))
             d d1 HP I).
    simpl. unfold update_expiry_tasks. rewrite Hsel, Hcheck. subst d1.
    reflexivity. }
  destruct Hcases as [->|[[_ Hup]|[_ Hup]]]; [exact HP1| |].
  - apply (Hstep (UPDATE_files (ExpiryTasks.target_id (snd t))
                    Sweeper.soft_delete) d1 _ HP1 I Hup).
  - apply (Hstep (UPDATE_shares (ExpiryTasks.target_id (snd t))
                    Sweeper.deactivate) d1 _ HP1); [|exact Hup].
    intros r0. simpl. auto.
Qed.

Lemma sweep_cycle_by_statements (P : database -> Prop) (now : timestamptz)
    (limit : nat) (d : database) :
  (forall st d d', P d -> Downloads.service_statement st ->
                   execute st d = Ok d' -> P d') ->
  P d -> P (Sweeper.sweep_cycle now limit d).
Proof.
  intros Hstep. unfold Sweeper.sweep_cycle.
  generalize (Registry.dueTasks now limit d). intros batch. revert d.
  induction batch as [|t batch IH]; simpl; intros d HP; [exact HP|].
  apply IH, sweep_task_by_statements; assumption.
Qed.

(** A sweep cycle leads from a reachable state to a reachable state, for the
    store's statements and for the service with its download handler. *)
Lemma sweep_cycle_reachable (d0 : database) (now : timestamptz) (limit : nat)
    (d : database) :
  reachable d0 d -> reachable d0 (Sweeper.sweep_cycle now limit d).
Proof.
  apply sweep_cycle_by_statements. intros st dx dy Hr _ Hex.
  apply (reachable_commit d0 dx st dy Hr Hex).
Qed.

Lemma sweep_cycle_reaches (d0 : database) (now : timestamptz) (limit : nat)
    (d : database) :
  Downloads.reaches d0 d -> Downloads.reaches d0 (Sweeper.sweep_cycle now limit d).
Proof.
  apply sweep_cycle_by_statements. intros st dx dy Hr Hst Hex.
  apply (Downloads.reaches_statement d0 dx st dy Hr Hst Hex).
Qed.

(** The three downloads of the scenario are served, the third deactivates
    the link, and the fourth attempt is rejected and leaves the store as it
    is. *)
Lemma fourth_download_rejected :
  fst (Downloads.download 50%N limited_link) = Downloads.Served
  /\ three_downloads = with_shares after_upload [(50%N, link_after 3 false)]
  /\ Downloads.download 50%N three_downloads
     = (Downloads.Rejected, three_downloads).
Proof. vm_compute. auto. Qed.



Lemma unique_folder_name_per_parent_sym (r r' : Folders.row) :
  unique_folder_name_per_parent r r' = unique_folder_name_per_parent r' r.
Proof.
  unfold unique_folder_name_per_parent.
  rewrite (N.eqb_sym (Folders.user_id r)),
    (not_distinct_sym (Folders.parent_id r)),
    (not_distinct_sym (Folders.is_deleted r)).
  do 2 f_equal. apply bool_decide_ext. split; congruence.
Qed.

Lemma execute_keeps_folders_consistent (st : statement) (d d' : database) :
  folders_consistent (folders d) -> execute st d = Ok d' ->
  folders_consistent (folders d').
Proof.
  intros Hc Hex. pose proof Hc as [Hpk Huniq]. destruct st; simpl in Hex.
  - unfold insert_into_files in Hex. committed.
    apply trigger_effect in Hex as [_ ->]. exact Hc.
  - unfold update_files in Hex. destruct (select id (files d));
      [|injection Hex as <-; exact Hc].
    committed. apply trigger_effect in Hex as [_ ->]. exact Hc.
  - unfold delete_from_files in Hex. destruct (select id (files d));
      [|injection Hex as <-; exact Hc].
    apply trigger_effect in Hex as [_ ->]. exact Hc.
  - unfold insert_into_folders, check_folders_row in Hex. committed.
    injection Hex as <-. simpl.
    match goal with
    | Hk : negb (has_key _ _) = true |- _ => apply negb_true_iff in Hk;
        pose proof (has_key_false _ _ Hk) as Hfresh; rename Hk into Hkey
    end.
    match goal with
    | Hn : no_collision _ _ _ _ = true |- _ =>
        pose proof (proj1 (no_collision_spec _ _ _ _) Hn) as Hnc
    end.
    split; [apply primary_key_insert; assumption|].
    intros i j r1 r2 Hi Hj Hcol.
    apply in_app_or in Hi as [Hi|[[= <- <-]|[]]];
      apply in_app_or in Hj as [Hj|[[= <- <-]|[]]].
    + apply (Huniq i j r1 r2 Hi Hj Hcol).
    + destruct (N.eq_dec i id) as [->|Hne]; [reflexivity|].
      rewrite unique_folder_name_per_parent_sym in Hcol.
      rewrite (Hnc i r1 Hi Hne) in Hcol. discriminate.
    + destruct (N.eq_dec j id) as [->|Hne]; [reflexivity|].
      rewrite (Hnc j r2 Hj Hne) in Hcol. discriminate.
    + reflexivity.
  - unfold insert_into_shares in Hex. committed. injection Hex as <-. exact Hc.
  - unfold update_shares in Hex. destruct (select id (shares d));
      [|injection Hex as <-; exact Hc].
    committed. injection Hex as <-. exact Hc.
  - unfold delete_from_shares in Hex. injection Hex as <-. exact Hc.
  - unfold insert_into_expiry_tasks in Hex. committed. injection Hex as <-.
    exact Hc.
  - unfold update_expiry_tasks in Hex. destruct (select id (expiry_tasks d));
      [|injection Hex as <-; exact Hc].
    committed. injection Hex as <-. exact Hc.
  - unfold delete_from_expiry_tasks in Hex. injection Hex as <-. exact Hc.
Qed.

(** X7. Below the root the folder-name constraint holds what its comment
    promises.  In every state reached from a store without folders, two
    folder rows of the same user with the same non-[NULL] parent, the same
    name and the same non-[NULL] [is_deleted] flag are one row. *)
Theorem X7_folder_names_unique_below_root (d0 d : database) :
  folders d0 = [] ->
  reachable d0 d ->
  folder_names_unique_below_root d.
Proof.
  intros Hempty Hr.
  assert (folders_consistent (folders d)) as [_ Huniq].
  { induction Hr as [|d st d' Hr IH Hex].
    - rewrite Hempty. split; [constructor|]. intros i j r r' [].
    - apply (execute_keeps_folders_consistent st d d' IH Hex). }
  intros i j r r' p b Hi Hj Hu Hn Hp Hp' Hb Hb'.
  apply (Huniq i j r r' Hi Hj).
  unfold unique_folder_name_per_parent.
  rewrite Hu, Hn, Hp, Hp', Hb, Hb', N.eqb_refl. simpl.
  rewrite !bool_decide_eq_true_2 by reflexivity. reflexivity.
Qed.

Lemma X7_witness : folder_names_unique_below_root nested_folders.
Proof.
  apply (X7_folder_names_unique_below_root two_users nested_folders).
  - reflexivity.
  - apply (reachable_run
             [INSERT_INTO_folders 20%N (root_folder 1%N "docs");
              INSERT_INTO_folders 21%N (sub_folder 1%N 20%N "a")]
             two_users two_users).
    + apply reachable_start.
    + vm_compute. reflexivity.
Defined.

(** X8. A task cannot take a flag value that another task of the same
    (kind, target) pair already holds.  Whatever else an [UPDATE] of a task
    assigns, if the new row is a valid task whose [is_processed] is the
    non-[NULL] value [b] and some other row has the same type, target and
    value [b], the statement raises [unique_violation].  In particular a
    pending task of a target that already has a processed task cannot be
    marked processed, and a processed task cannot be reopened beside a
    pending one. *)
Theorem X8_flag_flip_onto_taken_triple_rejected
    (t j : uuid) (set : ExpiryTasks.row -> ExpiryTasks.row)
    (T P : ExpiryTasks.row) (b : bool) (d : database) :
  select t (expiry_tasks d) = Some T ->
  In (j, P) (expiry_tasks d) ->
  j <> t ->
  task_type_ok (set T) = true ->
  ExpiryTasks.task_type (set T) = ExpiryTasks.task_type P ->
  ExpiryTasks.target_id (set T) = ExpiryTasks.target_id P ->
  ExpiryTasks.is_processed (set T) = Some b ->
  ExpiryTasks.is_processed P = Some b ->
  update_expiry_tasks t set d = Err unique_violation.
Proof.
  intros Hsel Hin Hne Hok Hty Htg Hb Hb'.
  unfold update_expiry_tasks. rewrite Hsel.
  unfold check_expiry_tasks_row. rewrite Hok. simpl.
  assert (no_collision unique_unprocessed_task t (set T) (expiry_tasks d) = false)
    as ->; [|reflexivity].
  apply not_true_is_false. intros Hnc. rewrite no_collision_spec in Hnc.
  specialize (Hnc j P Hin Hne).
  rewrite (same_triple_collide b (set T) P) in Hnc by assumption.
  discriminate.
Qed.

(** The pending task of [file_with_history] cannot be marked processed. *)
Lemma X8_witness :
  update_expiry_tasks 100%N (set_is_processed (Some true) (Some 600))
    file_with_history
  = Err unique_violation.
Proof.
  apply (X8_flag_flip_onto_taken_triple_rejected 100%N 99%N
           (set_is_processed (Some true) (Some 600))
           (new_task "file" 10%N 400) (processed_task "file" 10%N 100 150) true).
  - reflexivity.
  - left. reflexivity.
  - discriminate.
  - reflexivity.
  - reflexivity.
  - reflexivity.
  - reflexivity.
  - reflexivity.
Defined.

(** ** What a statement can do to the [users] table *)

Lemma recompute_changes_one_aggregate (k u : uuid) (d : database) :
  let d' := with_users d (set_storage_used k (live_total k d) (users d)) in
  (storage_used_of u d' = storage_used_of u d \/ storage_exact u d')
  /\ storage_limit_of u d' = storage_limit_of u d.
Proof.
  simpl. unfold storage_exact, storage_used_of, storage_limit_of. simpl.
  rewrite select_set_storage_used.
  destruct (N.eqb_spec k u) as [->|Hne]; [|split; [left|]; reflexivity].
  destruct (select u (users d)) as [r|]; simpl; split;
    solve [reflexivity | left; reflexivity | right; reflexivity].
Qed.

Lemma trigger_changes_one_aggregate (ev : tg_event) (u : uuid)
    (d d' : database) :
  update_user_storage_usage ev d = Ok d' ->
  (storage_used_of u d' = storage_used_of u (with_users d' (users d))
   \/ storage_exact u d')
  /\ storage_limit_of u d' = storage_limit_of u (with_users d' (users d)).
Proof.
  intros H. apply trigger_effect in H as [_ ->].
  apply (recompute_changes_one_aggregate (tg_user ev) u d).
Qed.

(** After any statement the aggregate of any user is either what it was or
    equal to the total size of the user's live files in the new state, and
    [storage_limit] is what it was. *)
Lemma statement_changes_aggregate_only_by_recompute
    (st : statement) (u : uuid) (d d' : database) :
  execute st d = Ok d' ->
  (storage_used_of u d' = storage_used_of u d \/ storage_exact u d')
  /\ storage_limit_of u d' = storage_limit_of u d.
Proof.
  intros Hex. destruct st; simpl in Hex.
  - unfold insert_into_files in Hex. committed.
    apply (trigger_changes_one_aggregate _ u) in Hex. exact Hex.
  - unfold update_files in Hex.
    destruct (select id (files d)) as [OLD|];
      [|injection Hex as <-; split; [left|]; reflexivity].
    committed. apply (trigger_changes_one_aggregate _ u) in Hex. exact Hex.
  - unfold delete_from_files in Hex.
    destruct (select id (files d)) as [OLD|];
      [|injection Hex as <-; split; [left|]; reflexivity].
    apply (trigger_changes_one_aggregate _ u) in Hex. exact Hex.
  - unfold insert_into_folders in Hex. committed. injection Hex as <-.
    split; [left|]; reflexivity.
  - unfold insert_into_shares in Hex. committed. injection Hex as <-.
    split; [left|]; reflexivity.
  - unfold update_shares in Hex. destruct (select id (shares d));
      [|injection Hex as <-; split; [left|]; reflexivity].
    committed. injection Hex as <-. split; [left|]; reflexivity.
  - unfold delete_from_shares in Hex. injection Hex as <-.
    split; [left|]; reflexivity.
  - unfold insert_into_expiry_tasks in Hex. committed. injection Hex as <-.
    split; [left|]; reflexivity.
  - unfold update_expiry_tasks in Hex. destruct (select id (expiry_tasks d));
      [|injection Hex as <-; split; [left|]; reflexivity].
    committed. injection Hex as <-. split; [left|]; reflexivity.
  - unfold delete_from_expiry_tasks in Hex. injection Hex as <-.
    split; [left|]; reflexivity.
Qed.

(** The table [users] after a statement: the row of the user of the fired
    event holds the recomputed aggregate, and nothing else has changed. *)
Lemma execute_users (st : statement) (d d' : database) :
  execute st d = Ok d' ->
  users d'
  = match fired st d with
    | Some ev =>
        set_storage_used (tg_user ev) (live_total (tg_user ev) d') (users d)
    | None => users d
    end.
Proof.
  intros Hex. destruct st; simpl in Hex; simpl fired.
  - unfold insert_into_files in Hex. committed.
    apply trigger_effect in Hex as [_ ->]. reflexivity.
  - unfold update_files in Hex.
    destruct (select id (files d)) as [OLD|];
      [|injection Hex as <-; reflexivity].
    committed. apply trigger_effect in Hex as [_ ->]. reflexivity.
  - unfold delete_from_files in Hex.
    destruct (select id (files d)) as [OLD|];
      [|injection Hex as <-; reflexivity].
    apply trigger_effect in Hex as [_ ->]. reflexivity.
  - unfold insert_into_folders in Hex. committed. injection Hex as <-.
    reflexivity.
  - unfold insert_into_shares in Hex. committed. injection Hex as <-.
    reflexivity.
  - unfold update_shares in Hex. destruct (select id (shares d));
      [|injection Hex as <-; reflexivity].
    committed. injection Hex as <-. reflexivity.
  - unfold delete_from_shares in Hex. injection Hex as <-. reflexivity.
  - unfold insert_into_expiry_tasks in Hex. committed. injection Hex as <-.
    reflexivity.
  - unfold update_expiry_tasks in Hex. destruct (select id (expiry_tasks d));
      [|injection Hex as <-; reflexivity].
    committed. injection Hex as <-. reflexivity.
  - unfold delete_from_expiry_tasks in Hex. injection Hex as <-. reflexivity.
Qed.

(** X9. What a committed statement does to a user's row.  [storage_limit]
    is what it was.  [storage_used] and [updated_at] change together, and
    only when the statement fires the row trigger of [files] for a row of
    that user: then [storage_used] is set to the user's exact total in the
    new state, and [updated_at], by the [BEFORE UPDATE] trigger of [users],
    to the instant of the statement.  Otherwise both are what they were.  So
    after any statement the aggregate of any user is either what it was or
    exact. *)
Theorem X9_statement_changes_user_row_only_by_recompute
    (now : timestamptz) (st : statement) (u : uuid) (s s' : stamped) :
  execute_at now st s = Ok s' ->
  (storage_used_of u (rows s') = storage_used_of u (rows s)
   \/ storage_exact u (rows s'))
  /\ storage_limit_of u (rows s') = storage_limit_of u (rows s)
  /\ select u (users_updated_at s') = updated_at_after now st u s
  /\ (forall ev, fired st (rows s) = Some ev -> tg_user ev = u ->
                 has_key u (users (rows s)) = true ->
                 storage_exact u (rows s'))
  /\ ((forall ev, fired st (rows s) = Some ev -> tg_user ev <> u) ->
      storage_used_of u (rows s') = storage_used_of u (rows s)
      /\ select u (users_updated_at s') = select u (users_updated_at s)).
Proof.
  intros Hat. unfold execute_at in Hat.
  apply bind_Ok in Hat as (d' & Hex & Hat). injection Hat as <-.
  cbn [rows users_updated_at].
  destruct (statement_changes_aggregate_only_by_recompute st u (rows s) d' Hex)
    as [Hused Hlimit].
  pose proof (execute_users st (rows s) d' Hex) as Husers.
  assert (select u
            match fired st (rows s) with
            | Some ev =>
                update_updated_at_column now (tg_user ev) (users_updated_at s)
            | None => users_updated_at s
            end
          = updated_at_after now st u s) as Hstamp.
  { unfold updated_at_after, update_updated_at_column.
    destruct (fired st (rows s)) as [ev|]; [|reflexivity].
    apply select_replace_row. }
  split; [exact Hused|]. split; [exact Hlimit|]. split; [exact Hstamp|].
  split.
  - intros ev Hev Hu Hkey. rewrite Hev in Husers. rewrite Hu in Husers.
    unfold storage_exact, storage_used_of. rewrite Husers.
    rewrite select_set_storage_used, N.eqb_refl.
    apply has_key_select in Hkey as (ru & ->). reflexivity.
  - intros Hother. rewrite Hstamp. unfold updated_at_after, storage_used_of.
    rewrite Husers.
    destruct (fired st (rows s)) as [ev|]; [|split; reflexivity].
    specialize (Hother ev eq_refl).
    rewrite select_set_storage_used.
    destruct (N.eqb_spec (tg_user ev) u); [contradiction|].
    split; reflexivity.
Qed.

(** The transfer of file 10 to user 2, committed at instant 30, leaves the
    row of user 1 as it was, and rewrites the row of user 2. *)
Lemma X9_witness :
  (storage_used_of 1%N after_transfer = storage_used_of 1%N after_upload
   \/ storage_exact 1%N after_transfer)
  /\ storage_limit_of 1%N after_transfer = storage_limit_of 1%N after_upload
  /\ select 1%N [(1%N, 5); (2%N, 30)]
     = updated_at_after 30 (UPDATE_files 10%N (set_owner 2%N)) 1%N
         after_upload_stamped
  /\ (forall ev,
        fired (UPDATE_files 10%N (set_owner 2%N)) after_upload = Some ev ->
        tg_user ev = 1%N ->
        has_key 1%N (users after_upload) = true ->
        storage_exact 1%N after_transfer)
  /\ ((forall ev,
         fired (UPDATE_files 10%N (set_owner 2%N)) after_upload = Some ev ->
         tg_user ev <> 1%N) ->
      storage_used_of 1%N after_transfer = storage_used_of 1%N after_upload
      /\ select 1%N [(1%N, 5); (2%N, 30)] = select 1%N [(1%N, 5); (2%N, 5)]).
Proof.
  apply (X9_statement_changes_user_row_only_by_recompute 30
           (UPDATE_files 10%N (set_owner 2%N)) 1%N after_upload_stamped
           {| rows := after_transfer;
              users_updated_at := [(1%N, 5); (2%N, 30)] |}).
  vm_compute. reflexivity.
Defined.

Lemma recompute_keeps_range (k : uuid) (d : database) :
  (forall id r, In (id, r) (files d) -> 0 < Files.size r) ->
  in_bigint (live_total k d) = true ->
  storage_used_in_range d ->
  storage_used_in_range
    (with_users d (set_storage_used k (live_total k d) (users d))).
Proof.
  intros Hpos Hb Hrange u v. unfold storage_used_of. simpl.
  rewrite select_set_storage_used.
  destruct (N.eqb k u); [|apply (Hrange u v)].
  destruct (select u (users d)) as [r|]; simpl; [|discriminate].
  intros [= <-]. split.
  - rewrite live_total_table. apply table_total_nonneg, Hpos.
  - unfold in_bigint in Hb. apply andb_true_iff in Hb as [_ Hb].
    apply Z.leb_le, Hb.
Qed.

Lemma execute_keeps_storage_used_in_range (st : statement) (d d' : database) :
  store_consistent d -> storage_used_in_range d -> execute st d = Ok d' ->
  storage_used_in_range d'.
Proof.
  intros Hcons Hrange Hex.
  pose proof (execute_keeps_store_consistent st d d' Hcons Hex)
    as (_ & Hrows & _ & _).
  assert (forall id r, In (id, r) (files d') -> 0 < Files.size r) as Hpos.
  { intros id r Hin. apply (checked_row_facts r d'), (Hrows id r Hin). }
  clear Hrows. destruct st; simpl in Hex.
  - unfold insert_into_files in Hex. committed.
    apply trigger_effect in Hex as [Hb ->].
    apply recompute_keeps_range; assumption.
  - unfold update_files in Hex.
    destruct (select id (files d)) as [OLD|];
      [|injection Hex as <-; exact Hrange].
    committed. apply trigger_effect in Hex as [Hb ->].
    apply recompute_keeps_range; assumption.
  - unfold delete_from_files in Hex.
    destruct (select id (files d)) as [OLD|];
      [|injection Hex as <-; exact Hrange].
    apply trigger_effect in Hex as [Hb ->].
    apply recompute_keeps_range; assumption.
  - unfold insert_into_folders in Hex. committed. injection Hex as <-.
    exact Hrange.
  - unfold insert_into_shares in Hex. committed. injection Hex as <-.
    exact Hrange.
  - unfold update_shares in Hex. destruct (select id (shares d));
      [|injection Hex as <-; exact Hrange].
    committed. injection Hex as <-. exact Hrange.
  - unfold delete_from_shares in Hex. injection Hex as <-. exact Hrange.
  - unfold insert_into_expiry_tasks in Hex. committed. injection Hex as <-.
    exact Hrange.
  - unfold update_expiry_tasks in Hex. destruct (select id (expiry_tasks d));
      [|injection Hex as <-; exact Hrange].
    committed. injection Hex as <-. exact Hrange.
  - unfold delete_from_expiry_tasks in Hex. injection Hex as <-. exact Hrange.
Qed.

(** X10. The aggregate may go stale, but it never leaves its range: from a
    consistent store whose aggregates are all between zero and the largest
    [BIGINT], every state reached by committed statements, transfers of
    files between users included, has every [storage_used] between zero and
    the largest [BIGINT]. *)
Theorem X10_storage_used_never_negative (d0 d : database) :
  store_consistent d0 -> storage_used_in_range d0 -> reachable d0 d ->
  storage_used_in_range d.
Proof.
  intros Hcons Hrange Hreach.
  assert (store_consistent d /\ storage_used_in_range d) as [_ H]; [|exact H].
  induction Hreach as [|d st d' Hreach [IHc IHr] Hex]; [split; assumption|].
  split.
  - apply (execute_keeps_store_consistent st d d' IHc Hex).
  - apply (execute_keeps_storage_used_in_range st d d' IHc IHr Hex).
Qed.

(** The store after the upload and the transfer of file 10. *)
Lemma X10_witness : storage_used_in_range after_transfer.
Proof.
  apply (X10_storage_used_never_negative two_users after_transfer).
  - apply store_consistentb_sound. vm_compute. reflexivity.
  - intros u v Hv. unfold storage_used_of in Hv.
    destruct (select u (users two_users)) as [r|] eqn:Hr; [|discriminate].
    apply select_In in Hr. simpl in Hv.
    destruct Hr as [[= <- <-]|[[= <- <-]|[]]]; injection Hv as <-;
      vm_compute; split; discriminate.
  - apply (reachable_run upload_then_transfer two_users two_users).
    + apply reachable_start.
    + vm_compute. reflexivity.
Defined.

(** ** The history of the request cache *)

Section RequestHistoryFacts.
Context `{J : Api.JSON}.
Import Api.

Lemma fetches_for_executeRequest (k endpoint : string) (cfg : RequestConfig)
    (c : client) :
  fetches_for k (fst (executeRequest endpoint cfg c))
  = fetches_for k c
    ++ (if is_GET (method cfg) && bool_decide (getCacheKey endpoint cfg = k)
        then [{| req_promise := next_promise c; req_time := clock c;
                 req_endpoint := endpoint; req_config := cfg |}]
        else []).
Proof. unfold fetches_for. simpl. rewrite List.filter_app. reflexivity. Qed.

Lemma elem_of_fetches_for (k : string) (c : client) (r : request) :
  r ∈ fetches_for k c -> r ∈ network c.
Proof.
  unfold fetches_for. rewrite list_elem_of_In, List.filter_In, <- list_elem_of_In.
  intros [Hin _]. exact Hin.
Qed.

Lemma elem_of_delete_ne {A} (i : nat) (l : list A) (x y : A) :
  x ∈ l -> l !! i = Some y -> x <> y -> x ∈ delete i l.
Proof.
  intros Hin Hi Hne.
  rewrite <- (take_drop_middle l i y Hi) in Hin. rewrite delete_take_drop.
  apply elem_of_app in Hin as [Hin|Hin]; apply elem_of_app; [left; exact Hin|].
  apply elem_of_cons in Hin as [->|Hin]; [contradiction | right; exact Hin].
Qed.

Lemma timer_of_key_unique (l : list (Z * string)) (a b : Z) (k : string) :
  NoDup l.*2 -> (a, k) ∈ l -> (b, k) ∈ l -> a = b.
Proof.
  induction l as [|[d k'] l IH]; simpl; intros Hnd Ha Hb; [inversion Ha|].
  apply NoDup_cons in Hnd as [Hk Hnd].
  apply elem_of_cons in Ha as [Ha|Ha]; apply elem_of_cons in Hb as [Hb|Hb].
  - congruence.
  - exfalso. apply Hk. apply list_elem_of_fmap. exists (b, k).
    split; [simpl; congruence | exact Hb].
  - exfalso. apply Hk. apply list_elem_of_fmap. exists (a, k).
    split; [simpl; congruence | exact Ha].
  - apply (IH Hnd Ha Hb).
Qed.

Lemma StronglySorted_snoc {A} (R : relation A) (l : list A) (x : A) :
  StronglySorted R l -> (forall y, y ∈ l -> R y x) ->
  StronglySorted R (l ++ [x]).
Proof.
  intros Hs Hall. apply StronglySorted_app. split; [|split].
  - intros x1 x2 H1 H2. apply list_elem_of_singleton in H2. subst x2.
    apply (Hall x1 H1).
  - exact Hs.
  - repeat constructor.
Qed.

Lemma StronglySorted_lookup {A} (R : relation A) (l : list A) (i j : nat)
    (x y : A) :
  StronglySorted R l -> (i < j)%nat -> l !! i = Some x -> l !! j = Some y ->
  R x y.
Proof.
  intros Hs. revert i j. induction Hs as [|a l Hs IH Hall]; intros i j Hij Hi Hj;
    [rewrite lookup_nil in Hi; discriminate|].
  destruct j as [|j]; [lia|]. simpl in Hj.
  destruct i as [|i]; simpl in Hi.
  - injection Hi as <-. rewrite Forall_forall in Hall.
    apply Hall. apply (list_elem_of_lookup_2 l j y Hj).
  - apply (IH i j); [lia | assumption | assumption].
Qed.

Lemma loaded_history (t0 : Z) : cache_history (loaded t0).
Proof.
  split; [apply loaded_agreement|]. split; [|split; [|split]].
  - intros k p Hc. simpl in Hc. rewrite lookup_empty in Hc. discriminate.
  - intros k _ r Hin. inversion Hin.
  - intros r Hin. inversion Hin.
  - intros k. constructor.
Qed.

Lemma step_keeps_history (c c' : client) :
  cache_history c -> step c c' -> cache_history c'.
Proof.
  intros (Hagree & Hback & Hold & Hpast & Hsorted) Hs.
  split; [apply (step_keeps_agreement c c' Hagree Hs)|].
  destruct Hagree as [Hnd Htimers].
  destruct Hs as [endpoint cfg c|dt c Hdt|i due key c Hi Hdue|p o c _ _].
  - (* a call of apiRequest *)
    unfold apiRequest. destruct (is_GET (method cfg)) eqn:Hg.
    + destruct (requestCache c !! getCacheKey endpoint cfg) as [q|] eqn:Hc;
        [simpl; repeat split; assumption|].
      assert (forall k, fetches_for k
                (fst (let '(c1, requestPromise) := executeRequest endpoint cfg c in
                      ({| clock := clock c1;
                          requestCache := <[getCacheKey endpoint cfg := requestPromise]>
                                            (requestCache c1);
                          timers := timers c1 ++ [(clock c1 + CACHE_DURATION,
                                                   getCacheKey endpoint cfg)];
                          network := network c1;
                          next_promise := next_promise c1;
                          settled := settled c1 |}, requestPromise)))
              = fetches_for k c
                ++ (if bool_decide (getCacheKey endpoint cfg = k)
                    then [{| req_promise := next_promise c; req_time := clock c;
                             req_endpoint := endpoint; req_config := cfg |}]
                    else [])) as Hfetch.
      { intros k. rewrite <- (andb_true_l (bool_decide _)), <- Hg.
        apply (fetches_for_executeRequest k endpoint cfg c). }
      split; [|split; [|split]].
      * intros k p Hk. rewrite (Hfetch k). simpl in Hk. simpl timers.
        destruct (decide (getCacheKey endpoint cfg = k)) as [<-|Hne].
        -- rewrite lookup_insert_eq in Hk. injection Hk as <-.
           rewrite bool_decide_eq_true_2 by reflexivity.
           eexists _, _. split; [reflexivity|]. split; [reflexivity|].
           simpl. apply elem_of_app. right. apply list_elem_of_singleton.
           reflexivity.
        -- rewrite lookup_insert_ne in Hk by exact Hne.
           rewrite bool_decide_eq_false_2 by exact Hne. rewrite app_nil_r.
           destruct (Hback k p Hk) as (l & r & Hl & Hp & Ht).
           exists l, r. split; [exact Hl|]. split; [exact Hp|].
           apply elem_of_app. left. exact Ht.
      * intros k Hk r. rewrite (Hfetch k). simpl in Hk. simpl clock. revert r.
        destruct (decide (getCacheKey endpoint cfg = k)) as [<-|Hne];
          [rewrite lookup_insert_eq in Hk; discriminate|].
        rewrite lookup_insert_ne in Hk by exact Hne.
        rewrite bool_decide_eq_false_2 by exact Hne. rewrite app_nil_r.
        apply (Hold k Hk).
      * simpl. intros r Hin. apply elem_of_app in Hin as [Hin|Hin];
          [apply (Hpast r Hin)|].
        apply list_elem_of_singleton in Hin. subst r. simpl. lia.
      * intros k. rewrite (Hfetch k).
        destruct (decide (getCacheKey endpoint cfg = k)) as [<-|Hne].
        -- rewrite bool_decide_eq_true_2 by reflexivity.
           apply StronglySorted_snoc; [apply Hsorted|].
           intros y Hy. unfold apart. simpl. apply (Hold _ Hc y Hy).
        -- rewrite bool_decide_eq_false_2 by exact Hne. rewrite app_nil_r.
           apply Hsorted.
    + assert (forall k, fetches_for k (fst (executeRequest endpoint cfg c))
                        = fetches_for k c) as Hfetch.
      { intros k. rewrite fetches_for_executeRequest, Hg. apply app_nil_r. }
      split; [|split; [|split]].
      * intros k p Hk. rewrite (Hfetch k). apply (Hback k p Hk).
      * intros k Hk. rewrite (Hfetch k). apply (Hold k Hk).
      * simpl. intros r Hin. apply elem_of_app in Hin as [Hin|Hin];
          [apply (Hpast r Hin)|].
        apply list_elem_of_singleton in Hin. subst r. simpl. lia.
      * intros k. rewrite (Hfetch k). apply Hsorted.
  - (* time passes *)
    split; [exact Hback|]. split; [|split; [|exact Hsorted]].
    + intros k Hk r Hin. simpl. pose proof (Hold k Hk r Hin). lia.
    + intros r Hin. simpl. pose proof (Hpast r Hin). lia.
  - (* a timer callback *)
    split; [|split; [|split; [exact Hpast | exact Hsorted]]].
    + intros k p. simpl. intros Hk.
      destruct (decide (key = k)) as [<-|Hne];
        [rewrite lookup_delete_eq in Hk; discriminate|].
      rewrite lookup_delete_ne in Hk by exact Hne.
      destruct (Hback k p Hk) as (l & r & Hl & Hp & Ht).
      exists l, r. split; [exact Hl|]. split; [exact Hp|].
      apply (elem_of_delete_ne i _ _ (due, key) Ht Hi). congruence.
    + intros k. simpl. intros Hk r Hin.
      change (fetches_for k (fire i key c)) with (fetches_for k c) in Hin.
      destruct (requestCache c !! k) as [p|] eqn:Hc; [|apply (Hold k Hc r Hin)].
      destruct (decide (key = k)) as [<-|Hne];
        [|rewrite lookup_delete_ne in Hk by exact Hne; congruence].
      destruct (Hback key p Hc) as (l & r0 & Hl & _ & Ht).
      assert (req_time r0 + CACHE_DURATION = due) as Hdue0.
      { apply (timer_of_key_unique (timers c) _ _ key Hnd Ht).
        apply (list_elem_of_lookup_2 _ i), Hi. }
      pose proof (Hsorted key) as Hs. rewrite Hl in Hs, Hin.
      apply elem_of_app in Hin as [Hin|Hin].
      * assert (apart r r0) as Ha.
        { apply (StronglySorted_app_1_elem_of apart l [r0] r r0 Hs Hin).
          apply list_elem_of_singleton. reflexivity. }
        unfold apart, CACHE_DURATION in *. lia.
      * apply list_elem_of_singleton in Hin. subst r. lia.
  - (* a fetch settles *)
    split; [exact Hback|]. split; [exact Hold|]. split; assumption.
Qed.

Lemma steps_keep_history (c c' : client) :
  cache_history c -> steps c c' -> cache_history c'.
Proof.
  intros Hh Hs. induction Hs as [|c1 c2 c3 Hs _ IH]; [exact Hh|].
  apply IH. apply (step_keeps_history c1 c2 Hh Hs).
Qed.

(** X11. The client never repeats a [GET] within the cache duration: in any
    run of the page, whatever calls, timers and responses it interleaves,
    two fetches issued for the same cache key lie at least 5000 ms apart. *)
Theorem X11_fetches_of_a_key_are_a_cache_duration_apart
    (t0 : Z) (c : client) (k : string) :
  steps (loaded t0) c -> fetches_spaced k c.
Proof.
  intros Hs i j r1 r2 Hij H1 H2.
  destruct (steps_keep_history _ _ (loaded_history t0) Hs)
    as (_ & _ & _ & _ & Hsorted).
  apply (StronglySorted_lookup apart (fetches_for k c) i j r1 r2
           (Hsorted k) Hij H1 H2).
Qed.

(** X12. A cache entry is never left behind and never deleted early: in any
    run of the page a cached promise is the promise of the latest fetch
    issued for its key, and exactly one deletion is pending for it, due
    5000 ms after that fetch was issued; a key that is not cached has no
    deletion pending, so that no timer of an earlier fetch can delete a later
    entry. *)
Theorem X12_cache_entry_is_latest_fetch_with_pending_deletion
    (t0 : Z) (c : client) (k : string) :
  steps (loaded t0) c -> cache_entry_backed k c.
Proof.
  intros Hs.
  destruct (steps_keep_history _ _ (loaded_history t0) Hs)
    as ((Hnd & Htimers) & Hback & _ & Hpast & _).
  unfold cache_entry_backed.
  destruct (requestCache c !! k) as [p|] eqn:Hc.
  - destruct (Hback k p Hc) as (l & r & Hl & Hp & Ht).
    exists r. split; [rewrite Hl; apply last_snoc|]. split; [exact Hp|].
    split; [|exact Ht].
    apply Hpast, (elem_of_fetches_for k). rewrite Hl.
    apply elem_of_app. right. apply list_elem_of_singleton. reflexivity.
  - intros due Hin. destruct (Htimers due k Hin) as [q Hq]. congruence.
Qed.

End RequestHistoryFacts.

Lemma storage_stats_twice_steps :
  Api.steps (Api.loaded 0) storage_stats_twice.
Proof.
  eapply Api.steps_cons;
    [apply (Api.step_call "/users/storage" Api.storage_stats_config)|].
  eapply Api.steps_cons; [apply (Api.step_elapse 5000); lia|].
  eapply Api.steps_cons;
    [apply (Api.step_timeout 0 5000
              (Api.getCacheKey "/users/storage" Api.storage_stats_config));
     [reflexivity | vm_compute; discriminate]|].
  eapply Api.steps_cons;
    [apply (Api.step_call "/users/storage" Api.storage_stats_config)|].
  apply Api.steps_refl.
Qed.

(** The two reads of the storage statistics. *)
Lemma X11_witness :
  fetches_spaced (Api.getCacheKey "/users/storage" Api.storage_stats_config)
    storage_stats_twice.
Proof.
  apply (X11_fetches_of_a_key_are_a_cache_duration_apart 0).
  apply storage_stats_twice_steps.
Defined.

Lemma X12_witness :
  cache_entry_backed (Api.getCacheKey "/users/storage" Api.storage_stats_config)
    storage_stats_twice.
Proof.
  apply (X12_cache_entry_is_latest_fetch_with_pending_deletion 0).
  apply storage_stats_twice_steps.
Defined.

(** ** The route table *)

(** X13. The route guard is complete and never loops: whatever route the
    location matches, after at most one navigation a page is shown; a
    signed-in user is always shown the dashboard, and a user who is not
    signed in is shown the registration page on [/register] and the login
    page everywhere else. *)
Theorem X13_route_guard_settles_after_one_redirect
    (isAuthenticated : bool) (r : App.route) :
  App.shown 1 isAuthenticated r
  = Some (if isAuthenticated then App.DashboardPage
          else match r with
               | App.register => App.RegisterPage
               | _ => App.LoginPage
               end)
  /\ (App.shown 0 isAuthenticated r = None
      <-> match r with
          | App.login | App.register => isAuthenticated = true
          | App.root | App.not_found => True
          | _ => isAuthenticated = false
          end).
Proof.
  split.
  - destruct isAuthenticated, r; reflexivity.
  - destruct isAuthenticated, r; simpl; split; intros H;
      solve [reflexivity | exact I | discriminate].
Qed.

(** ** The statistics views *)

Section ViewFacts.
Import Views.

Lemma all_rows_Rows {A B} (F : A -> outcome B) (l : list A) (rows : list B) :
  all_rows (map F l) = Rows rows -> Forall2 (fun k row => F k = Rows row) l rows.
Proof.
  revert rows. induction l as [|k l IH]; simpl; intros rows H.
  - injection H as <-. constructor.
  - destruct (F k) as [a|] eqn:Hk; [|discriminate].
    destruct (all_rows (map F l)) as [rows'|]; [|discriminate].
    injection H as <-. constructor; [exact Hk | apply IH; reflexivity].
Qed.

Lemma all_rows_division_by_zero {A B} (F : A -> outcome B) (l : list A) :
  all_rows (map F l) = division_by_zero <->
  exists k, In k l /\ F k = division_by_zero.
Proof.
  induction l as [|k l IH]; simpl.
  - split; [discriminate | intros (k & [] & _)].
  - destruct (F k) as [a|] eqn:Hk.
    + destruct (all_rows (map F l)) as [rows'|].
      * split; [discriminate|]. intros (k' & [<-|Hin] & Hk'); [congruence|].
        assert (@Rows (list B) rows' = division_by_zero) as H; [|discriminate H].
        apply IH. exists k'. split; assumption.
      * split; [|reflexivity]. intros _.
        destruct (proj1 IH eq_refl) as (k' & Hin & Hk').
        exists k'. split; [right; exact Hin | exact Hk'].
    + split; [|reflexivity]. intros _. exists k. split; [left; reflexivity | exact Hk].
Qed.

Lemma In_group_by {A K} `{EqDecision K} (key : A -> K) (rows : list A)
    (k : K) (g : list A) :
  In (k, g) (group_by key rows) <->
  In k (map key rows)
  /\ g = List.filter (fun r => bool_decide (key r = k)) rows.
Proof.
  unfold group_by. rewrite in_map_iff. split.
  - intros (k' & [= <- <-] & Hin). split; [|reflexivity].
    rewrite <- list_elem_of_In, elem_of_remove_dups, list_elem_of_In in Hin.
    exact Hin.
  - intros [Hin ->]. exists k. split; [reflexivity|].
    rewrite <- list_elem_of_In, elem_of_remove_dups, list_elem_of_In. exact Hin.
Qed.

Lemma keys_group_by {A K} `{EqDecision K} (key : A -> K) (rows : list A) :
  map fst (group_by key rows) = remove_dups (map key rows).
Proof.
  unfold group_by. rewrite map_map. simpl. apply map_id.
Qed.

(** The rows the join makes for user [u]. *)
Lemma In_left_join (d : database) (u : uuid * Users.row)
    (f : option (uuid * Files.row)) :
  In (u, f) (left_join d) <->
  In u (users d)
  /\ match f with
     | Some p => In p (files d) /\ live_file_of (fst u) p = true
     | None => List.filter (live_file_of (fst u)) (files d) = []
     end.
Proof.
  unfold left_join. rewrite in_flat_map. split.
  - intros (u' & Hu & Hin).
    destruct (List.filter (live_file_of (fst u')) (files d)) as [|p0 fs] eqn:Hf.
    + destruct Hin as [[= <- <-]|[]]. split; assumption.
    + rewrite <- Hf in Hin. apply in_map_iff in Hin as (p & [= <- <-] & Hp).
      apply List.filter_In in Hp. split; assumption.
  - intros [Hu Hf]. exists u. split; [exact Hu|].
    destruct f as [p|].
    + assert (In p (List.filter (live_file_of (fst u)) (files d))) as Hp
        by (apply List.filter_In; exact Hf).
      destruct (List.filter (live_file_of (fst u)) (files d)) as [|p0 fs] eqn:Hfs;
        [destruct Hp|].
      rewrite <- Hfs. apply in_map_iff. exists p. split; [reflexivity|].
      rewrite Hfs. exact Hp.
    + rewrite Hf. left. reflexivity.
Qed.

Lemma filter_none {A} (P : A -> bool) (l : list A) :
  (forall x, In x l -> P x = false) -> List.filter P l = [].
Proof.
  induction l as [|x l IH]; simpl; intros H; [reflexivity|].
  rewrite (H x) by (left; reflexivity). apply IH. intros y Hy. apply H. right. exact Hy.
Qed.

Lemma filter_all {A} (P : A -> bool) (l : list A) :
  (forall x, In x l -> P x = true) -> List.filter P l = l.
Proof.
  induction l as [|x l IH]; simpl; intros H; [reflexivity|].
  rewrite (H x) by (left; reflexivity). f_equal. apply IH. intros y Hy. apply H. right. exact Hy.
Qed.

(** The group of a user is what the join made for that user. *)
Lemma group_of_user (us : table Users.row) (block : uuid * Users.row -> list joined_row)
    (u : uuid * Users.row) :
  (forall u' j, In j (block u') -> fst j = u') ->
  NoDup us -> In u us ->
  List.filter (fun j => bool_decide (fst j = u)) (flat_map block us) = block u.
Proof.
  intros Hkey. induction us as [|u' us IH]; intros Hnd Hin; [destruct Hin|].
  apply NoDup_cons in Hnd as [Hnot Hnd]. simpl. rewrite List.filter_app.
  destruct Hin as [->|Hin].
  - rewrite filter_all.
    + rewrite filter_none; [apply app_nil_r|].
      intros j Hj. apply in_flat_map in Hj as (u'' & Hu'' & Hj).
      apply bool_decide_eq_false_2. rewrite (Hkey u'' j Hj). intros ->.
      apply Hnot, list_elem_of_In, Hu''.
    + intros j Hj. apply bool_decide_eq_true_2, (Hkey u j Hj).
  - rewrite filter_none.
    + apply (IH Hnd Hin).
    + intros j Hj. apply bool_decide_eq_false_2. rewrite (Hkey u' j Hj).
      intros ->. apply Hnot, list_elem_of_In, Hin.
Qed.

Lemma NoDup_table {R} (t : table R) : primary_key t -> NoDup t.
Proof. apply NoDup_fmap_1. Qed.

Lemma length_sum {A} (l : list A) :
  Z.of_nat (length l) = foldr Z.add 0 (map (fun _ => 1) l).
Proof. induction l as [|x l IH]; simpl length; simpl foldr; [reflexivity | lia]. Qed.

(** The rows the join makes for one user. *)
Lemma left_join_blocks (d : database) :
  left_join d
  = flat_map
      (fun u =>
         match List.filter (live_file_of (fst u)) (files d) with
         | [] => [(u, None)]
         | fs => map (fun f => (u, Some f)) fs
         end)
      (users d).
Proof. reflexivity. Qed.

(** What the aggregates of a user's group come to. *)
Lemma user_group_aggregates (d : database) (u : uuid * Users.row) :
  let block : list joined_row :=
    match List.filter (live_file_of (fst u)) (files d) with
    | [] => [(u, None)]
    | fs => map (fun f => (u, Some f)) fs
    end in
  COUNT (map (fun j : joined_row => fst <$> snd j) block)
  = Z.of_nat (length (live_sizes (fst u) d))
  /\ COALESCE (SUM (omap (fun j : joined_row =>
                            (fun f => Files.size (snd f)) <$> snd j) block)) 0
     = live_total (fst u) d.
Proof.
  simpl. unfold live_total, live_sizes, COUNT. rewrite COALESCE_SUM.
  destruct (List.filter (live_file_of (fst u)) (files d)) as [|p fs];
    [split; reflexivity|].
  change ((u, Some p) :: map (fun f : uuid * Files.row => (u, Some f)) fs)
    with (map (fun f : uuid * Files.row => (u, Some f)) (p :: fs)).
  generalize (p :: fs). intros l. split.
  - f_equal. induction l as [|x l IH]; simpl; [reflexivity|].
    f_equal. exact IH.
  - induction l as [|x l IH]; simpl; [reflexivity|]. f_equal. exact IH.
Qed.

Lemma left_join_keys (d : database) (u : uuid * Users.row) :
  In u (map fst (left_join d)) <-> In u (users d).
Proof.
  rewrite in_map_iff. split.
  - intros ([u' f] & <- & Hin). apply In_left_join in Hin as [Hu _]. exact Hu.
  - intros Hu.
    destruct (List.filter (live_file_of (fst u)) (files d)) as [|p fs] eqn:Hf.
    + exists (u, None). split; [reflexivity|]. apply In_left_join. split; assumption.
    + exists (u, Some p). split; [reflexivity|]. apply In_left_join.
      split; [exact Hu|]. apply List.filter_In. rewrite Hf. left. reflexivity.
Qed.

Lemma usage_percentage_of_division_by_zero (u : Users.row) :
  usage_percentage_of u = division_by_zero <->
  exists used, Users.storage_used u = Some used /\ Users.storage_limit u = Some 0.
Proof.
  unfold usage_percentage_of.
  destruct (Users.storage_used u) as [used|], (Users.storage_limit u) as [limit|].
  - destruct (Z.eqb_spec limit 0) as [->|Hne]; split.
    + intros _. exists used. split; reflexivity.
    + reflexivity.
    + discriminate.
    + intros (used' & _ & [= Hl]). contradiction.
  - split; [discriminate | intros (? & _ & [=])].
  - split; [discriminate | intros (? & [=] & _)].
  - split; [discriminate | intros (? & [=] & _)].
Qed.

(** The row of the group of a user of the table. *)
Lemma user_file_stats_row_reported (d : database) (u : uuid * Users.row)
    (row : UserFileStats.row) :
  primary_key (users d) -> In u (users d) ->
  user_file_stats_row
    (u, List.filter (fun j : joined_row => bool_decide (fst j = u)) (left_join d))
  = Rows row ->
  reported d (fst u) (snd u) row.
Proof.
  intros Hpk Hu. rewrite left_join_blocks.
  rewrite (group_of_user (users d) _ u); [| |apply NoDup_table, Hpk|exact Hu].
  - unfold user_file_stats_row. simpl fst. simpl snd.
    destruct (usage_percentage_of (snd u)) as [pct|]; [|discriminate].
    intros [= <-]. destruct (user_group_aggregates d u) as [Hcount Hsum].
    simpl in Hcount, Hsum. unfold reported. simpl.
    split; [reflexivity|]. split; [exact Hcount|]. split; [exact Hsum|].
    split; reflexivity.
  - intros u' j Hj.
    destruct (List.filter (live_file_of (fst u')) (files d)) as [|p fs].
    + destruct Hj as [<-|[]]. reflexivity.
    + apply in_map_iff in Hj as (f & <- & _). reflexivity.
Qed.

(** The rows of the view, user by user. *)
Lemma user_file_stats_Rows (d : database) (rows : list UserFileStats.row) :
  primary_key (users d) -> user_file_stats d = Rows rows ->
  exists keys, keys ≡ₚ users d
               /\ Forall2 (fun u row => reported d (fst u) (snd u) row) keys rows.
Proof.
  intros Hpk Hv. exists (remove_dups (map fst (left_join d))). split.
  - apply NoDup_Permutation;
      [apply NoDup_remove_dups | apply NoDup_table, Hpk|].
    intros u. rewrite elem_of_remove_dups, !list_elem_of_In.
    apply left_join_keys.
  - unfold user_file_stats, group_by in Hv. rewrite map_map in Hv.
    apply all_rows_Rows in Hv.
    apply Forall2_same_length_lookup. split; [apply (Forall2_length _ _ _ Hv)|].
    intros i u row Hi Hrow.
    pose proof (Forall2_lookup_lr _ _ _ i u row Hv Hi Hrow) as H. simpl in H.
    apply (user_file_stats_row_reported d u row Hpk); [|exact H].
    apply left_join_keys, list_elem_of_In, elem_of_remove_dups.
    apply (list_elem_of_lookup_2 _ i), Hi.
Qed.

(** X14. The view [user_file_stats] has exactly one row for every user, also
    for a user without files; the row of a user counts the user's files that
    are not deleted, gives their total size, which is the value
    [calculate_user_storage_usage] returns for the user, and repeats the
    [storage_used] and [storage_limit] of the user's row. *)
Theorem X14_user_file_stats_reports_every_user
    (d : database) (rows : list UserFileStats.row) (id : uuid) (u : Users.row) :
  primary_key (users d) ->
  user_file_stats d = Rows rows ->
  In (id, u) (users d) ->
  map UserFileStats.user_id rows ≡ₚ map fst (users d)
  /\ exists row, In row rows
                 /\ reported d id u row
                 /\ (in_bigint (live_total id d) = true ->
                     calculate_user_storage_usage id d
                     = Ok (UserFileStats.total_size row)).
Proof.
  intros Hpk Hv Hu.
  destruct (user_file_stats_Rows d rows Hpk Hv) as (keys & Hperm & Hall).
  split.
  - rewrite <- Hperm. clear Hperm Hv.
    induction Hall as [|k row keys rows (Hid & _) _ IH]; [reflexivity|].
    simpl. rewrite Hid, IH. reflexivity.
  - assert ((id, u) ∈ keys) as Hk by (rewrite Hperm; apply list_elem_of_In, Hu).
    apply list_elem_of_lookup_1 in Hk as [i Hi].
    destruct (Forall2_lookup_l _ _ _ i (id, u) Hall Hi) as (row & Hrow & Hrep).
    exists row. split; [apply list_elem_of_In, (list_elem_of_lookup_2 _ i), Hrow|].
    split; [exact Hrep|].
    intros Hb. destruct Hrep as (_ & _ & -> & _).
    apply calculate_Ok. split; [reflexivity | exact Hb].
Qed.

(** X15. Reading [user_file_stats] fails as a whole, with
    [division_by_zero], exactly when some user has a [storage_limit] of zero
    and a [storage_used] that is not [NULL]; the rows of all the other users
    are lost with it.  When the view returns, the row of every user holds
    as [usage_percentage] the quotient of the user's [storage_used] and
    [storage_limit], and [NULL] if one of the two is [NULL]. *)
Theorem X15_user_file_stats_fails_on_zero_limit (d : database) :
  (user_file_stats d = division_by_zero <->
   exists id u used, In (id, u) (users d)
                     /\ Users.storage_used u = Some used
                     /\ Users.storage_limit u = Some 0)
  /\ forall rows id u,
       user_file_stats d = Rows rows -> In (id, u) (users d) ->
       exists row, In row rows
                   /\ UserFileStats.user_id row = id
                   /\ UserFileStats.usage_percentage row = percentage_of u.
Proof.
  split.
  - unfold user_file_stats. rewrite all_rows_division_by_zero. split.
    + intros ([[id u] g] & Hin & Hrow).
      apply In_group_by in Hin as [Hin _]. apply left_join_keys in Hin.
      unfold user_file_stats_row in Hrow. simpl in Hrow.
      destruct (usage_percentage_of u) as [pct|] eqn:Hpct; [discriminate|].
      apply usage_percentage_of_division_by_zero in Hpct
        as (used & Hused & Hlimit).
      exists id, u, used. repeat split; assumption.
    + intros (id & u & used & Hin & Hused & Hlimit).
      exists ((id, u),
              List.filter (fun j : joined_row => bool_decide (fst j = (id, u)))
                (left_join d)).
      split.
      * apply In_group_by. split; [apply left_join_keys, Hin | reflexivity].
      * unfold user_file_stats_row. simpl.
        assert (usage_percentage_of u = division_by_zero) as ->;
          [|reflexivity].
        apply usage_percentage_of_division_by_zero. exists used.
        split; assumption.
  - intros rows id u Hv Hu.
    unfold user_file_stats in Hv. apply all_rows_Rows in Hv.
    assert (In ((id, u),
                List.filter (fun j : joined_row => bool_decide (fst j = (id, u)))
                  (left_join d))
              (group_by fst (left_join d))) as Hg.
    { apply In_group_by. split; [apply left_join_keys, Hu | reflexivity]. }
    apply list_elem_of_In, list_elem_of_lookup_1 in Hg as [i Hi].
    destruct (Forall2_lookup_l _ _ _ i _ Hv Hi) as (row & Hrow & Heq).
    exists row.
    split; [apply list_elem_of_In, (list_elem_of_lookup_2 _ i), Hrow|].
    unfold user_file_stats_row in Heq. simpl fst in Heq. simpl snd in Heq.
    unfold usage_percentage_of, percentage_of in *.
    destruct (Users.storage_used u) as [used|],
             (Users.storage_limit u) as [limit|];
      try destruct (limit =? 0); try discriminate;
      injection Heq as <-; split; reflexivity.
Qed.

(** The user of [null_limit] without a limit has no percentage. *)
Lemma X15_witness :
  exists row,
    In row [{| UserFileStats.user_id := 1%N;
               UserFileStats.total_files := 0;
               UserFileStats.total_size := 0;
               UserFileStats.storage_used := Some 0;
               UserFileStats.storage_limit := Some 5368709120;
               UserFileStats.usage_percentage :=
                 Some {| dividend := 0; divisor := 5368709120 |} |};
            {| UserFileStats.user_id := 2%N;
               UserFileStats.total_files := 0;
               UserFileStats.total_size := 0;
               UserFileStats.storage_used := Some 700;
               UserFileStats.storage_limit := None;
               UserFileStats.usage_percentage := None |}]
    /\ UserFileStats.user_id row = 2%N
    /\ UserFileStats.usage_percentage row = None.
Proof.
  apply (proj2 (X15_user_file_stats_fails_on_zero_limit null_limit) _ 2%N
           {| Users.storage_used := Some 700; Users.storage_limit := None |}).
  - vm_compute. reflexivity.
  - right. left. reflexivity.
Defined.

Lemma sum_pointwise {K} (a b : K -> Z) (ks : list K) :
  foldr Z.add 0 (map (fun k => a k + b k) ks)
  = foldr Z.add 0 (map a ks) + foldr Z.add 0 (map b ks).
Proof. induction ks as [|k ks IH]; simpl; [reflexivity | rewrite IH; lia]. Qed.

Lemma sum_indicator {K} `{EqDecision K} (k0 : K) (c : Z) (ks : list K) :
  NoDup ks ->
  foldr Z.add 0 (map (fun k => if bool_decide (k0 = k) then c else 0) ks)
  = if bool_decide (k0 ∈ ks) then c else 0.
Proof.
  induction ks as [|k ks IH]; intros Hnd; [reflexivity|].
  apply NoDup_cons in Hnd as [Hk Hnd]. simpl. rewrite (IH Hnd).
  destruct (decide (k0 = k)) as [->|Hne].
  - rewrite bool_decide_eq_true_2 by reflexivity.
    rewrite (bool_decide_eq_false_2 (k ∈ ks)) by exact Hk.
    rewrite (bool_decide_eq_true_2 (k ∈ k :: ks)) by left. lia.
  - rewrite (bool_decide_eq_false_2 (k0 = k)) by exact Hne.
    destruct (decide (k0 ∈ ks)) as [Hin|Hnin].
    + rewrite (bool_decide_eq_true_2 (k0 ∈ ks)) by exact Hin.
      rewrite (bool_decide_eq_true_2 (k0 ∈ k :: ks)) by (right; exact Hin).
      reflexivity.
    + rewrite (bool_decide_eq_false_2 (k0 ∈ ks)) by exact Hnin.
      rewrite (bool_decide_eq_false_2 (k0 ∈ k :: ks));
        [reflexivity|].
      intros Hin. apply elem_of_cons in Hin as [?|?]; contradiction.
Qed.

Lemma NoDup_List_filter {A} (P : A -> bool) (l : list A) :
  NoDup l -> NoDup (List.filter P l).
Proof.
  induction l as [|x l IH]; intros Hnd; simpl; [constructor|].
  apply NoDup_cons in Hnd as [Hx Hnd].
  destruct (P x); [|apply IH, Hnd].
  apply NoDup_cons. split; [|apply IH, Hnd].
  rewrite list_elem_of_In, List.filter_In, <- list_elem_of_In.
  intros [Hin _]. contradiction.
Qed.

(** Grouping loses no row and counts none twice: summed over the groups
    whose key satisfies [P], an additive aggregate is the aggregate of the
    rows whose key satisfies [P]. *)
Lemma group_sum {A K} `{EqDecision K} (key : A -> K) (g : A -> Z)
    (P : K -> bool) (ks : list K) (rows : list A) :
  NoDup ks -> (forall x, In x rows -> In (key x) ks) ->
  foldr Z.add 0
    (map (fun k => foldr Z.add 0
                     (map g (List.filter (fun r => bool_decide (key r = k)) rows)))
         (List.filter P ks))
  = foldr Z.add 0 (map g (List.filter (fun x => P (key x)) rows)).
Proof.
  intros Hnd. induction rows as [|x rows IH]; intros Hkeys.
  - simpl. induction (List.filter P ks) as [|k l IHl]; simpl; [reflexivity | exact IHl].
  - rewrite (map_ext _
      (fun k => (if bool_decide (key x = k) then g x else 0)
                + foldr Z.add 0
                    (map g (List.filter (fun r => bool_decide (key r = k)) rows)))).
    2:{ intros k. simpl. destruct (bool_decide (key x = k)); reflexivity. }
    rewrite sum_pointwise, IH by (intros y Hy; apply Hkeys; right; exact Hy).
    rewrite sum_indicator by (apply NoDup_List_filter, Hnd).
    simpl. destruct (P (key x)) eqn:HP.
    + rewrite bool_decide_eq_true_2; [reflexivity|].
      apply list_elem_of_In, List.filter_In. split; [|exact HP].
      apply Hkeys. left. reflexivity.
    + rewrite bool_decide_eq_false_2; [reflexivity|].
      rewrite list_elem_of_In, List.filter_In. intros [_ HP']. congruence.
Qed.

Lemma List_filter_map {A B} (P : B -> bool) (f : A -> B) (l : list A) :
  List.filter P (map f l) = map f (List.filter (fun x => P (f x)) l).
Proof.
  induction l as [|x l IH]; simpl; [reflexivity|].
  destruct (P (f x)); simpl; rewrite IH; reflexivity.
Qed.

Lemma List_filter_filter {A} (P Q : A -> bool) (l : list A) :
  List.filter P (List.filter Q l) = List.filter (fun x => P x && Q x) l.
Proof.
  induction l as [|x l IH]; simpl; [reflexivity|].
  destruct (Q x); simpl; [|rewrite andb_false_r; exact IH].
  rewrite andb_true_r. destruct (P x); rewrite IH; reflexivity.
Qed.

(** The files the rows of [file_type_stats] of user [u] are made of. *)
Lemma file_type_stats_of_user (mime_type : uuid -> option string) (d : database)
    (u : uuid) (g : uuid * Files.row -> Z) :
  foldr Z.add 0
    (map (fun k => foldr Z.add 0
            (map g (List.filter
                      (fun f => bool_decide
                         ((Files.user_id (snd f), file_type (mime_type (fst f))) = k))
                      (List.filter
                         (fun f => bool_decide (Files.is_deleted (snd f) = Some false))
                         (files d)))))
         (List.filter (fun k : uuid * string => N.eqb (fst k) u)
            (remove_dups
               (map (fun f => (Files.user_id (snd f), file_type (mime_type (fst f))))
                  (List.filter
                     (fun f => bool_decide (Files.is_deleted (snd f) = Some false))
                     (files d))))))
  = foldr Z.add 0 (map g (List.filter (live_file_of u) (files d))).
Proof.
  rewrite (group_sum _ g (fun k : uuid * string => N.eqb (fst k) u)).
  - rewrite List_filter_filter. reflexivity.
  - apply NoDup_remove_dups.
  - intros x Hx. apply list_elem_of_In, elem_of_remove_dups, list_elem_of_In.
    apply (in_map (fun f : uuid * Files.row =>
                     (Files.user_id (snd f), file_type (mime_type (fst f))))
             _ x Hx).
Qed.

(** The sums of the rows of [file_type_stats] of user [u]. *)
Lemma file_type_stats_totals (mime_type : uuid -> option string) (d : database)
    (u : uuid) :
  foldr Z.add 0
    (map FileTypeStats.file_count (of_user u (file_type_stats mime_type d)))
  = Z.of_nat (length (live_sizes u d))
  /\ foldr Z.add 0
       (map (fun r => COALESCE (FileTypeStats.total_size r) 0)
            (of_user u (file_type_stats mime_type d)))
     = live_total u d.
Proof.
  unfold of_user, file_type_stats, group_by.
  rewrite !List_filter_map, !map_map. simpl. split.
  - rewrite (map_ext _ (fun k => foldr Z.add 0
      (map (fun _ => 1)
         (List.filter
            (fun f => bool_decide
               ((Files.user_id (snd f), file_type (mime_type (fst f))) = k))
            (List.filter
               (fun f => bool_decide (Files.is_deleted (snd f) = Some false))
               (files d))))))
      by (intros k; apply length_sum).
    rewrite (file_type_stats_of_user mime_type d u (fun _ => 1)).
    unfold live_sizes. rewrite length_map. symmetry. apply length_sum.
  - rewrite (map_ext _ (fun k => foldr Z.add 0
      (map (fun f => Files.size (snd f))
         (List.filter
            (fun f => bool_decide
               ((Files.user_id (snd f), file_type (mime_type (fst f))) = k))
            (List.filter
               (fun f => bool_decide (Files.is_deleted (snd f) = Some false))
               (files d))))))
      by (intros k; apply COALESCE_SUM).
    rewrite (file_type_stats_of_user mime_type d u (fun f => Files.size (snd f))).
    reflexivity.
Qed.

Lemma prefix_append (pre m : string) :
  String.prefix pre m = true -> exists rest, m = String.append pre rest.
Proof.
  revert m. induction pre as [|a pre IH]; intros m H.
  - exists m. reflexivity.
  - destruct m as [|b m]; [discriminate|]. simpl in H.
    destruct (Ascii.ascii_dec a b) as [->|]; [|discriminate].
    destruct (IH m H) as (rest & ->). exists rest. reflexivity.
Qed.

(** A value no [WHEN] matches falls to the [ELSE]. *)
Lemma file_type_unmatched (m : option string) :
  unmatched m -> file_type m = "other".
Proof.
  destruct m as [m|]; [|reflexivity]. intros [Hpre Hdoc]. unfold file_type.
  assert (forall pre, In pre ["image/"; "video/"; "audio/"; "text/"] ->
                      String.prefix pre m = false) as Hno.
  { intros pre Hin. destruct (String.prefix pre m) eqn:Hp; [|reflexivity].
    apply prefix_append in Hp as (rest & Hrest).
    destruct (Hpre pre rest Hin Hrest). }
  rewrite !Hno by (simpl; tauto).
  rewrite bool_decide_eq_false_2; [reflexivity|].
  intros Hin. apply Hdoc. apply list_elem_of_In, Hin.
Qed.

Lemma file_type_stats_counts_other (mime_type : uuid -> option string)
    (d : database) :
  counted_under_other mime_type d.
Proof.
  intros f r Hin Hlive Hun.
  set (live := List.filter
                 (fun f => bool_decide (Files.is_deleted (snd f) = Some false))
                 (files d)).
  set (key := fun f : uuid * Files.row =>
                (Files.user_id (snd f), file_type (mime_type (fst f)))).
  assert (In (f, r) live) as Hf.
  { apply List.filter_In. split; [exact Hin|].
    apply bool_decide_eq_true_2, Hlive. }
  assert (key (f, r) = (Files.user_id r, "other")) as Hkey.
  { unfold key. simpl. rewrite (file_type_unmatched _ Hun). reflexivity. }
  assert (In (f, r)
            (List.filter
               (fun x => bool_decide (key x = (Files.user_id r, "other")))
               live)) as Hg.
  { apply List.filter_In. split; [exact Hf|].
    apply bool_decide_eq_true_2, Hkey. }
  exists {| FileTypeStats.user_id := Files.user_id r;
            FileTypeStats.file_type := "other";
            FileTypeStats.file_count :=
              Z.of_nat
                (length (List.filter
                           (fun x => bool_decide
                                       (key x = (Files.user_id r, "other")))
                           live));
            FileTypeStats.total_size :=
              SUM (map (fun f => Files.size (snd f))
                     (List.filter
                        (fun x => bool_decide
                                    (key x = (Files.user_id r, "other")))
                        live)) |}.
  split; [|split; [reflexivity|split; [reflexivity|]]].
  - apply in_map_iff.
    exists ((Files.user_id r, "other"),
            List.filter
              (fun x => bool_decide (key x = (Files.user_id r, "other"))) live).
    split; [reflexivity|]. apply In_group_by. split; [|reflexivity].
    apply in_map_iff. exists (f, r). split; [exact Hkey | exact Hf].
  - simpl.
    destruct (List.filter
                (fun x => bool_decide (key x = (Files.user_id r, "other")))
                live) as [|x l]; [destruct Hg|].
    simpl length. lia.
Qed.

(** X16. The two views agree: the row of a user in [user_file_stats] counts
    as many files as the rows of that user in [file_type_stats] count
    together, and its total size is the sum of their total sizes; a file
    that is not deleted, without a [mime_type] or of a type no pattern
    matches, is counted in the row of type [other] of its owner and not
    lost. *)
Theorem X16_file_types_add_up_to_user_totals
    (mime_type : uuid -> option string) (d : database)
    (rows : list UserFileStats.row) (row : UserFileStats.row) :
  primary_key (users d) ->
  user_file_stats d = Rows rows ->
  In row rows ->
  views_agree mime_type d row /\ counted_under_other mime_type d.
Proof.
  intros Hpk Hv Hrow. split; [|apply file_type_stats_counts_other].
  destruct (user_file_stats_Rows d rows Hpk Hv) as (keys & _ & Hall).
  apply list_elem_of_In, list_elem_of_lookup_1 in Hrow as [i Hi].
  destruct (Forall2_lookup_r _ _ _ i row Hall Hi) as (k & _ & Hrep).
  destruct Hrep as (Hid & Hfiles & Hsize & _).
  destruct (file_type_stats_totals mime_type d (fst k)) as [Hcount Hsum].
  unfold views_agree. simpl. rewrite Hid, Hfiles, Hsize, Hcount, Hsum.
  split; reflexivity.
Qed.

Lemma file_type_values (m : option string) : In (file_type m) file_types.
Proof.
  unfold file_type, file_types. destruct m as [m|]; [|simpl; tauto].
  repeat match goal with
         | |- context [if ?b then _ else _] => destruct b
         end; simpl; tauto.
Qed.

(** X17. The view [file_type_stats] has one row for each pair of a user and
    a file type of which the user has a file that is not deleted, and no
    other row: no two rows have the same user and type, a row counts at
    least one file, its type is one of the six of the [CASE], and its
    [total_size] is not [NULL]. *)
Theorem X17_file_type_stats_one_row_per_user_and_type
    (mime_type : uuid -> option string) (d : database) (u : uuid) (t : string) :
  NoDup (map (fun r => (FileTypeStats.user_id r, FileTypeStats.file_type r))
           (file_type_stats mime_type d))
  /\ Forall (fun r => 1 <= FileTypeStats.file_count r
                      /\ In (FileTypeStats.file_type r) file_types
                      /\ FileTypeStats.total_size r <> None)
       (file_type_stats mime_type d)
  /\ ((exists r, In r (file_type_stats mime_type d)
                 /\ FileTypeStats.user_id r = u
                 /\ FileTypeStats.file_type r = t)
      <-> exists f, In f (files d)
                    /\ Files.user_id (snd f) = u
                    /\ Files.is_deleted (snd f) = Some false
                    /\ file_type (mime_type (fst f)) = t).
Proof.
  unfold file_type_stats.
  set (live := List.filter
                 (fun f => bool_decide (Files.is_deleted (snd f) = Some false))
                 (files d)).
  set (key := fun f : uuid * Files.row =>
                (Files.user_id (snd f), file_type (mime_type (fst f)))).
  assert (forall f, In f live <->
                    In f (files d) /\ Files.is_deleted (snd f) = Some false)
    as Hlive.
  { intros f. unfold live. rewrite List.filter_In, bool_decide_eq_true.
    reflexivity. }
  split; [|split].
  - rewrite map_map. simpl.
    rewrite <- (map_map fst (fun k : uuid * string => (fst k, snd k))).
    rewrite keys_group_by.
    rewrite (map_ext _ id) by (intros [a b]; reflexivity). rewrite map_id.
    apply NoDup_remove_dups.
  - apply Forall_forall. intros r Hr. apply list_elem_of_In in Hr.
    apply in_map_iff in Hr as ([k g] & <- & Hg). simpl.
    apply In_group_by in Hg as [Hk ->].
    apply in_map_iff in Hk as (f & Hkey & Hf).
    assert (In f (List.filter (fun r => bool_decide (key r = k)) live)) as Hin.
    { apply List.filter_In. split; [exact Hf|].
      apply bool_decide_eq_true_2, Hkey. }
    destruct (List.filter (fun r => bool_decide (key r = k)) live) as [|f0 l];
      [destruct Hin|].
    split; [simpl length; lia|]. split; [|discriminate].
    rewrite <- Hkey. apply file_type_values.
  - split.
    + intros (r & Hr & Hu & Ht).
      apply in_map_iff in Hr as ([k g] & <- & Hg). simpl in Hu, Ht.
      apply In_group_by in Hg as [Hk _].
      apply in_map_iff in Hk as (f & Hkey & Hf). apply Hlive in Hf as [Hf Hdel].
      exists f. subst k. simpl in Hu, Ht. repeat split; assumption.
    + intros (f & Hf & Hu & Hdel & Ht).
      exists {| FileTypeStats.user_id := u; FileTypeStats.file_type := t;
                FileTypeStats.file_count :=
                  Z.of_nat (length (List.filter
                                      (fun r => bool_decide (key r = (u, t))) live));
                FileTypeStats.total_size :=
                  SUM (map (fun f => Files.size (snd f))
                         (List.filter (fun r => bool_decide (key r = (u, t))) live)) |}.
      split; [|split; reflexivity].
      apply in_map_iff.
      exists ((u, t), List.filter (fun r => bool_decide (key r = (u, t))) live).
      split; [reflexivity|]. apply In_group_by. split; [|reflexivity].
      apply in_map_iff. exists f. split; [unfold key; congruence|].
      apply Hlive. split; assumption.
Qed.

End ViewFacts.

Lemma typed_files_primary_key : primary_key (users typed_files).
Proof. apply (bool_decide_unpack _). vm_compute. exact I. Qed.

(** User 2 of [typed_files], who has no file. *)
Lemma X14_witness :
  map Views.UserFileStats.user_id typed_files_stats ≡ₚ map fst (users typed_files)
  /\ exists row, In row typed_files_stats
                 /\ Views.reported typed_files 2%N new_user row
                 /\ (in_bigint (live_total 2%N typed_files) = true ->
                     calculate_user_storage_usage 2%N typed_files
                     = Ok (Views.UserFileStats.total_size row)).
Proof.
  apply (X14_user_file_stats_reports_every_user typed_files typed_files_stats
           2%N new_user).
  - apply typed_files_primary_key.
  - vm_compute. reflexivity.
  - right. left. reflexivity.
Defined.

(** User 1 of [typed_files]: a picture and a file without a type. *)
Lemma X16_witness :
  Views.views_agree typed_files_mime_type typed_files
    {| Views.UserFileStats.user_id := 1%N;
       Views.UserFileStats.total_files := 2;
       Views.UserFileStats.total_size := 1500;
       Views.UserFileStats.storage_used := Some 1500;
       Views.UserFileStats.storage_limit := Some 5368709120;
       Views.UserFileStats.usage_percentage :=
         Some {| Views.dividend := 1500; Views.divisor := 5368709120 |} |}
  /\ Views.counted_under_other typed_files_mime_type typed_files.
Proof.
  apply (X16_file_types_add_up_to_user_totals typed_files_mime_type typed_files
           typed_files_stats).
  - apply typed_files_primary_key.
  - vm_compute. reflexivity.
  - left. reflexivity.
Defined.

(** ** Deleting a folder *)

Lemma set_null_cases (f : uuid) (d d' : database) :
  set_null_folder_id f d = Ok d' ->
  (select f (files d) = None /\ d' = d)
  \/ exists OLD,
       select f (files d) = Some OLD
       /\ in_bigint (live_total (Files.user_id OLD)
                       (with_files d (replace_row f (set_folder_id None OLD)
                                        (files d)))) = true
       /\ d' = with_users
                 (with_files d (replace_row f (set_folder_id None OLD) (files d)))
                 (set_storage_used (Files.user_id OLD)
                    (live_total (Files.user_id OLD)
                       (with_files d (replace_row f (set_folder_id None OLD)
                                        (files d))))
                    (users d)).
Proof.
  unfold set_null_folder_id. destruct (select f (files d)) as [OLD|].
  - intros H. right. exists OLD. split; [reflexivity|].
    apply trigger_effect in H as [Hb ->]. simpl in *. auto.
  - intros [= <-]. left. auto.
Qed.

Lemma for_each_preserves {A} (f : A -> database -> result database)
    (Q : database -> database -> Prop) (l : list A) :
  (forall d, Q d d) ->
  (forall d1 d2 d3, Q d1 d2 -> Q d2 d3 -> Q d1 d3) ->
  (forall x d d', In x l -> f x d = Ok d' -> Q d d') ->
  forall d d', for_each f l d = Ok d' -> Q d d'.
Proof.
  intros Hrefl Htrans. induction l as [|x l IH]; intros Hstep d d' H; simpl in H.
  - injection H as <-. apply Hrefl.
  - apply bind_Ok in H as (d1 & H1 & H).
    apply (Htrans d d1 d').
    + apply (Hstep x d d1); [left; reflexivity | exact H1].
    + apply (IH (fun y dx dy Hy => Hstep y dx dy (or_intror Hy)) d1 d' H).
Qed.

(** Whatever is kept by the deletion of one row of [folders] and by setting
    the [folder_id] of one file to [NULL], and is kept along a sequence of
    steps, is kept by the deletion of a folder. *)
Lemma delete_folder_preserves (Q : database -> database -> Prop) :
  (forall d, Q d d) ->
  (forall d1 d2 d3, Q d1 d2 -> Q d2 d3 -> Q d1 d3) ->
  (forall id d, Q d (with_folders d (remove_row id (folders d)))) ->
  (forall f d d', set_null_folder_id f d = Ok d' -> Q d d') ->
  forall n id d d', delete_folder n id d = Ok d' -> Q d d'.
Proof.
  intros Hrefl Htrans Hrow Hfile.
  induction n as [|n IH]; intros id d d' H; simpl in H.
  - injection H as <-. apply Hrefl.
  - destruct (has_key id (folders d)); [|injection H as <-; apply Hrefl].
    apply bind_Ok in H as (d2 & H2 & H).
    apply (Htrans d (with_folders d (remove_row id (folders d))) d');
      [apply Hrow|].
    apply (Htrans _ d2 d').
    + apply (for_each_preserves _ Q _ Hrefl Htrans
               (fun f dx dy _ => Hfile f dx dy) _ _ H2).
    + apply (for_each_preserves _ Q _ Hrefl Htrans
               (fun c dx dy _ => IH c dx dy) _ _ H).
Qed.

Lemma length_remove_row {R} (k : uuid) (t : table R) :
  (length (remove_row k t) <= length t)%nat.
Proof.
  induction t as [|[k' r] t IH]; simpl; [lia|].
  destruct (N.eqb k' k); simpl; lia.
Qed.

Lemma length_remove_row_present {R} (k : uuid) (t : table R) :
  has_key k t = true -> (length (remove_row k t) < length t)%nat.
Proof.
  unfold has_key. induction t as [|[k' r] t IH]; simpl; [discriminate|].
  destruct (N.eqb k' k); simpl; intros H.
  - pose proof (length_remove_row k t). lia.
  - specialize (IH H). lia.
Qed.

Lemma folder_delete_frame_refl (d : database) : folder_delete_frame d d.
Proof.
  repeat split; auto.
Qed.

Lemma folder_delete_frame_trans (d1 d2 d3 : database) :
  folder_delete_frame d1 d2 -> folder_delete_frame d2 d3 ->
  folder_delete_frame d1 d3.
Proof.
  intros (Hfo1 & Hlen1 & Hk1 & Hfi1 & Hsh1 & Hta1 & Hu1)
         (Hfo2 & Hlen2 & Hk2 & Hfi2 & Hsh2 & Hta2 & Hu2).
  split; [|split; [lia|split; [congruence|split; [|split; [congruence|split;
    [congruence|]]]]]].
  - intros c. destruct (Hfo2 c) as [->| ->]; [apply Hfo1 | right; reflexivity].
  - intros f. destruct (Hfi2 f) as [->| ->], (Hfi1 f) as [->| ->]; auto.
    right. destruct (select f (files d1)); reflexivity.
  - intros u. destruct (Hu1 u) as (Ht1 & Hl1 & Hs1), (Hu2 u) as (Ht2 & Hl2 & Hs2).
    split; [congruence|]. split; [congruence|].
    destruct Hs2 as [Hs2|Hs2]; [|right; exact Hs2].
    destruct Hs1 as [Hs1|Hs1]; [left; congruence|].
    right. unfold storage_exact in *. congruence.
Qed.

Lemma remove_folder_frame (id : uuid) (d : database) :
  folder_delete_frame d (with_folders d (remove_row id (folders d))).
Proof.
  split; [|split; [apply length_remove_row|repeat split; auto]].
  intros c. simpl. rewrite select_remove_row.
  destruct (N.eqb id c); [right | left]; reflexivity.
Qed.

Lemma set_null_frame (f : uuid) (d d' : database) :
  set_null_folder_id f d = Ok d' ->
  primary_key (files d) ->
  primary_key (files d') /\ folder_delete_frame d d'.
Proof.
  intros H Hpk. apply set_null_cases in H
    as [[_ ->]|(OLD & Hsel & _ & ->)];
    [split; [exact Hpk | apply folder_delete_frame_refl]|].
  split; [unfold primary_key; simpl; rewrite keys_replace_row; exact Hpk|].
  split; [intros c; left; reflexivity|]. split; [reflexivity|].
  split; [simpl; apply keys_replace_row|].
  split; [|split; [reflexivity|split; [reflexivity|]]].
  - intros g. simpl. rewrite select_replace_row.
    destruct (N.eqb_spec f g) as [<-|_]; [|left; reflexivity].
    right. rewrite Hsel. reflexivity.
  - intros u.
    assert (live_total u (with_files d (replace_row f (set_folder_id None OLD)
                                          (files d))) = live_total u d) as Htotal.
    { rewrite !live_total_table. simpl.
      rewrite (table_total_replace u f OLD) by assumption.
      unfold contribution. simpl. lia. }
    destruct (recompute_changes_one_aggregate
                (Files.user_id (set_folder_id None OLD)) u
                (with_files d (replace_row f (set_folder_id None OLD) (files d))))
      as [Hused Hlimit].
    split; [exact Htotal|]. split; [exact Hlimit | exact Hused].
Qed.

Lemma delete_folder_frame (n : nat) (id : uuid) (d d' : database) :
  delete_folder n id d = Ok d' ->
  primary_key (files d) ->
  primary_key (files d') /\ folder_delete_frame d d'.
Proof.
  apply (delete_folder_preserves
           (fun d d' => primary_key (files d) ->
                        primary_key (files d') /\ folder_delete_frame d d')).
  - intros dx Hpk. split; [exact Hpk | apply folder_delete_frame_refl].
  - intros d1 d2 d3 H12 H23 Hpk. destruct (H12 Hpk) as [Hpk2 Hf12].
    destruct (H23 Hpk2) as [Hpk3 Hf23].
    split; [exact Hpk3 | apply (folder_delete_frame_trans d1 d2 d3 Hf12 Hf23)].
  - intros c dx Hpk. split; [exact Hpk | apply remove_folder_frame].
  - intros f dx dy. apply set_null_frame.
Qed.

Lemma delete_folder_keeps_primary_key (n : nat) (id : uuid) (d d' : database) :
  delete_folder n id d = Ok d' ->
  primary_key (folders d) -> primary_key (folders d').
Proof.
  apply (delete_folder_preserves
           (fun d d' => primary_key (folders d) -> primary_key (folders d'))).
  - auto.
  - auto.
  - intros c dx. simpl. apply primary_key_remove_row.
  - intros f dx dy H. apply set_null_cases in H
      as [[_ ->]|(OLD & _ & _ & ->)]; auto.
Qed.

Lemma In_files_of_folder (id f : uuid) (r : Files.row) (d : database) :
  select f (files d) = Some r -> Files.folder_id r = Some id ->
  In f (files_of_folder id d).
Proof.
  intros Hsel Hf. unfold files_of_folder.
  change f with (fst (f, r)). apply in_map, List.filter_In.
  split; [apply select_In, Hsel | apply bool_decide_eq_true_2, Hf].
Qed.

Lemma In_sub_folders (id c : uuid) (r : Folders.row) (d : database) :
  select c (folders d) = Some r -> Folders.parent_id r = Some id ->
  In c (sub_folders id d).
Proof.
  intros Hsel Hp. unfold sub_folders.
  change c with (fst (c, r)). apply in_map, List.filter_In.
  split; [apply select_In, Hsel | apply bool_decide_eq_true_2, Hp].
Qed.

(** The [SET NULL] action on a list of files: afterwards none of them is in
    a folder. *)
Lemma set_null_all (l : list uuid) (d d' : database) :
  primary_key (files d) ->
  for_each set_null_folder_id l d = Ok d' ->
  primary_key (files d') /\ folder_delete_frame d d'
  /\ folders d' = folders d
  /\ forall f r, In f l -> select f (files d') = Some r ->
                 Files.folder_id r = None.
Proof.
  revert d. induction l as [|x l IH]; intros d Hpk H; simpl in H.
  - injection H as <-. split; [exact Hpk|].
    split; [apply folder_delete_frame_refl|]. split; [reflexivity|].
    intros f r [].
  - apply bind_Ok in H as (d1 & H1 & H).
    destruct (set_null_frame x d d1 H1 Hpk) as [Hpk1 Hf1].
    destruct (IH d1 Hpk1 H) as (Hpk' & Hf' & Hfolders & Hnull).
    split; [exact Hpk'|].
    split; [apply (folder_delete_frame_trans d d1 d' Hf1 Hf')|].
    split.
    { rewrite Hfolders. apply set_null_cases in H1
        as [[_ ->]|(OLD & _ & _ & ->)]; reflexivity. }
    intros f r [<-|Hin] Hr; [|apply (Hnull f r Hin Hr)].
    destruct Hf' as (_ & _ & _ & Hfiles & _).
    assert (forall r1, select x (files d1) = Some r1 -> Files.folder_id r1 = None)
      as Hx.
    { apply set_null_cases in H1 as [[Hnone ->]|(OLD & Hsel & _ & ->)].
      - intros r1 Hr1. congruence.
      - intros r1. simpl. rewrite select_replace_row, N.eqb_refl, Hsel. simpl.
        intros [= <-]. reflexivity. }
    destruct (Hfiles x) as [Heq|Heq]; rewrite Heq in Hr.
    + apply (Hx r Hr).
    + destruct (select x (files d1)) as [r1|]; [|discriminate].
      injection Hr as <-. reflexivity.
Qed.

(** The [CASCADE] action on a list of sub-folders, given what the deletion
    of one folder does at the depth below. *)
Lemma cascade_children (n : nat) (P : uuid -> Prop) :
  (forall id d d',
      primary_key (files d) -> (length (folders d) <= n)%nat ->
      delete_folder n id d = Ok d' ->
      select id (folders d') = None
      /\ (references_within P d -> references_within P d')) ->
  forall l d d',
    primary_key (files d) -> (length (folders d) <= n)%nat ->
    for_each (delete_folder n) l d = Ok d' ->
    primary_key (files d') /\ folder_delete_frame d d'
    /\ (forall c, In c l -> select c (folders d') = None)
    /\ (references_within P d -> references_within P d').
Proof.
  intros Hone. induction l as [|c l IH]; intros d d' Hpk Hlen H; simpl in H.
  - injection H as <-. split; [exact Hpk|].
    split; [apply folder_delete_frame_refl|]. split; [intros c []|auto].
  - apply bind_Ok in H as (d1 & H1 & H).
    destruct (delete_folder_frame n c d d1 H1 Hpk) as [Hpk1 Hf1].
    destruct (Hone c d d1 Hpk Hlen H1) as [Hgone Hrefs1].
    assert (length (folders d1) <= n)%nat as Hlen1
      by (destruct Hf1 as (_ & Hl & _); lia).
    destruct (IH d1 d' Hpk1 Hlen1 H) as (Hpk' & Hf' & Hgone' & Hrefs').
    split; [exact Hpk'|].
    split; [apply (folder_delete_frame_trans d d1 d' Hf1 Hf')|].
    split; [|auto].
    intros c' [<-|Hin]; [|apply (Hgone' c' Hin)].
    destruct Hf' as (Hfolders & _). destruct (Hfolders c) as [->| ->];
      [exact Hgone | reflexivity].
Qed.

(** The cascade is complete: the folder is gone, and a reference that was
    resolved before is resolved after. *)
Lemma delete_folder_complete (n : nat) :
  forall (P : uuid -> Prop) id d d',
    primary_key (files d) -> (length (folders d) <= n)%nat ->
    delete_folder n id d = Ok d' ->
    select id (folders d') = None
    /\ (references_within P d -> references_within P d').
Proof.
  induction n as [|n IH]; intros P id d d' Hpk Hlen H; simpl in H.
  - injection H as <-. destruct (folders d) as [|p t] eqn:Hfo;
      [|simpl in Hlen; lia].
    split; [reflexivity | auto].
  - destruct (has_key id (folders d)) eqn:Hkey.
    2:{ injection H as <-. split; [|auto].
        unfold has_key in Hkey. destruct (select id (folders d));
          [discriminate | reflexivity]. }
    apply bind_Ok in H as (d2 & H2 & H).
    set (d1 := with_folders d (remove_row id (folders d))) in *.
    set (P' := fun x => P x \/ x = id).
    destruct (set_null_all _ d1 d2 Hpk H2) as (Hpk2 & Hf12 & Hfolders2 & Hnull).
    assert (length (folders d2) <= n)%nat as Hlen2.
    { rewrite Hfolders2. simpl.
      pose proof (length_remove_row_present id (folders d) Hkey). lia. }
    destruct (cascade_children n P' (IH P') _ d2 d' Hpk2 Hlen2 H)
      as (Hpk' & Hf2' & Hgone & Hrefs).
    assert (forall f r, select f (files d2) = Some r ->
                        Files.folder_id r <> Some id) as Hnofile2.
    { intros f r Hr Hid. destruct Hf12 as (_ & _ & _ & Hfiles & _).
      destruct (Hfiles f) as [Heq|Heq].
      - assert (Files.folder_id r = None); [|congruence].
        apply (Hnull f r); [|exact Hr].
        apply (In_files_of_folder id f r d1); [congruence | exact Hid].
      - rewrite Heq in Hr. destruct (select f (files d1)); [|discriminate].
        injection Hr as <-. discriminate. }
    split.
    + pose proof (folder_delete_frame_trans d1 d2 d' Hf12 Hf2') as (Hfo & _).
      destruct (Hfo id) as [->| ->]; [|reflexivity].
      simpl. rewrite select_remove_row, N.eqb_refl. reflexivity.
    + intros [Hfiles Hfolders].
      assert (forall x, has_key x (folders d) = true \/ P x ->
                        has_key x (folders d1) = true \/ P' x) as Hstep.
      { intros x [Hx|Hx]; [|right; left; exact Hx].
        destruct (N.eqb_spec id x) as [->|Hne]; [right; right; reflexivity|].
        left. unfold has_key in *. simpl. rewrite select_remove_row.
        destruct (N.eqb_spec id x); [contradiction | exact Hx]. }
      assert (references_within P' d2) as Href2.
      { split.
        - intros f r x Hr Hx. rewrite Hfolders2.
          destruct Hf12 as (_ & _ & _ & Hfi & _).
          destruct (Hfi f) as [Heq|Heq]; rewrite Heq in Hr.
          + apply Hstep, (Hfiles f r x Hr Hx).
          + destruct (select f (files d1)); [|discriminate].
            injection Hr as <-. discriminate.
        - intros c r x Hr Hx. rewrite Hfolders2 in *.
          simpl in Hr. rewrite select_remove_row in Hr.
          destruct (N.eqb id c); [discriminate|].
          apply Hstep, (Hfolders c r x Hr Hx). }
      destruct (Hrefs Href2) as [Hfiles' Hfolders'].
      destruct Hf2' as (Hfo2' & _ & _ & Hfi2' & _).
      split.
      * intros f r x Hr Hx.
        destruct (Hfiles' f r x Hr Hx) as [Hk|[Hp| ->]]; [left; exact Hk | right; exact Hp|].
        exfalso. destruct (Hfi2' f) as [Heq|Heq]; rewrite Heq in Hr.
        -- apply (Hnofile2 f r Hr Hx).
        -- destruct (select f (files d2)); [|discriminate].
           injection Hr as <-. discriminate.
      * intros c r x Hr Hx.
        destruct (Hfolders' c r x Hr Hx) as [Hk|[Hp| ->]]; [left; exact Hk | right; exact Hp|].
        exfalso. destruct (Hfo2' c) as [Heq|Heq]; [|congruence].
        assert (select c (folders d') = None); [|congruence].
        apply Hgone. apply (In_sub_folders id c r d2); [congruence | exact Hx].
Qed.

Lemma set_null_keeps_folders (f : uuid) (d d' : database) :
  set_null_folder_id f d = Ok d' ->
  (length (folders d') <= length (folders d))%nat.
Proof.
  intros Hu. apply set_null_cases in Hu
    as [[_ ->]|(OLD & _ & _ & ->)]; simpl; lia.
Qed.

Lemma set_null_all_length (l : list uuid) (d d' : database) :
  for_each set_null_folder_id l d = Ok d' ->
  (length (folders d') <= length (folders d))%nat.
Proof.
  apply (for_each_preserves _
           (fun d d' => (length (folders d') <= length (folders d))%nat)).
  - intros dx. lia.
  - intros d1 d2 d3 H12 H23. lia.
  - intros f dx dy _. apply set_null_keeps_folders.
Qed.

Lemma delete_folder_length (n : nat) (id : uuid) (d d' : database) :
  delete_folder n id d = Ok d' ->
  (length (folders d') <= length (folders d))%nat.
Proof.
  apply (delete_folder_preserves
           (fun d d' => (length (folders d') <= length (folders d))%nat)).
  - intros dx. lia.
  - intros d1 d2 d3 H12 H23. lia.
  - intros c dx. simpl. apply length_remove_row.
  - apply set_null_keeps_folders.
Qed.

(** More depth than there are folders changes nothing. *)
Lemma delete_folder_depth (n m : nat) :
  forall id d,
    (length (folders d) <= n)%nat -> (length (folders d) <= m)%nat ->
    delete_folder n id d = delete_folder m id d.
Proof.
  revert m. induction n as [|n IH]; intros [|m] id d Hn Hm; simpl.
  - reflexivity.
  - destruct (folders d); [reflexivity | simpl in Hn; lia].
  - destruct (folders d); [reflexivity | simpl in Hm; lia].
  - destruct (has_key id (folders d)) eqn:Hkey; [|reflexivity].
    pose proof (length_remove_row_present id (folders d) Hkey) as Hlt.
    destruct (for_each set_null_folder_id
                (files_of_folder id (with_folders d (remove_row id (folders d))))
                (with_folders d (remove_row id (folders d)))) as [d2|e] eqn:H2;
      [|reflexivity].
    simpl. apply set_null_all_length in H2. simpl in H2.
    generalize (sub_folders id d2). intros l.
    assert (length (folders d2) <= n)%nat as Hn2 by lia.
    assert (length (folders d2) <= m)%nat as Hm2 by lia.
    clear - IH Hn2 Hm2. revert d2 Hn2 Hm2.
    induction l as [|c l IHl]; intros dx Hn2 Hm2; simpl; [reflexivity|].
    rewrite (IH m c dx Hn2 Hm2).
    destruct (delete_folder m c dx) as [dy|e] eqn:Hc; [|reflexivity].
    simpl. apply delete_folder_length in Hc. apply IHl; lia.
Qed.

(** X18. The deletion of a folder deletes no file: every file of the store
    is still there, with its owner, size and flags, in its folder or, if the
    folder went, in none; only folders go; shares and tasks are as before.
    The total of every user is as before, and a user's [storage_used] is as
    before or has been recomputed to the exact total, for each update of a
    file to [folder_id = NULL] fires the trigger of [files].  The cascade
    never nests deeper than there are folders: any greater depth gives the
    same store. *)
Theorem X18_folder_deletion_keeps_every_file (id : uuid) (d d' : database) :
  primary_key (files d) ->
  delete_from_folders id d = Ok d' ->
  primary_key (files d')
  /\ folder_delete_frame d d'
  /\ forall depth, (length (folders d) <= depth)%nat ->
                   delete_folder depth id d = Ok d'.
Proof.
  intros Hpk H.
  destruct (delete_folder_frame _ id d d' H Hpk) as [Hpk' Hframe].
  split; [exact Hpk'|]. split; [exact Hframe|].
  intros depth Hdepth. rewrite <- H. unfold delete_from_folders.
  apply delete_folder_depth; [exact Hdepth | lia].
Qed.

(** X19. The cascade is complete and leaves no reference behind: after the
    deletion of a folder the folder is gone, with every folder under it, and
    in a store whose references to folders held, every [folder_id] of a file
    and every [parent_id] of a folder that is not [NULL] still names a
    folder of the table. *)
Theorem X19_folder_deletion_leaves_no_dangling_reference
    (id : uuid) (d d' : database) :
  primary_key (files d) -> primary_key (folders d) ->
  folder_references_hold d ->
  delete_from_folders id d = Ok d' ->
  select id (folders d') = None /\ folder_references_hold d'.
Proof.
  intros Hpk Hpkf [Hfiles Hfolders] H.
  destruct (delete_folder_frame _ id d d' H Hpk) as [Hpk' _].
  pose proof (delete_folder_keeps_primary_key _ id d d' H Hpkf) as Hpkf'.
  destruct (delete_folder_complete _ (fun _ => False) id d d' Hpk
              (Nat.le_refl _) H) as [Hgone Hrefs].
  split; [exact Hgone|].
  destruct Hrefs as [Hfiles' Hfolders'].
  { split.
    - intros f r x Hr Hx. left. apply (Hfiles f r x (select_In _ _ _ Hr) Hx).
    - intros c r x Hr Hx. left. apply (Hfolders c r x (select_In _ _ _ Hr) Hx). }
  split.
  - intros f r x Hin Hx.
    destruct (Hfiles' f r x (In_select _ _ _ Hpk' Hin) Hx) as [Hk|[]]. exact Hk.
  - intros c r x Hin Hx.
    destruct (Hfolders' c r x (In_select _ _ _ Hpkf' Hin) Hx) as [Hk|[]]. exact Hk.
Qed.

Lemma folder_tree_deleted_spec :
  delete_from_folders 20%N folder_tree = Ok folder_tree_deleted.
Proof. vm_compute. reflexivity. Qed.

(** The deletion of folder 20 of [folder_tree]. *)
Lemma X18_witness :
  primary_key (files folder_tree_deleted)
  /\ folder_delete_frame folder_tree folder_tree_deleted
  /\ forall depth, (length (folders folder_tree) <= depth)%nat ->
                   delete_folder depth 20%N folder_tree = Ok folder_tree_deleted.
Proof.
  apply (X18_folder_deletion_keeps_every_file 20%N).
  - apply (bool_decide_unpack _). vm_compute. exact I.
  - apply folder_tree_deleted_spec.
Defined.

Lemma X19_witness :
  select 20%N (folders folder_tree_deleted) = None
  /\ folder_references_hold folder_tree_deleted.
Proof.
  apply (X19_folder_deletion_leaves_no_dangling_reference 20%N folder_tree).
  - apply (bool_decide_unpack _). vm_compute. exact I.
  - apply (bool_decide_unpack _). vm_compute. exact I.
  - split.
    + intros f r x Hin Hx. simpl in Hin.
      destruct Hin as [[= <- <-]|[[= <- <-]|[[= <- <-]|[]]]];
        injection Hx as <-; reflexivity.
    + intros c r x Hin Hx. simpl in Hin.
      destruct Hin as [[= <- <-]|[[= <- <-]|[[= <- <-]|[[= <- <-]|[]]]]];
        try discriminate; injection Hx as <-; reflexivity.
  - apply folder_tree_deleted_spec.
Defined.

(** ** Deleting a user *)

Lemma select_filter_true {R} (P : uuid * R -> bool) (k : uuid) (t : table R)
    (r : R) :
  select k t = Some r -> P (k, r) = true -> select k (List.filter P t) = Some r.
Proof.
  induction t as [|[k' r'] t IH]; simpl; [discriminate|].
  destruct (N.eqb_spec k' k) as [->|Hne].
  - intros [= ->] HP. rewrite HP. simpl. rewrite N.eqb_refl. reflexivity.
  - intros Hs HP. destruct (P (k', r')); [simpl|apply IH; assumption].
    destruct (N.eqb_spec k' k); [contradiction | apply IH; assumption].
Qed.

Lemma select_filter_false {R} (P : uuid * R -> bool) (k : uuid) (t : table R)
    (r : R) :
  primary_key t -> select k t = Some r -> P (k, r) = false ->
  select k (List.filter P t) = None.
Proof.
  intros Hpk Hs HP.
  destruct (select k (List.filter P t)) as [x|] eqn:Hx; [|reflexivity].
  apply select_In, List.filter_In in Hx as [Hin HPx].
  rewrite (same_key_same_row t k x r Hpk Hin (select_In _ _ _ Hs)) in HPx.
  congruence.
Qed.

Lemma has_key_storage_limit (w : uuid) (d d' : database) :
  storage_limit_of w d' = storage_limit_of w d ->
  has_key w (users d') = has_key w (users d).
Proof.
  unfold storage_limit_of, has_key.
  destruct (select w (users d')), (select w (users d)); simpl;
    solve [reflexivity | discriminate].
Qed.

Lemma table_total_filter_other (w u : uuid) (t : table Files.row) :
  w <> u ->
  table_total w
    (List.filter (fun p => negb (N.eqb (Files.user_id (snd p)) u)) t)
  = table_total w t.
Proof.
  intros Hne. induction t as [|[k r] t IH]; [reflexivity|]. simpl.
  destruct (N.eqb_spec (Files.user_id r) u) as [Hu|Hu]; simpl.
  - rewrite table_total_cons, IH, contribution_other by congruence. lia.
  - rewrite !table_total_cons, IH. reflexivity.
Qed.

Lemma table_total_filter_own (u : uuid) (t : table Files.row) :
  table_total u
    (List.filter (fun p => negb (N.eqb (Files.user_id (snd p)) u)) t) = 0.
Proof.
  induction t as [|[k r] t IH]; [reflexivity|]. simpl.
  destruct (N.eqb_spec (Files.user_id r) u) as [Hu|Hu]; simpl; [exact IH|].
  rewrite table_total_cons, IH, contribution_other by exact Hu. reflexivity.
Qed.

Lemma for_each_delete_from_folders (n : nat) (l : list uuid) :
  forall d, (length (folders d) <= n)%nat ->
            for_each delete_from_folders l d = for_each (delete_folder n) l d.
Proof.
  induction l as [|c l IH]; intros d Hlen; simpl; [reflexivity|].
  assert (delete_from_folders c d = delete_folder n c d) as ->
    by (unfold delete_from_folders; apply delete_folder_depth; lia).
  destruct (delete_folder n c d) as [d1|e] eqn:H1; [|reflexivity].
  simpl. apply IH. apply delete_folder_length in H1. lia.
Qed.

(** The folders of the user go, each with what is under it. *)
Lemma delete_user_folders (l : list uuid) (d1 d2 : database) :
  primary_key (files d1) ->
  for_each delete_from_folders l d1 = Ok d2 ->
  primary_key (files d2)
  /\ folder_delete_frame d1 d2
  /\ (primary_key (folders d1) -> primary_key (folders d2))
  /\ (forall c, In c l -> select c (folders d2) = None)
  /\ (references_within (fun _ => False) d1 ->
      references_within (fun _ => False) d2).
Proof.
  intros Hpk H.
  rewrite (for_each_delete_from_folders (length (folders d1))) in H by lia.
  destruct (cascade_children (length (folders d1)) (fun _ => False)
              (delete_folder_complete _ (fun _ => False)) l d1 d2 Hpk
              (Nat.le_refl _) H) as (Hpk2 & Hframe & Hgone & Hrefs).
  split; [exact Hpk2|]. split; [exact Hframe|].
  split; [|split; assumption].
  revert H. apply (for_each_preserves _
    (fun d d' => primary_key (folders d) -> primary_key (folders d'))).
  - auto.
  - auto.
  - intros c dx dy _. apply delete_folder_keeps_primary_key.
Qed.

Lemma for_each_fixed {A} (f : A -> database -> result database) (l : list A)
    (d : database) :
  (forall x, In x l -> f x d = Ok d) -> for_each f l d = Ok d.
Proof.
  induction l as [|x l IH]; intros H; simpl; [reflexivity|].
  rewrite (H x) by (left; reflexivity). simpl.
  apply IH. intros y Hy. apply H. right. exact Hy.
Qed.

(** Once the user's row is gone, the trigger of [files] finds no row to
    update: the deletion of the user's files changes [files] and [shares]
    and nothing else. *)
Lemma delete_files_of_user_absent (u : uuid) (d : database) :
  has_key u (users d) = false ->
  delete_files_of_user u d
  = Ok (with_shares
          (with_files d
             (List.filter (fun p => negb (N.eqb (Files.user_id (snd p)) u))
                (files d)))
          (List.filter
             (fun p => negb (has_key (Shares.file_id (snd p)) (files_of_user u d)))
             (shares d))).
Proof.
  intros Hu. unfold delete_files_of_user.
  set (dx := with_shares _ _).
  assert (forall OLD : uuid * Files.row, In OLD (files_of_user u d) ->
            update_user_storage_usage (TG_DELETE (snd OLD)) dx = Ok dx) as Hstep.
  { intros [f OLD] Hin. apply List.filter_In in Hin as [_ Hown].
    apply N.eqb_eq in Hown. simpl in Hown. simpl snd.
    rewrite (trigger_runs (TG_DELETE OLD) dx).
    - simpl. rewrite Hown. rewrite set_storage_used_absent.
      + unfold with_users. simpl. reflexivity.
      + apply has_key_false, Hu.
    - simpl. rewrite Hown, live_total_table. simpl.
      rewrite table_total_filter_own. reflexivity. }
  apply for_each_fixed, Hstep.
Qed.

(** The store a deletion of a user ends in. *)
Lemma delete_from_users_cases (u : uuid) (d d' : database) :
  primary_key (files d) ->
  delete_from_users u d = Ok d' ->
  (has_key u (users d) = false /\ d' = d)
  \/ exists d2,
       has_key u (users d) = true
       /\ for_each delete_from_folders
            (folders_of_user u (with_users d (remove_row u (users d))))
            (with_users d (remove_row u (users d))) = Ok d2
       /\ has_key u (users d2) = false
       /\ d' = with_shares
                 (with_files d2
                    (List.filter
                       (fun p => negb (N.eqb (Files.user_id (snd p)) u))
                       (files d2)))
                 (List.filter
                    (fun p => negb (N.eqb (Shares.user_id (snd p)) u))
                    (List.filter
                       (fun p => negb (has_key (Shares.file_id (snd p))
                                         (files_of_user u d2)))
                       (shares d2))).
Proof.
  intros Hpk H. unfold delete_from_users in H.
  destruct (has_key u (users d)) eqn:Hkey; [|injection H as <-; left; auto].
  right. apply bind_Ok in H as (d2 & H2 & H). apply bind_Ok in H as (d3 & H3 & H).
  exists d2. split; [reflexivity|]. split; [exact H2|].
  destruct (delete_user_folders _ (with_users d (remove_row u (users d))) d2
              Hpk H2) as (_ & Hframe & _).
  assert (has_key u (users d2) = false) as Hu2.
  { destruct Hframe as (_ & _ & _ & _ & _ & _ & Husers).
    destruct (Husers u) as (_ & Hlimit & _).
    rewrite (has_key_storage_limit u _ d2 Hlimit).
    unfold has_key. simpl. rewrite select_remove_row, N.eqb_refl. reflexivity. }
  split; [exact Hu2|].
  rewrite (delete_files_of_user_absent u d2 Hu2) in H3.
  injection H3 as <-. injection H as <-. reflexivity.
Qed.

Lemma has_key_true_ne {R} (u w : uuid) (t : table R) :
  has_key u t = false -> has_key w t = true -> w <> u.
Proof. intros Hu Hw ->. congruence. Qed.

(** X20. The deletion of a user leaves nothing of the user and nothing
    dangling: in a store whose foreign keys hold, after
    [DELETE FROM users WHERE id = u] no file, folder or share names [u],
    and every foreign key of the store still holds, so the files that other
    users kept in the user's folders, and the shares others made of the
    user's files, have been detached or removed with them. *)
Theorem X20_user_deletion_leaves_nothing_of_the_user
    (u : uuid) (d d' : database) :
  primary_key (files d) -> primary_key (folders d) ->
  store_references_hold d ->
  delete_from_users u d = Ok d' ->
  user_gone u d' /\ store_references_hold d'.
Proof.
  intros Hpk Hpkf (Hfu & Hcu & Hsh & Hfr) H.
  destruct (delete_from_users_cases u d d' Hpk H)
    as [[Hkey ->]|(d2 & Hkey & H2 & Hu2 & ->)]; clear H.
  - split; [|exact (conj Hfu (conj Hcu (conj Hsh Hfr)))].
    split; [exact Hkey|]. split; [|split].
    + intros f r Hin. apply (has_key_true_ne _ _ _ Hkey (Hfu f r Hin)).
    + intros c r Hin. apply (has_key_true_ne _ _ _ Hkey (Hcu c r Hin)).
    + intros s r Hin. apply (has_key_true_ne _ _ _ Hkey (proj1 (Hsh s r Hin))).
  - set (d1 := with_users d (remove_row u (users d))) in *.
    destruct (delete_user_folders _ d1 d2 Hpk H2)
      as (Hpk2 & Hframe & Hpkf2 & Hgone & Hrefs).
    specialize (Hpkf2 Hpkf).
    destruct Hframe as (Hfo & _ & _ & Hfi & Hshares & _ & Husers).
    assert (forall w, w <> u -> has_key w (users d) = true ->
                      has_key w (users d2) = true) as Hkeep.
    { intros w Hne Hw. destruct (Husers w) as (_ & Hlimit & _).
      rewrite (has_key_storage_limit w d1 d2 Hlimit).
      unfold has_key. simpl. rewrite select_remove_row.
      destruct (N.eqb_spec u w); [congruence | exact Hw]. }
    assert (forall f r, In (f, r) (files d2) ->
              exists r0, In (f, r0) (files d)
                         /\ Files.user_id r0 = Files.user_id r) as Hfiles2.
    { intros f r Hin. apply (In_select _ _ _ Hpk2) in Hin.
      destruct (Hfi f) as [Heq|Heq]; rewrite Heq in Hin.
      - exists r. split; [apply select_In, Hin | reflexivity].
      - simpl in Hin. destruct (select f (files d)) as [r0|] eqn:H0;
          [|discriminate].
        injection Hin as <-. exists r0.
        split; [apply select_In, H0 | reflexivity]. }
    assert (forall c r, In (c, r) (folders d2) ->
              In (c, r) (folders d) /\ Folders.user_id r <> u) as Hfolders2.
    { intros c r Hin. apply (In_select _ _ _ Hpkf2) in Hin.
      destruct (Hfo c) as [Heq|Heq]; [|congruence].
      rewrite Heq in Hin. split; [apply select_In, Hin|].
      intros Hown. assert (select c (folders d2) = None); [|congruence].
      apply Hgone. unfold folders_of_user.
      change c with (fst (c, r)). apply in_map, List.filter_In.
      split; [apply select_In, Hin | apply N.eqb_eq, Hown]. }
    split.
    + split; [exact Hu2|]. split; [|split].
      * intros f r Hin. simpl in Hin. apply List.filter_In in Hin as [_ Hne].
        apply negb_true_iff, N.eqb_neq in Hne. exact Hne.
      * intros c r Hin. apply (Hfolders2 c r Hin).
      * intros s r Hin. simpl in Hin. apply List.filter_In in Hin as [_ Hne].
        apply negb_true_iff, N.eqb_neq in Hne. exact Hne.
    + split; [|split; [|split]].
      * intros f r Hin. simpl in Hin. apply List.filter_In in Hin as [Hin Hne].
        apply negb_true_iff, N.eqb_neq in Hne. simpl in Hne.
        destruct (Hfiles2 f r Hin) as (r0 & Hin0 & Hsame).
        simpl. apply Hkeep; [exact Hne|]. rewrite <- Hsame. apply (Hfu f r0 Hin0).
      * intros c r Hin. simpl in Hin. destruct (Hfolders2 c r Hin) as [Hin0 Hne].
        simpl. apply Hkeep; [exact Hne | apply (Hcu c r Hin0)].
      * intros s r Hin. simpl in Hin.
        apply List.filter_In in Hin as [Hin Hne].
        apply List.filter_In in Hin as [Hin Hfile].
        apply negb_true_iff, N.eqb_neq in Hne. simpl in Hne.
        apply negb_true_iff in Hfile. simpl in Hfile.
        rewrite Hshares in Hin. destruct (Hsh s r Hin) as [Huser Hhas].
        split; [simpl; apply Hkeep; assumption|].
        simpl. apply has_key_select in Hhas as (r0 & H0).
        assert (exists r2, select (Shares.file_id r) (files d2) = Some r2)
          as (r2 & Hr2).
        { destruct (Hfi (Shares.file_id r)) as [Heq|Heq]; rewrite Heq; simpl;
            rewrite H0; eexists; reflexivity. }
        apply has_key_select. exists r2.
        apply select_filter_true; [exact Hr2|].
        apply negb_true_iff, N.eqb_neq. simpl. intros Hown.
        unfold has_key, files_of_user in Hfile.
        rewrite (select_filter_true _ _ _ r2 Hr2) in Hfile; [discriminate|].
        apply N.eqb_eq, Hown.
      * destruct Hrefs as [Hrf Hrc].
        { destruct Hfr as [Hfrf Hfrc]. split.
          - intros f r x Hr Hx. left. apply (Hfrf f r x (select_In _ _ _ Hr) Hx).
          - intros c r x Hr Hx. left. apply (Hfrc c r x (select_In _ _ _ Hr) Hx). }
        split.
        -- intros f r x Hin Hx. simpl in Hin.
           apply List.filter_In in Hin as [Hin _].
           destruct (Hrf f r x (In_select _ _ _ Hpk2 Hin) Hx) as [Hk|[]].
           exact Hk.
        -- intros c r x Hin Hx. simpl in Hin.
           destruct (Hrc c r x (In_select _ _ _ Hpkf2 Hin) Hx) as [Hk|[]].
           exact Hk.
Qed.

Lemma descends_trans (d : database) (c b a : uuid) :
  descends d c b -> descends d b a -> descends d c a.
Proof.
  intros Hcb Hba. induction Hcb as [b|c r p b Hc Hp _ IH]; [exact Hba|].
  apply (descends_step d c r p a Hc Hp), IH, Hba.
Qed.

Lemma descends_mono (dx d : database) (c a : uuid) :
  (forall x r, select x (folders dx) = Some r -> select x (folders d) = Some r) ->
  descends dx c a -> descends d c a.
Proof.
  intros Hsub H. induction H as [a|c r p a Hc Hp _ IH]; [apply descends_self|].
  apply (descends_step d c r p a (Hsub c r Hc) Hp IH).
Qed.

Lemma frame_folders_sub (d d' : database) :
  folder_delete_frame d d' ->
  forall x r, select x (folders d') = Some r -> select x (folders d) = Some r.
Proof.
  intros (Hfo & _) x r Hx. destruct (Hfo x) as [Heq|Heq]; congruence.
Qed.

Lemma In_sub_folders_inv (id c : uuid) (d : database) :
  primary_key (folders d) ->
  In c (sub_folders id d) ->
  exists r, select c (folders d) = Some r /\ Folders.parent_id r = Some id.
Proof.
  intros Hpk Hin. unfold sub_folders in Hin.
  apply in_map_iff in Hin as ([c' r] & Hc & Hin). simpl in Hc. subst c'.
  apply List.filter_In in Hin as [Hin Hp]. simpl in Hp.
  apply bool_decide_eq_true in Hp.
  exists r. split; [apply In_select; assumption | exact Hp].
Qed.

(** A folder that goes in a cascade lay under one of the folders the cascade
    started from. *)
Lemma cascade_goes_under (n : nat) :
  (forall id d d', primary_key (files d) -> primary_key (folders d) ->
      delete_folder n id d = Ok d' ->
      forall c r, select c (folders d) = Some r ->
                  select c (folders d') = None -> descends d c id) ->
  forall l d d', primary_key (files d) -> primary_key (folders d) ->
    for_each (delete_folder n) l d = Ok d' ->
    forall c r, select c (folders d) = Some r ->
                select c (folders d') = None ->
                exists ch, In ch l /\ descends d c ch.
Proof.
  intros Hone. induction l as [|ch l IH];
    intros d d' Hpk Hpkf H c r Hc Hgone; simpl in H.
  - injection H as <-. congruence.
  - apply bind_Ok in H as (d1 & H1 & H).
    destruct (delete_folder_frame n ch d d1 H1 Hpk) as [Hpk1 Hf1].
    pose proof (delete_folder_keeps_primary_key n ch d d1 H1 Hpkf) as Hpkf1.
    destruct (select c (folders d1)) as [r1|] eqn:Hc1.
    + destruct (IH d1 d' Hpk1 Hpkf1 H c r1 Hc1 Hgone) as (ch' & Hin & Hd).
      exists ch'. split; [right; exact Hin|].
      apply (descends_mono d1 d); [apply frame_folders_sub, Hf1 | exact Hd].
    + exists ch. split; [left; reflexivity|].
      apply (Hone ch d d1 Hpk Hpkf H1 c r Hc Hc1).
Qed.

(** The deletion of a folder takes the folder and folders under it, no
    other. *)
Lemma delete_folder_goes_under (n : nat) :
  forall id d d', primary_key (files d) -> primary_key (folders d) ->
    delete_folder n id d = Ok d' ->
    forall c r, select c (folders d) = Some r ->
                select c (folders d') = None -> descends d c id.
Proof.
  induction n as [|n IH]; intros id d d' Hpk Hpkf H c r Hc Hgone; simpl in H.
  - injection H as <-. congruence.
  - destruct (has_key id (folders d)) eqn:Hkey;
      [|injection H as <-; congruence].
    apply bind_Ok in H as (d2 & H2 & H).
    set (d1 := with_folders d (remove_row id (folders d))) in *.
    destruct (N.eq_dec c id) as [->|Hne]; [apply descends_self|].
    destruct (set_null_all _ d1 d2 Hpk H2) as (Hpk2 & _ & Hfolders2 & _).
    assert (forall x rx, select x (folders d2) = Some rx ->
                         select x (folders d) = Some rx) as Hsub.
    { intros x rx Hx. rewrite Hfolders2 in Hx. simpl in Hx.
      rewrite select_remove_row in Hx.
      destruct (N.eqb id x); [discriminate | exact Hx]. }
    assert (primary_key (folders d2)) as Hpkf2.
    { rewrite Hfolders2. simpl. apply primary_key_remove_row, Hpkf. }
    assert (select c (folders d2) = Some r) as Hc2.
    { rewrite Hfolders2. simpl. rewrite select_remove_row.
      destruct (N.eqb_spec id c); [congruence | exact Hc]. }
    destruct (cascade_goes_under n IH _ d2 d' Hpk2 Hpkf2 H c r Hc2 Hgone)
      as (ch & Hin & Hd).
    apply (descends_trans d c ch id).
    + apply (descends_mono d2 d c ch Hsub Hd).
    + apply (In_sub_folders_inv id ch d2 Hpkf2) in Hin as (rc & Hrc & Hp).
      apply (descends_step d ch rc id id (Hsub ch rc Hrc) Hp), descends_self.
Qed.

(** X21. What the deletion of a user leaves to the others, and what it takes
    from them.  Every other user keeps the limit and the exact total, with
    the aggregate as it was or recomputed.  A folder stays as it was unless
    it is a folder of the deleted user or lies under one: such a folder goes
    with it, also when it belongs to another user.  Every file of another
    user is still there, in its folder or, if the folder went, in none; a
    share that another user made of another user's file is still there; the
    expiration tasks are as they were, those of the deleted files
    included. *)
Theorem X21_what_user_deletion_leaves_to_others
    (u : uuid) (d d' : database) :
  primary_key (files d) ->
  primary_key (folders d) ->
  delete_from_users u d = Ok d' ->
  user_delete_frame u d d'.
Proof.
  intros Hpk Hpkf H.
  destruct (delete_from_users_cases u d d' Hpk H)
    as [[Hkey ->]|(d2 & Hkey & H2 & Hu2 & ->)]; clear H.
  - split; [intros w _; repeat split; left; reflexivity|].
    split; [intros c r Hr; left; exact Hr|].
    split; [intros f r Hr _; left; exact Hr|].
    split; [intros s r OLD Hin _ _ _; exact Hin | reflexivity].
  - set (d1 := with_users d (remove_row u (users d))) in *.
    destruct (delete_user_folders _ d1 d2 Hpk H2) as (Hpk2 & Hframe & _).
    pose proof (frame_folders_sub d1 d2 Hframe) as Hfsub.
    destruct Hframe as (Hfo & _ & _ & Hfi & Hshares & Htasks & Husers).
    assert (forall f r, select f (files d) = Some r -> Files.user_id r <> u ->
              exists r2, select f (files d2) = Some r2
                         /\ (r2 = r \/ r2 = set_folder_id None r)
                         /\ Files.user_id r2 <> u) as Hfiles2.
    { intros f r Hr Hne. destruct (Hfi f) as [Heq|Heq].
      - exists r. split; [rewrite Heq; exact Hr|]. split; [left; reflexivity | exact Hne].
      - exists (set_folder_id None r).
        split; [rewrite Heq; simpl; rewrite Hr; reflexivity|].
        split; [right; reflexivity | exact Hne]. }
    split; [|split; [|split; [|split]]].
    + intros w Hne. destruct (Husers w) as (Htotal & Hlimit & Hused).
      assert (live_total w
                (with_shares
                   (with_files d2
                      (List.filter
                         (fun p => negb (N.eqb (Files.user_id (snd p)) u))
                         (files d2)))
                   (List.filter
                      (fun p => negb (N.eqb (Shares.user_id (snd p)) u))
                      (List.filter
                         (fun p => negb (has_key (Shares.file_id (snd p))
                                           (files_of_user u d2)))
                         (shares d2))))
              = live_total w d2) as Htotal'.
      { rewrite !live_total_table. simpl. apply table_total_filter_other, Hne. }
      assert (forall A (g : Users.row -> A),
                g <$> select w (users d1) = g <$> select w (users d)) as Hrow.
      { intros A g. simpl. rewrite select_remove_row.
        destruct (N.eqb_spec u w); [congruence | reflexivity]. }
      split; [rewrite Htotal'; exact Htotal|].
      split; [unfold storage_limit_of in *; simpl; rewrite Hlimit; apply Hrow|].
      destruct Hused as [Hused|Hused].
      * left. unfold storage_used_of in *. simpl. rewrite Hused. apply Hrow.
      * right. unfold storage_exact in *. rewrite Htotal'.
        unfold storage_used_of in *. simpl. exact Hused.
    + intros c r Hr. simpl.
      destruct (select c (folders d2)) as [r2|] eqn:Hc2.
      * left. pose proof (Hfsub c r2 Hc2) as Hc1.
        change (select c (folders d) = Some r2) in Hc1. congruence.
      * right. split; [reflexivity|].
        rewrite (for_each_delete_from_folders (length (folders d1))) in H2
          by lia.
        destruct (cascade_goes_under _ (delete_folder_goes_under _) _ d1 d2
                    Hpk Hpkf H2 c r Hr Hc2) as (a & Hin & Hd).
        unfold folders_of_user in Hin.
        apply in_map_iff in Hin as ([a' ra] & Ha & Hin). simpl in Ha. subst a'.
        apply List.filter_In in Hin as [Hin Hown]. simpl in Hown.
        apply N.eqb_eq in Hown.
        exists a, ra. split; [apply (In_select a _ ra Hpkf Hin)|].
        split; [exact Hown|].
        apply (descends_mono d1 d); [auto | exact Hd].
    + intros f r Hr Hne. destruct (Hfiles2 f r Hr Hne) as (r2 & Hr2 & Hcase & Hne2).
      assert (select f
                (List.filter (fun p => negb (N.eqb (Files.user_id (snd p)) u))
                   (files d2)) = Some r2) as Hsel.
      { apply select_filter_true; [exact Hr2|].
        apply negb_true_iff, N.eqb_neq. exact Hne2. }
      simpl. rewrite Hsel. destruct Hcase as [->| ->]; [left | right]; reflexivity.
    + intros s r OLD Hin Hne Hfile Hown. simpl.
      apply List.filter_In. split; [|apply negb_true_iff, N.eqb_neq; exact Hne].
      apply List.filter_In. split; [rewrite Hshares; exact Hin|].
      destruct (Hfiles2 _ OLD Hfile Hown) as (r2 & Hr2 & _ & Hne2).
      apply negb_true_iff. simpl. unfold has_key, files_of_user.
      rewrite (select_filter_false _ _ _ r2 Hpk2 Hr2); [reflexivity|].
      apply N.eqb_neq. exact Hne2.
    + simpl. exact Htasks.
Qed.

(** The deletion of user 1 takes folder 21 of user 2 with folder 20, and
    leaves the file of user 2 that was in it in no folder. *)
Lemma guest_folder_without_user_1_spec :
  delete_from_users 1%N guest_folder = Ok guest_folder_without_user_1.
Proof. vm_compute. reflexivity. Qed.

Lemma shared_folders_without_user_1_spec :
  delete_from_users 1%N shared_folders = Ok shared_folders_without_user_1.
Proof. vm_compute. reflexivity. Qed.

Lemma shared_folders_references : store_references_hold shared_folders.
Proof.
  split; [|split; [|split; [|split]]].
  - intros f r Hin. simpl in Hin.
    destruct Hin as [[= <- <-]|[[= <- <-]|[[= <- <-]|[]]]]; reflexivity.
  - intros c r Hin. simpl in Hin.
    destruct Hin as [[= <- <-]|[[= <- <-]|[]]]; reflexivity.
  - intros s r Hin. simpl in Hin.
    destruct Hin as [[= <- <-]|[[= <- <-]|[[= <- <-]|[]]]]; split; reflexivity.
  - intros f r x Hin Hx. simpl in Hin.
    destruct Hin as [[= <- <-]|[[= <- <-]|[[= <- <-]|[]]]];
      try discriminate; injection Hx as <-; reflexivity.
  - intros c r x Hin Hx. simpl in Hin.
    destruct Hin as [[= <- <-]|[[= <- <-]|[]]];
      try discriminate; injection Hx as <-; reflexivity.
Qed.

(** The deletion of user 1 of [shared_folders]. *)
Lemma X20_witness :
  user_gone 1%N shared_folders_without_user_1
  /\ store_references_hold shared_folders_without_user_1.
Proof.
  apply (X20_user_deletion_leaves_nothing_of_the_user 1%N shared_folders).
  - apply (bool_decide_unpack _). vm_compute. exact I.
  - apply (bool_decide_unpack _). vm_compute. exact I.
  - apply shared_folders_references.
  - apply shared_folders_without_user_1_spec.
Defined.

(** The deletion of user 1 of [guest_folder]. *)
Lemma X21_witness :
  user_delete_frame 1%N guest_folder guest_folder_without_user_1.
Proof.
  apply (X21_what_user_deletion_leaves_to_others 1%N).
  - apply (bool_decide_unpack _). vm_compute. exact I.
  - apply (bool_decide_unpack _). vm_compute. exact I.
  - apply guest_folder_without_user_1_spec.
Defined.

(** ** Whose response a caller gets *)

Lemma string_length_append (s t : string) :
  String.length (String.append s t) = (String.length s + String.length t)%nat.
Proof.
  induction s as [|a s IH]; [reflexivity|].
  change (S (String.length (String.append s t))
          = S (String.length s + String.length t)).
  rewrite IH. reflexivity.
Qed.

Lemma string_append_cancel_r (s1 s2 t : string) :
  String.append s1 t = String.append s2 t -> s1 = s2.
Proof.
  revert s2. induction s1 as [|a s1 IH]; intros [|b s2] H.
  - reflexivity.
  - apply (f_equal String.length) in H.
    rewrite !string_length_append in H. simpl in H. lia.
  - apply (f_equal String.length) in H.
    rewrite !string_length_append in H. simpl in H. lia.
  - change (String a (String.append s1 t) = String b (String.append s2 t)) in H.
    injection H as -> H. f_equal. apply IH, H.
Qed.

Section RequestAnswersFacts.
Context `{J : Api.JSON}.
Import Api.

Lemma is_GET_Method_string (m : option Method) :
  is_GET m = true -> Method_string (or_else (fun _ => false) m GET) = "GET".
Proof.
  unfold is_GET. destruct (or_else (fun _ => false) m GET);
    [reflexivity | discriminate | discriminate | discriminate].
Qed.

(** Among [GET]s whose bodies print alike, the key tells the endpoints
    apart. *)
Lemma getCacheKey_endpoint (e1 e2 : string) (cfg1 cfg2 : RequestConfig) :
  is_GET (method cfg1) = true -> is_GET (method cfg2) = true ->
  printed_body cfg1 = printed_body cfg2 ->
  getCacheKey e1 cfg1 = getCacheKey e2 cfg2 -> e1 = e2.
Proof.
  unfold getCacheKey, printed_body. intros H1 H2 Hb Hk.
  rewrite (is_GET_Method_string _ H1), (is_GET_Method_string _ H2), Hb in Hk.
  apply (String.app_inj "GET"), (String.app_inj ":") in Hk.
  apply string_append_cancel_r in Hk. exact Hk.
Qed.

Lemma step_keeps_promises_in_order (c c' : client) :
  promises_in_order c -> step c c' -> promises_in_order c'.
Proof.
  unfold promises_in_order. intros Hc Hs.
  assert (forall endpoint cfg,
            map req_promise (network (fst (executeRequest endpoint cfg c)))
            = seq 0 (next_promise (fst (executeRequest endpoint cfg c)))) as Hex.
  { intros endpoint cfg. simpl. rewrite map_app, Hc. symmetry.
    apply (seq_S (next_promise c) 0). }
  destruct Hs as [endpoint cfg c|dt c _|i due key c _ _|p o c _ _];
    try exact Hc.
  unfold apiRequest. destruct (is_GET (method cfg)); [|apply Hex].
  destruct (requestCache c !! getCacheKey endpoint cfg); [exact Hc|].
  apply (Hex endpoint cfg).
Qed.

Lemma steps_keep_promises_in_order (c c' : client) :
  promises_in_order c -> steps c c' -> promises_in_order c'.
Proof.
  intros Hc Hs. induction Hs as [|c1 c2 c3 Hs _ IH]; [exact Hc|].
  apply IH, (step_keeps_promises_in_order c1 c2 Hc Hs).
Qed.

Lemma promise_names_one_fetch (c : client) (r r' : request) :
  promises_in_order c -> r ∈ network c -> r' ∈ network c ->
  req_promise r' = req_promise r -> r' = r.
Proof.
  unfold promises_in_order. intros Hc Hr Hr' Heq.
  assert (NoDup (map req_promise (network c))) as Hnd
    by (rewrite Hc; apply NoDup_seq).
  apply list_elem_of_lookup_1 in Hr as [i Hi].
  apply list_elem_of_lookup_1 in Hr' as [j Hj].
  assert (i = j) as ->; [|congruence].
  apply (NoDup_lookup _ i j (req_promise r) Hnd).
  - rewrite list_lookup_fmap, Hi. reflexivity.
  - rewrite list_lookup_fmap, Hj. simpl. congruence.
Qed.

(** X22. The cache never hands a caller the response of another endpoint:
    in any run of the page, the promise a [GET] returns is the promise of
    exactly one fetch, and among requests whose bodies print alike, as the
    requests without a body of the services do, that fetch went to the
    endpoint the caller named. *)
Theorem X22_GET_is_answered_by_a_fetch_of_its_endpoint
    (t0 : Z) (c : client) (endpoint : string) (cfg : RequestConfig) :
  steps (loaded t0) c -> is_GET (method cfg) = true ->
  answered_by_own_fetch endpoint cfg c.
Proof.
  intros Hs Hg.
  assert (promises_in_order (loaded t0)) as H0 by reflexivity.
  pose proof (steps_keep_promises_in_order _ _ H0 Hs) as Hord.
  pose proof (step_keeps_promises_in_order _ _ Hord (step_call endpoint cfg c))
    as Hord'.
  destruct (steps_keep_history _ _ (loaded_history t0) Hs)
    as (_ & Hback & _).
  unfold answered_by_own_fetch.
  destruct (requestCache c !! getCacheKey endpoint cfg) as [p|] eqn:Hc.
  - destruct (Hback _ p Hc) as (l & r & Hl & Hp & _).
    assert (r ∈ fetches_for (getCacheKey endpoint cfg) c) as Hr
      by (rewrite Hl; apply elem_of_app; right; apply list_elem_of_singleton;
          reflexivity).
    unfold fetches_for in Hr.
    rewrite list_elem_of_In, List.filter_In, <- list_elem_of_In in Hr.
    destruct Hr as [Hin Hkey]. apply andb_true_iff in Hkey as [Hgr Hkey].
    apply bool_decide_eq_true in Hkey.
    rewrite (apiRequest_hit endpoint cfg c p Hg Hc) in *. simpl.
    exists r. split; [exact Hin|]. split; [exact Hp|].
    split; [intros r' Hr'; apply (promise_names_one_fetch c r r' Hord Hin Hr')|].
    split; [exact Hgr|].
    intros Hbody. apply (getCacheKey_endpoint _ _ _ _ Hgr Hg Hbody Hkey).
  - exists {| req_promise := next_promise c; req_time := clock c;
              req_endpoint := endpoint; req_config := cfg |}.
    assert (apiRequest endpoint cfg c
            = ({| clock := clock c;
                  requestCache := <[getCacheKey endpoint cfg := next_promise c]>
                                    (requestCache c);
                  timers := timers c ++ [(clock c + CACHE_DURATION,
                                          getCacheKey endpoint cfg)];
                  network := network c
                             ++ [{| req_promise := next_promise c;
                                    req_time := clock c;
                                    req_endpoint := endpoint;
                                    req_config := cfg |}];
                  next_promise := S (next_promise c);
                  settled := settled c |}, next_promise c)) as Hcall
      by (unfold apiRequest; rewrite Hg, Hc; reflexivity).
    rewrite Hcall in *. simpl.
    assert ({| req_promise := next_promise c; req_time := clock c;
               req_endpoint := endpoint; req_config := cfg |}
            ∈ network c
              ++ [{| req_promise := next_promise c; req_time := clock c;
                     req_endpoint := endpoint; req_config := cfg |}]) as Hin
      by (apply elem_of_app; right; apply list_elem_of_singleton; reflexivity).
    split; [exact Hin|]. split; [reflexivity|].
    split; [|split; [exact Hg | reflexivity]].
    intros r' Hr' Hp.
    apply (promise_names_one_fetch _
             {| req_promise := next_promise c; req_time := clock c;
                req_endpoint := endpoint; req_config := cfg |} r' Hord' Hin Hr').
    exact Hp.
Qed.

End RequestAnswersFacts.

(** The second read of the storage statistics, answered from the cache. *)
Lemma X22_witness :
  answered_by_own_fetch "/users/storage" Api.storage_stats_config
    storage_stats_cached.
Proof.
  apply (X22_GET_is_answered_by_a_fetch_of_its_endpoint 0).
  - eapply Api.steps_cons;
      [apply (Api.step_call "/users/storage" Api.storage_stats_config)|].
    eapply Api.steps_cons; [apply (Api.step_elapse 4999); lia|].
    apply Api.steps_refl.
  - reflexivity.
Defined.
